(** * Room synchronisation engine of minebuilder

    A shallow embedding of [src/app/api/building/[roomId]/route.ts] (the
    variant that tracks players): the process-wide room registry, the
    [GET] stream endpoint, the [POST] submission endpoint, the abort
    listener and [broadcastToRoom].

    JavaScript values are modelled as far as the handlers inspect them:
    request bodies are JSON values, a missing property is [undefined],
    reading a property of [null] or [undefined] throws, and a template
    literal throws when an object cannot be converted to a primitive.
    Handlers are written in a small state monad that also carries the
    JavaScript completion (normal or thrown) and the list of events handed
    to [broadcastToRoom]. *)

From Stdlib Require Import ZArith.
From stdpp Require Import gmap strings list.

Local Open Scope string_scope.
Set Warnings "-register-all".

(** ** JavaScript values *)

(** The result of [JSON.parse].  JSON numbers are doubles; the server
    never computes with them, it only stores and forwards them, compares
    them with [===] and tests them against zero, so a number is
    represented by an integer code, [0] standing for zero.  An object is
    the list of its own properties; a name listed twice denotes its first
    entry. *)
Inductive json : Type :=
  | JNull
  | JBool (b : bool)
  | JNum (n : Z)
  | JStr (s : string)
  | JArr (items : list json)
  | JObj (members : list (string * json)).

(** A JavaScript value: [None] is [undefined]. *)
Abbreviation value := (option json).
Abbreviation undefined := (@None json).

(** Own property [k] of an object given by its member list. *)
Fixpoint member (k : string) (ms : list (string * json)) : value :=
  match ms with
  | [] => undefined
  | (k', v) :: ms' => if String.eqb k' k then Some v else member k ms'
  end.

(** A completion record: the value of a normal completion, or a throw. *)
Inductive completion (A : Type) : Type :=
  | Normal (a : A)
  | Thrown.
Arguments Normal {A} a.
Arguments Thrown {A}.

(** [v.k] for the property names the handlers read ([action], [sender],
    [block], [blockId], [position], [x], [y], [z], [id]); none of them is
    an own or inherited property of a string, number, boolean or array. *)
Definition get (v : value) (k : string) : completion value :=
  match v with
  | None => Thrown
  | Some JNull => Thrown
  | Some (JObj ms) => Normal (member k ms)
  | Some _ => Normal undefined
  end.

(** ToBoolean. *)
Definition truthy (v : value) : bool :=
  match v with
  | None => false
  | Some JNull => false
  | Some (JBool b) => b
  | Some (JNum n) => negb (Z.eqb n 0)
  | Some (JStr s) => negb (String.eqb s "")
  | Some (JArr _) => true
  | Some (JObj _) => true
  end.

(** [a || b]. *)
Definition or_else (a b : value) : value := if truthy a then a else b.

(** [a === b].  Objects and arrays compare by reference, and the two
    operands of the only comparison in the handlers come from different
    request bodies, so they are never the same object. *)
Definition strict_eq (a b : value) : bool :=
  match a, b with
  | None, None => true
  | Some JNull, Some JNull => true
  | Some (JBool x), Some (JBool y) => Bool.eqb x y
  | Some (JNum x), Some (JNum y) => Z.eqb x y
  | Some (JStr x), Some (JStr y) => String.eqb x y
  | _, _ => false
  end.

(** [v === "lit"], as used by [switch (data.action)]. *)
Definition is_str (v : value) (lit : string) : bool := strict_eq v (Some (JStr lit)).

Definition has_member (k : string) (ms : list (string * json)) : bool :=
  existsb (λ m, String.eqb (fst m) k) ms.

(** Whether ToString succeeds on a parsed JSON value.  An object with an
    own (hence non-callable) [toString] cannot be converted to a
    primitive; an array joins the conversions of its items. *)
Fixpoint to_string_ok (j : json) : bool :=
  match j with
  | JArr items => forallb to_string_ok items
  | JObj ms => negb (has_member "toString" ms)
  | _ => true
  end.

(** [`${v}`] inside a template literal. *)
Definition to_string (v : value) : completion unit :=
  match v with
  | None => Normal tt
  | Some j => if to_string_ok j then Normal tt else Thrown
  end.

(** ** Data model *)

(** [IPlayerPosition].  The coordinates are whatever the last
    [update_position] payload carried. *)
Record player : Type := Player {
  p_x : value;
  p_y : value;
  p_z : value;
  p_name : string
}.

(** The events handed to [JSON.stringify] on their way to a channel. *)
Inductive event : Type :=
  | EInit (blocks : list value) (players : list player)
  | EAdd (block : value) (sender : value)
  | ERemove (blockId : value) (sender : value)
  | EClear
  | EPlayerJoined (name : string) (playerCount : nat)
  | EPlayerLeft (name : string) (playerCount : nat)
  | EPlayerMoved (name : value) (position : value).

(** A room.  [clients] is the insertion-ordered [Set] of stream
    controllers (by identity), [players] the insertion-ordered [Map]. *)
Record room : Type := Room {
  blocks : list value;
  clients : list nat;
  players : list (string * player)
}.

Definition empty_room : room := Room [] [] [].

(** One stream connection: the controller handed to [start] (its frame
    queue and whether the stream has been closed under it), what the
    abort listener's closure captured, and the state of [req.signal]. *)
Record connection : Type := Connection {
  conn_room : string;
  conn_name : string;
  queue : list event;
  closed : bool;
  aborted : bool
}.

(** The process: the module-level [rooms] map and the controllers
    created so far. *)
Record world : Type := World {
  rooms : gmap string room;
  conns : list connection
}.

Definition init : world := World ∅ [].

(** ** [Map] and [Set] operations *)

Definition players_has (k : string) (ps : list (string * player)) : bool :=
  existsb (λ e, String.eqb (fst e) k) ps.

Fixpoint players_get (k : string) (ps : list (string * player)) : option player :=
  match ps with
  | [] => None
  | (k', p) :: ps' => if String.eqb k' k then Some p else players_get k ps'
  end.

Fixpoint players_set (k : string) (p : player) (ps : list (string * player))
    : list (string * player) :=
  match ps with
  | [] => [(k, p)]
  | (k', p') :: ps' =>
      if String.eqb k' k then (k', p) :: ps' else (k', p') :: players_set k p ps'
  end.

Definition players_delete (k : string) (ps : list (string * player))
    : list (string * player) :=
  List.filter (λ e, negb (String.eqb (fst e) k)) ps.

(** [Array.from(room.players.values())]. *)
Definition players_values (ps : list (string * player)) : list player := map snd ps.

(** [room.players.has(v)] for an arbitrary value: the keys are strings. *)
Definition players_has_value (v : value) (ps : list (string * player)) : bool :=
  match v with
  | Some (JStr k) => players_has k ps
  | _ => false
  end.

Definition clients_add (c : nat) (cs : list nat) : list nat :=
  if existsb (Nat.eqb c) cs then cs else cs ++ [c].

Definition clients_delete (c : nat) (cs : list nat) : list nat :=
  List.filter (λ c', negb (Nat.eqb c' c)) cs.

Definition set_blocks (bs : list value) (r : room) : room :=
  Room bs (clients r) (players r).
Definition set_clients (cs : list nat) (r : room) : room :=
  Room (blocks r) cs (players r).
Definition set_players (ps : list (string * player)) (r : room) : room :=
  Room (blocks r) (clients r) ps.

(** ** The handler monad *)

Record outcome (A : Type) : Type := Outcome {
  res : completion A;
  st : world;
  out : list (string * event)
}.
Arguments Outcome {A} res st out.
Arguments res {A} o.
Arguments st {A} o.
Arguments out {A} o.

Definition M (A : Type) : Type := world → outcome A.

Definition ret {A} (a : A) : M A := λ s, Outcome (Normal a) s [].

Definition bind {A B} (m : M A) (f : A → M B) : M B := λ s,
  match m s with
  | Outcome (Normal a) s1 o1 =>
      match f a s1 with
      | Outcome r s2 o2 => Outcome r s2 (o1 ++ o2)
      end
  | Outcome Thrown s1 o1 => Outcome Thrown s1 o1
  end.

Notation "'let!' x ':=' m 'in' k" := (bind m (λ x, k))
  (at level 10, x pattern, m at level 100, k at level 200).

(** Lift a pure completion. *)
Definition lift {A} (c : completion A) : M A := λ s, Outcome c s [].

(** [try { m } catch { h }]. *)
Definition try_catch {A} (m : M A) (h : M A) : M A := λ s,
  match m s with
  | Outcome (Normal a) s1 o1 => Outcome (Normal a) s1 o1
  | Outcome Thrown s1 o1 =>
      match h s1 with
      | Outcome r s2 o2 => Outcome r s2 (o1 ++ o2)
      end
  end.

(** [rooms.get(roomId)!] after [getOrCreateRoom]. *)
Definition the_room (roomId : string) (s : world) : room :=
  default empty_room (rooms s !! roomId).

Definition read_room (roomId : string) : M room := λ s,
  Outcome (Normal (the_room roomId s)) s [].

Definition update_room (roomId : string) (f : room → room) : M unit := λ s,
  Outcome (Normal tt) (World (alter f roomId (rooms s)) (conns s)) [].

Fixpoint forEach {A} (l : list A) (f : A → M unit) : M unit :=
  match l with
  | [] => ret tt
  | x :: l' => let! _ := f x in forEach l' f
  end.

(** ** Helpers of the route *)

(** [getOrCreateRoom]: the room object is thereafter [rooms.get(roomId)]. *)
Definition getOrCreateRoom (roomId : string) : M unit := λ s,
  match rooms s !! roomId with
  | Some _ => Outcome (Normal tt) s []
  | None => Outcome (Normal tt) (World (<[roomId := empty_room]> (rooms s)) (conns s)) []
  end.

(** [controller.enqueue(frame)]: throws once the stream is closed.  (A
    controller that was never created cannot be in a subscriber set; the
    lookup failing is treated like a failed write.) *)
Definition enqueue (controller : nat) (data : event) : M unit := λ s,
  match conns s !! controller with
  | Some k =>
      if closed k then Outcome Thrown s []
      else
        let k' := Connection (conn_room k) (conn_name k) (queue k ++ [data])
                    (closed k) (aborted k) in
        Outcome (Normal tt) (World (rooms s) (<[controller := k']> (conns s))) []
  | None => Outcome Thrown s []
  end.

(** The event passed to one call of [broadcastToRoom]. *)
Definition emit (roomId : string) (data : event) : M unit := λ s,
  Outcome (Normal tt) s [(roomId, data)].

(** [broadcastToRoom].  The callback only ever deletes the entry being
    visited, so the live [forEach] visits exactly the entries the set
    held when the loop began. *)
Definition broadcastToRoom (roomId : string) (data : event) : M unit := λ s,
  match rooms s !! roomId with
  | None => ret tt s
  | Some room =>
      (let! _ := emit roomId data in
       forEach (clients room) (λ controller,
         try_catch (enqueue controller data)
           (update_room roomId (λ r, set_clients (clients_delete controller (clients r)) r)))) s
  end.

(** ** The stream endpoint *)

(** [req.nextUrl.searchParams.get('name') || 'Anonymous']. *)
Definition playerName (name : option string) : string :=
  match name with
  | Some n => if String.eqb n "" then "Anonymous" else n
  | None => "Anonymous"
  end.

Definition origin (name : string) : player :=
  Player (Some (JNum 0)) (Some (JNum 0)) (Some (JNum 0)) name.

(** [new ReadableStream({ start(controller) ... })] hands [start] a fresh,
    open controller; the abort listener registered at the end of [start]
    captures [roomId] and the player name. *)
Definition new_controller (roomId name : string) : M nat := λ s,
  Outcome (Normal (length (conns s)))
    (World (rooms s) (conns s ++ [Connection roomId name [] false false])) [].

(** [GET]; the result is the controller of the new stream. *)
Definition GET (roomId : string) (name : option string) : M nat :=
  let playerName := playerName name in
  let! _ := getOrCreateRoom roomId in
  let! room := read_room roomId in
  let! _ :=
    if negb (players_has playerName (players room)) then
      let! _ := update_room roomId
                  (λ r, set_players (players_set playerName (origin playerName) (players r)) r) in
      let! room := read_room roomId in
      broadcastToRoom roomId (EPlayerJoined playerName (length (players room)))
    else ret tt in
  let! controller := new_controller roomId playerName in
  let! room := read_room roomId in
  let! _ := enqueue controller (EInit (blocks room) (players_values (players room))) in
  let! _ := update_room roomId (λ r, set_clients (clients_add controller (clients r)) r) in
  ret controller.

(** The body of the abort listener registered by [GET]. *)
Definition on_abort (roomId : string) (controller : nat) (playerName : string) : M unit :=
  let! _ := update_room roomId (λ r, set_clients (clients_delete controller (clients r)) r) in
  let! _ := update_room roomId (λ r, set_players (players_delete playerName (players r)) r) in
  let! room := read_room roomId in
  broadcastToRoom roomId (EPlayerLeft playerName (length (players room))).

(** [req.signal] of connection [controller] aborts.  An [AbortSignal]
    dispatches [abort] to its listeners once; afterwards it stays
    aborted. *)
Definition signal_abort (controller : nat) : M unit := λ s,
  match conns s !! controller with
  | Some k =>
      if aborted k then ret tt s
      else
        let k' := Connection (conn_room k) (conn_name k) (queue k) (closed k) true in
        on_abort (conn_room k) controller (conn_name k)
          (World (rooms s) (<[controller := k']> (conns s)))
  | None => ret tt s
  end.

(** The transport closes the stream under [controller] (the consumer
    cancels it): later [enqueue] calls throw. *)
Definition stream_close (controller : nat) : M unit := λ s,
  match conns s !! controller with
  | Some k =>
      let k' := Connection (conn_room k) (conn_name k) (queue k) true (aborted k) in
      Outcome (Normal tt) (World (rooms s) (<[controller := k']> (conns s))) []
  | None => ret tt s
  end.

(** ** The submission endpoint *)

Inductive response : Type :=
  | success            (* 200 { success: true } *)
  | invalid_action     (* 400 { error: "Invalid action" } *)
  | internal_error.    (* 500 { error: "Internal server error" } *)

(** [await req.json()]: [None] is a body that does not parse. *)
Definition req_json (body : option json) : completion json :=
  match body with
  | Some data => Normal data
  | None => Thrown
  end.

(** [room.blocks.filter(block => block.id !== data.blockId)]. *)
Fixpoint filter_blocks (blockId : value) (bs : list value) : completion (list value) :=
  match bs with
  | [] => Normal []
  | block :: bs' =>
      match get block "id" with
      | Thrown => Thrown
      | Normal id =>
          match filter_blocks blockId bs' with
          | Thrown => Thrown
          | Normal kept =>
              Normal (if negb (strict_eq id blockId) then block :: kept else kept)
          end
      end
  end.

(** [player.x = x; player.y = y; player.z = z] on the object stored under
    [name]. *)
Definition move_player (name : value) (x y z : value) (ps : list (string * player))
    : list (string * player) :=
  match name with
  | Some (JStr k) =>
      match players_get k ps with
      | Some p => players_set k (Player x y z (p_name p)) ps
      | None => ps
      end
  | _ => ps
  end.

(** [case "add"]. *)
Definition case_add (roomId : string) (data sender : value) : M response :=
  let! block := lift (get data "block") in
  let! _ := update_room roomId (λ r, set_blocks (blocks r ++ [block]) r) in
  let! x := lift (get block "x") in
  let! _ := lift (to_string x) in
  let! y := lift (get block "y") in
  let! _ := lift (to_string y) in
  let! z := lift (get block "z") in
  let! _ := lift (to_string z) in
  let! _ := broadcastToRoom roomId (EAdd block sender) in
  ret success.

(** [case "remove"]. *)
Definition case_remove (roomId : string) (data sender : value) : M response :=
  let! blockId := lift (get data "blockId") in
  let! room := read_room roomId in
  let! kept := lift (filter_blocks blockId (blocks room)) in
  let! _ := update_room roomId (set_blocks kept) in
  let! _ := lift (to_string blockId) in
  let! _ := broadcastToRoom roomId (ERemove blockId sender) in
  ret success.

(** [case "clear"]. *)
Definition case_clear (roomId : string) : M response :=
  let! _ := update_room roomId (set_blocks []) in
  let! _ := broadcastToRoom roomId EClear in
  ret success.

(** [case "update_position"]. *)
Definition case_update_position (roomId : string) (data sender : value) : M response :=
  let! position := lift (get data "position") in
  let! _ :=
    if truthy sender && truthy position then
      let! room := read_room roomId in
      if players_has_value sender (players room) then
        let! x := lift (get position "x") in
        let! y := lift (get position "y") in
        let! z := lift (get position "z") in
        let! _ := update_room roomId (λ r, set_players (move_player sender x y z (players r)) r) in
        broadcastToRoom roomId (EPlayerMoved sender position)
      else ret tt
    else ret tt in
  ret success.

(** [switch (data.action)] and the acknowledgement that follows it. *)
Definition POST_switch (roomId : string) (data action sender : value) : M response :=
  if is_str action "add" then case_add roomId data sender
  else if is_str action "remove" then case_remove roomId data sender
  else if is_str action "clear" then case_clear roomId
  else if is_str action "update_position" then case_update_position roomId data sender
  else ret invalid_action.

(** The [try] block of [POST]: parse the body, write the log line, get or
    create the room, dispatch. *)
Definition POST_try (roomId : string) (body : option json) : M response :=
  let! data := lift (req_json body) in
  let data := Some data in
  let! action := lift (get data "action") in
  let! _ := lift (to_string action) in
  let! sender := lift (get data "sender") in
  let! _ := lift (to_string (or_else sender (Some (JStr "unknown")))) in
  let! _ := getOrCreateRoom roomId in
  POST_switch roomId data action sender.

(** [POST]: a throw anywhere in the [try] block is answered with 500. *)
Definition POST (roomId : string) (body : option json) : M response :=
  try_catch (POST_try roomId body) (ret internal_error).

(** ** Runs of the process *)

Inductive input : Type :=
  | In_GET (roomId : string) (name : option string)
  | In_POST (roomId : string) (body : option json)
  | In_abort (controller : nat)
  | In_close (controller : nat).

Definition step (i : input) (s : world) : world :=
  match i with
  | In_GET roomId name => st (GET roomId name s)
  | In_POST roomId body => st (POST roomId body s)
  | In_abort c => st (signal_abort c s)
  | In_close c => st (stream_close c s)
  end.

Definition run (tr : list input) (s : world) : world := foldl (λ s i, step i s) s tr.

Inductive reachable : world → Prop :=
  | reachable_init : reachable init
  | reachable_step i s : reachable s → reachable (step i s).

(** ** Payloads as the client builds them ([sendBlockUpdate]) *)

(** [IBlockPosition]. *)
Record block : Type := Block {
  b_x : Z;
  b_y : Z;
  b_z : Z;
  b_blockType : option string;
  b_color : option string;
  b_id : string
}.

Definition optional (k : string) (o : option string) : list (string * json) :=
  match o with
  | Some v => [(k, JStr v)]
  | None => []
  end.

Definition block_json (b : block) : json :=
  JObj ([("x", JNum (b_x b)); ("y", JNum (b_y b)); ("z", JNum (b_z b))]
        ++ optional "color" (b_color b) ++ optional "blockType" (b_blockType b)
        ++ [("id", JStr (b_id b))]).

Definition position_json (x y z : Z) : json :=
  JObj [("x", JNum x); ("y", JNum y); ("z", JNum z)].

(** [JSON.stringify({ action, ...data, sender: userName })]. *)
Definition add_action (b : block) (sender : string) : json :=
  JObj [("action", JStr "add"); ("block", block_json b); ("sender", JStr sender)].
Definition remove_action (blockId sender : string) : json :=
  JObj [("action", JStr "remove"); ("blockId", JStr blockId); ("sender", JStr sender)].
Definition clear_action (sender : string) : json :=
  JObj [("action", JStr "clear"); ("sender", JStr sender)].
Definition update_position_action (x y z : Z) (sender : string) : json :=
  JObj [("action", JStr "update_position"); ("position", position_json x y z);
        ("sender", JStr sender)].
(** ** Delivery of one event to a list of channels *)

Definition writable (ks : list connection) (c : nat) : bool :=
  match ks !! c with
  | Some k => negb (closed k)
  | None => false
  end.

Definition push_frame (data : event) (k : connection) : connection :=
  Connection (conn_room k) (conn_name k) (queue k ++ [data]) (closed k) (aborted k).

Definition deliver_one (data : event) (ks : list connection) (c : nat) : list connection :=
  match ks !! c with
  | Some k => if closed k then ks else <[c := push_frame data k]> ks
  | None => ks
  end.

Definition deliver (data : event) (cs : list nat) (ks : list connection) : list connection :=
  foldl (deliver_one data) ks cs.

(** What the room looks like once the failing channels are dropped. *)
Definition heal (ks : list connection) (r : room) : room :=
  set_clients (List.filter (writable ks) (clients r)) r.

Arguments deliver : simpl never.

(** ** Reasoning about handlers *)

(** The registry after [getOrCreateRoom]. *)
Definition ensure_room (roomId : string) (m : gmap string room) : gmap string room :=
  match m !! roomId with
  | Some _ => m
  | None => <[roomId := empty_room]> m
  end.

(** [hoare P m Q]: from a state in [P], [m] ends in a state in [Q],
    whether it completes normally or throws. *)
Definition hoare {A} (P : world → Prop) (m : M A) (Q : world → Prop) : Prop :=
  ∀ s, P s → Q (st (m s)).

(** [yields Q m]: every value [m] returns satisfies [Q]. *)
Definition yields {A} (Q : A → Prop) (m : M A) : Prop :=
  ∀ s a, res (m s) = Normal a → Q a.

(** ** Invariants of the process *)

(** [clients] is a set, and no player is stored under the empty name. *)
Definition room_ok (r : room) : Prop :=
  NoDup (clients r) ∧ Forall (λ e, fst e ≠ "") (players r).

(** Every room is well formed and every connection's room is still in the
    registry (rooms are never deleted), so the room object captured by an
    abort listener is the one [rooms.get] returns. *)
Definition inv (s : world) : Prop :=
  map_Forall (λ _ r, room_ok r) (rooms s) ∧
  Forall (λ k, conn_room k ∈ dom (rooms s)) (conns s).

(** The invariant, together with the presence of a set of rooms. *)
Definition invd (D : gset string) (s : world) : Prop := inv s ∧ D ⊆ dom (rooms s).

(** A process with two subscribers of room ["r"], the first of which has
    lost its stream. *)
Definition two_subscribers_one_closed : world :=
  run [In_GET "r" (Some "Alice"); In_GET "r" (Some "Bob"); In_close 0] init.

(** The state of the room when the snapshot is taken: the player of the
    connection has been registered if it was not known. *)
Definition room_at_subscription (roomId : string) (name : option string) (s : world) : room :=
  let room := the_room roomId s in
  if players_has (playerName name) (players room) then room
  else set_players (players_set (playerName name) (origin (playerName name)) (players room)) room.

(** ** Reading a submission *)

(** [v.k] where it does not throw. *)
Definition field (v : value) (k : string) : value :=
  match get v k with
  | Normal x => x
  | Thrown => undefined
  end.

Definition renders (v : value) : bool :=
  match to_string v with
  | Normal _ => true
  | Thrown => false
  end.

(** The payloads on which [POST] gets past its log line: the body is not
    [null] and both [data.action] and [data.sender || 'unknown'] convert to
    strings. *)
Definition logged (data : json) : bool :=
  match data with
  | JNull => false
  | _ => renders (field (Some data) "action")
         && renders (or_else (field (Some data) "sender") (Some (JStr "unknown")))
  end.

(** The action tags [switch] knows. *)
Definition recognised (action : value) : bool :=
  is_str action "add" || is_str action "remove" || is_str action "clear"
  || is_str action "update_position".

(** A stored block whose [id] can be read: neither [undefined] nor
    [null]. *)
Definition readable (b : value) : bool :=
  match b with
  | None => false
  | Some JNull => false
  | Some _ => true
  end.

(** [block.id === blockId]. *)
Definition has_id (blockId : value) (b : value) : bool :=
  strict_eq (field b "id") blockId.

(** The blocks after a [remove], whether or not the filter throws. *)
Definition after_remove (blockId : value) (bs : list value) : list value :=
  match filter_blocks blockId bs with
  | Normal kept => kept
  | Thrown => bs
  end.

(** The string ids of a list of stored blocks. *)
Definition block_id (b : value) : option string :=
  match field b "id" with
  | Some (JStr i) => Some i
  | _ => None
  end.

Definition block_ids (bs : list value) : list string := omap block_id bs.

(** The blocks of room [r] are [B]. *)
Definition blocks_at (r : string) (B : list value) (s : world) : Prop :=
  blocks (the_room r s) = B.

(** [a.id === b.id] for two stored blocks whose [id] can be read, whatever
    the ids are (strings, numbers, [undefined], ...), as [remove] compares
    them. *)
Definition same_id (a b : value) : bool :=
  match get a "id", get b "id" with
  | Normal x, Normal y => strict_eq x y
  | _, _ => false
  end.

(** No two stored blocks have strictly equal ids. *)
Fixpoint distinct_ids (bs : list value) : bool :=
  match bs with
  | [] => true
  | b :: bs' => forallb (λ b', negb (same_id b b')) bs' && distinct_ids bs'
  end.

(** The condition under which an [add] keeps the ids distinct: the id of
    the block it carries is strictly equal to no id stored in the room.
    The server does not check it. *)
Definition fresh_add (i : input) (s : world) : Prop :=
  match i with
  | In_POST roomId (Some data) =>
      logged data = true →
      is_str (field (Some data) "action") "add" = true →
      Forall (λ b, same_id b (field (Some data) "block") = false)
        (blocks (the_room roomId s))
  | _ => True
  end.

(** ** Sequences of submissions seen from one room *)

(** What a room sees during a run of adds and removes: well-formed [add],
    [remove] and [update_position] submissions to the room itself, and
    arbitrary submissions (for instance [clear]) to other rooms. *)
Inductive submission : Type :=
  | Sub_add (b : block) (sender : string)
  | Sub_remove (blockId sender : string)
  | Sub_update_position (x y z : Z) (sender : string)
  | Sub_elsewhere (roomId : string) (body : option json).

Definition submit (r : string) (a : submission) : input :=
  match a with
  | Sub_add b sender => In_POST r (Some (add_action b sender))
  | Sub_remove blockId sender => In_POST r (Some (remove_action blockId sender))
  | Sub_update_position x y z sender => In_POST r (Some (update_position_action x y z sender))
  | Sub_elsewhere roomId body => In_POST roomId body
  end.

Definition elsewhere (r : string) (a : submission) : Prop :=
  match a with
  | Sub_elsewhere roomId _ => roomId ≠ r
  | _ => True
  end.

Definition is_edit (a : submission) : bool :=
  match a with
  | Sub_add _ _ => true
  | Sub_remove _ _ => true
  | _ => false
  end.

(** The ids added, and the ids removed, anywhere in the sequence. *)
Definition added_id (a : submission) : option string :=
  match a with
  | Sub_add b _ => Some (b_id b)
  | _ => None
  end.

Definition removed_id (a : submission) : option string :=
  match a with
  | Sub_remove blockId _ => Some blockId
  | _ => None
  end.

Definition ids_added (l : list submission) : gset string := list_to_set (omap added_id l).
Definition ids_removed (l : list submission) : gset string := list_to_set (omap removed_id l).

(** The ids alive after the sequence: insert on [add], delete on
    [remove], in order. *)
Definition live_step (S : gset string) (a : submission) : gset string :=
  match a with
  | Sub_add b _ => S ∪ {[b_id b]}
  | Sub_remove blockId _ => S ∖ {[blockId]}
  | _ => S
  end.

Definition live_ids (l : list submission) : gset string := foldl live_step ∅ l.

(** No id is added again after it has been removed. *)
Definition no_add_after_remove (l : list submission) : Prop :=
  ∀ i j blockId sender b sender',
    i < j → l !! i = Some (Sub_remove blockId sender) → l !! j = Some (Sub_add b sender') →
    b_id b ≠ blockId.

(** The ids of the blocks of room [r], as a set. *)
Definition room_ids (r : string) (s : world) : gset string :=
  list_to_set (block_ids (blocks (the_room r s))).


(** ** The [init] frame as the subscriber reads it *)

(** The frame enqueued by [start] is the text
    [JSON.stringify({ type: "init", blocks, players })].  [JSON.stringify]
    writes an [undefined] array element as [null] and leaves out a property
    whose value is [undefined]; a parsed value is written back as it was
    read. *)
Definition written_item (v : value) : json := default JNull v.

Definition written_member (k : string) (v : value) : list (string * json) :=
  match v with
  | Some j => [(k, j)]
  | None => []
  end.

(** An [IPlayerPosition] as written: [{ x, y, z, name }]. *)
Definition player_json (p : player) : json :=
  JObj (written_member "x" (p_x p) ++ written_member "y" (p_y p)
        ++ written_member "z" (p_z p) ++ [("name", JStr (p_name p))]).

(** [JSON.parse] of the frame that carries [EInit bs ps]. *)
Definition init_frame (bs : list value) (ps : list player) : json :=
  JObj [("type", JStr "init");
        ("blocks", JArr (written_item <$> bs));
        ("players", JArr (player_json <$> ps))].
(** ** Further definitions *)

(** The log line of [case "add"] goes through: [data.block] can be read
    and its [x], [y] and [z] convert to strings. *)
Definition printable_block (b : value) : bool :=
  readable b && renders (field b "x") && renders (field b "y") && renders (field b "z").

(** Every attached controller is a connection made to this room whose
    signal has not aborted. *)
Definition attached_ok (roomId : string) (ks : list connection) (r : room) : Prop :=
  Forall (λ c, ∃ k, ks !! c = Some k ∧ conn_room k = roomId ∧ aborted k = false) (clients r).

(** The player map holds each name once, and each Player under its own
    name. *)
Definition players_ok (r : room) : Prop :=
  NoDup (fst <$> players r) ∧ Forall (λ e, p_name (snd e) = fst e) (players r).

Definition inv2 (s : world) : Prop :=
  map_Forall (λ roomId r, attached_ok roomId (conns s) r ∧ players_ok r) (rooms s).

(** The connections of [ks] are still there in [ks'], for the same room and
    with the same signal state. *)
Definition same_connections (ks ks' : list connection) : Prop :=
  ∀ c k, ks !! c = Some k →
    ∃ k', ks' !! c = Some k' ∧ conn_room k' = conn_room k ∧
          conn_name k' = conn_name k ∧ aborted k' = aborted k.

(** Every player of the room was registered by a subscription to this room
    under that name whose request has not been aborted. *)
Definition players_live (roomId : string) (ks : list connection) (r : room) : Prop :=
  ∀ name, name ∈ fst <$> players r →
    ∃ c k, ks !! c = Some k ∧ conn_room k = roomId ∧ conn_name k = name ∧ aborted k = false.

Definition inv3 (s : world) : Prop :=
  map_Forall (λ roomId r, players_live roomId (conns s) r) (rooms s).


(** [k'] is the connection [k] at a later time: the same request, its
    stream holding the frames it held followed by further ones, none once
    the stream is closed; a closed stream stays closed and an aborted
    signal stays aborted. *)
Definition later_on (k k' : connection) : Prop :=
  conn_room k' = conn_room k ∧ conn_name k' = conn_name k ∧
  (∃ evs, queue k' = (queue k ++ evs)%list ∧ (closed k = true → evs = [])) ∧
  (closed k = true → closed k' = true) ∧
  (aborted k = true → aborted k' = true).

Definition history (ks ks' : list connection) : Prop :=
  ∀ c k, ks !! c = Some k → ∃ k', ks' !! c = Some k' ∧ later_on k k'.

(** Connection [c] exists with property [Φ] and is attached to no room
    among [D]. *)
Definition undisturbed (D : string → Prop) (Φ : connection → Prop) (c : nat) (s : world)
    : Prop :=
  (∃ k, conns s !! c = Some k ∧ Φ k) ∧
  ∀ r rm, D r → rooms s !! r = Some rm → c ∉ clients rm.

(** The room an input is addressed to: the room of the URL for a request,
    the room of the connection for an abort or a closed stream. *)
Definition addressed (i : input) (s : world) : option string :=
  match i with
  | In_GET roomId _ | In_POST roomId _ => Some roomId
  | In_abort c | In_close c => conn_room <$> conns s !! c
  end.

(** A computation that broadcasts nothing, writes to no stream and leaves
    the client set of room [roomId] alone. *)
Definition quiet {A} (roomId : string) (m : M A) : Prop :=
  ∀ s, out (m s) = [] ∧ conns (st (m s)) = conns s ∧
       clients (the_room roomId (st (m s))) = clients (the_room roomId s).

(** A computation that is quiet, or else broadcasts one event to room
    [roomId], delivered to the clients the room had at the start. *)
Definition speaks {A} (roomId : string) (m : M A) : Prop :=
  ∀ s, (out (m s) = [] ∧ conns (st (m s)) = conns s) ∨
       (∃ ev, out (m s) = [(roomId, ev)] ∧
              conns (st (m s)) = deliver ev (clients (the_room roomId s)) (conns s)).

Definition is_init (e : event) : bool :=
  match e with
  | EInit _ _ => true
  | _ => false
  end.

(** A stream that opens with its [init] frame and holds no other. *)
Definition init_first (k : connection) : Prop :=
  ∃ bs ps rest, queue k = EInit bs ps :: rest ∧ Forall (λ e, is_init e = false) rest.

(** ** A stream as a log of the room *)

(** What a subscriber can know of a room: its blocks and its players. *)
Definition view (r : room) : list value * list player :=
  (blocks r, players_values (players r)).

(** The meaning of one frame for a replica of the room. *)
Definition replay_step (v : list value * list player) (e : event)
    : list value * list player :=
  match e with
  | EInit bs ps => (bs, ps)
  | EAdd b _ => ((v.1 ++ [b])%list, v.2)
  | ERemove blockId _ => (List.filter (λ b, negb (has_id blockId b)) v.1, v.2)
  | EClear => ([], v.2)
  | EPlayerJoined n _ => (v.1, (v.2 ++ [origin n])%list)
  | EPlayerLeft n _ => (v.1, List.filter (λ p, negb (String.eqb (p_name p) n)) v.2)
  | EPlayerMoved name position =>
      (v.1,
       (λ p, if is_str name (p_name p)
             then Player (field position "x") (field position "y") (field position "z")
                    (p_name p)
             else p) <$> v.2)
  end.

Definition replay (q : list event) : list value * list player :=
  foldl replay_step ([], []) q.

(** The submissions whose effect on the blocks is broadcast: an [add]
    whose block can be read and its coordinates printed by the log line of
    the case, a [remove] whose id can be printed; every other submission
    qualifies. *)
Definition announced (i : input) : bool :=
  match i with
  | In_POST _ (Some data) =>
      negb (logged data) ||
      (if is_str (field (Some data) "action") "add"
       then printable_block (field (Some data) "block")
       else if is_str (field (Some data) "action") "remove"
       then renders (field (Some data) "blockId")
       else true)
  | _ => true
  end.

(** Every open stream attached to a room replays to that room. *)
Definition replica (s : world) : Prop :=
  ∀ r rm c k, rooms s !! r = Some rm → c ∈ clients rm → conns s !! c = Some k →
              closed k = false → replay (queue k) = view rm.

(** * The block-only version of the route

    The same file holds an earlier version of the route, without players:
    a room is [{ blocks, clients }], [init] carries the blocks only, and
    [POST] knows [add], [remove] and [clear]. *)

Module V1.

Inductive event : Type :=
  | EInit (blocks : list value)
  | EAdd (block : value) (sender : value)
  | ERemove (blockId : value) (sender : value)
  | EClear.

Record room : Type := Room {
  blocks : list value;
  clients : list nat
}.

Definition empty_room : room := Room [] [].

Record connection : Type := Connection {
  conn_room : string;
  queue : list event;
  closed : bool;
  aborted : bool
}.

Record world : Type := World {
  rooms : gmap string room;
  conns : list connection
}.

Definition set_blocks (bs : list value) (r : room) : room := Room bs (clients r).
Definition set_clients (cs : list nat) (r : room) : room := Room (blocks r) cs.

Record outcome (A : Type) : Type := Outcome {
  res : completion A;
  st : world;
  out : list (string * event)
}.
Arguments Outcome {A} res st out.
Arguments res {A} o.
Arguments st {A} o.
Arguments out {A} o.

Definition M (A : Type) : Type := world → outcome A.

Definition ret {A} (a : A) : M A := λ s, Outcome (Normal a) s [].

Definition bind {A B} (m : M A) (f : A → M B) : M B := λ s,
  match m s with
  | Outcome (Normal a) s1 o1 =>
      match f a s1 with
      | Outcome r s2 o2 => Outcome r s2 (o1 ++ o2)
      end
  | Outcome Thrown s1 o1 => Outcome Thrown s1 o1
  end.

Definition lift {A} (c : completion A) : M A := λ s, Outcome c s [].

Definition try_catch {A} (m : M A) (h : M A) : M A := λ s,
  match m s with
  | Outcome (Normal a) s1 o1 => Outcome (Normal a) s1 o1
  | Outcome Thrown s1 o1 =>
      match h s1 with
      | Outcome r s2 o2 => Outcome r s2 (o1 ++ o2)
      end
  end.

Definition the_room (roomId : string) (s : world) : room :=
  default empty_room (rooms s !! roomId).

Definition read_room (roomId : string) : M room := λ s,
  Outcome (Normal (the_room roomId s)) s [].

Definition update_room (roomId : string) (f : room → room) : M unit := λ s,
  Outcome (Normal tt) (World (alter f roomId (rooms s)) (conns s)) [].

Fixpoint forEach {A} (l : list A) (f : A → M unit) : M unit :=
  match l with
  | [] => ret tt
  | x :: l' => bind (f x) (λ _, forEach l' f)
  end.

(** [getOrCreateRoom]. *)
Definition getOrCreateRoom (roomId : string) : M unit := λ s,
  match rooms s !! roomId with
  | Some _ => Outcome (Normal tt) s []
  | None => Outcome (Normal tt) (World (<[roomId := empty_room]> (rooms s)) (conns s)) []
  end.

(** [controller.enqueue(frame)]. *)
Definition enqueue (controller : nat) (data : event) : M unit := λ s,
  match conns s !! controller with
  | Some k =>
      if closed k then Outcome Thrown s []
      else
        let k' := Connection (conn_room k) (queue k ++ [data]) (closed k) (aborted k) in
        Outcome (Normal tt) (World (rooms s) (<[controller := k']> (conns s))) []
  | None => Outcome Thrown s []
  end.

Definition emit (roomId : string) (data : event) : M unit := λ s,
  Outcome (Normal tt) s [(roomId, data)].

(** [broadcastToRoom]. *)
Definition broadcastToRoom (roomId : string) (data : event) : M unit := λ s,
  match rooms s !! roomId with
  | None => ret tt s
  | Some room =>
      bind (emit roomId data) (λ _,
        forEach (clients room) (λ controller,
          try_catch (enqueue controller data)
            (update_room roomId
               (λ r, set_clients (clients_delete controller (clients r)) r)))) s
  end.

(** [case "add"]. *)
Definition case_add (roomId : string) (data sender : value) : M response :=
  bind (lift (get data "block")) (λ block,
  bind (update_room roomId (λ r, set_blocks (blocks r ++ [block]) r)) (λ _,
  bind (lift (get block "x")) (λ x,
  bind (lift (to_string x)) (λ _,
  bind (lift (get block "y")) (λ y,
  bind (lift (to_string y)) (λ _,
  bind (lift (get block "z")) (λ z,
  bind (lift (to_string z)) (λ _,
  bind (broadcastToRoom roomId (EAdd block sender)) (λ _,
  ret success))))))))).

(** [case "remove"]. *)
Definition case_remove (roomId : string) (data sender : value) : M response :=
  bind (lift (get data "blockId")) (λ blockId,
  bind (read_room roomId) (λ room,
  bind (lift (filter_blocks blockId (blocks room))) (λ kept,
  bind (update_room roomId (set_blocks kept)) (λ _,
  bind (lift (to_string blockId)) (λ _,
  bind (broadcastToRoom roomId (ERemove blockId sender)) (λ _,
  ret success)))))).

(** [case "clear"]. *)
Definition case_clear (roomId : string) : M response :=
  bind (update_room roomId (set_blocks [])) (λ _,
  bind (broadcastToRoom roomId EClear) (λ _,
  ret success)).

(** [switch (data.action)]: anything else is the [default] case. *)
Definition POST_switch (roomId : string) (data action sender : value) : M response :=
  if is_str action "add" then case_add roomId data sender
  else if is_str action "remove" then case_remove roomId data sender
  else if is_str action "clear" then case_clear roomId
  else ret invalid_action.

Definition POST_try (roomId : string) (body : option json) : M response :=
  bind (lift (req_json body)) (λ data,
  let data := Some data in
  bind (lift (get data "action")) (λ action,
  bind (lift (to_string action)) (λ _,
  bind (lift (get data "sender")) (λ sender,
  bind (lift (to_string (or_else sender (Some (JStr "unknown"))))) (λ _,
  bind (getOrCreateRoom roomId) (λ _,
  POST_switch roomId data action sender)))))).

(** [POST] of the block-only version. *)
Definition POST (roomId : string) (body : option json) : M response :=
  try_catch (POST_try roomId body) (ret internal_error).

(** [new ReadableStream({ start(controller) ... })]. *)
Definition new_controller (roomId : string) : M nat := λ s,
  Outcome (Normal (length (conns s)))
    (World (rooms s) (conns s ++ [Connection roomId [] false false])) [].

(** [GET] of the block-only version. *)
Definition GET (roomId : string) : M nat :=
  bind (getOrCreateRoom roomId) (λ _,
  bind (new_controller roomId) (λ controller,
  bind (read_room roomId) (λ room,
  bind (enqueue controller (EInit (blocks room))) (λ _,
  bind (update_room roomId
          (λ r, set_clients (clients_add controller (clients r)) r)) (λ _,
  ret controller))))).

(** The abort listener registered by [GET]. *)
Definition on_abort (roomId : string) (controller : nat) : M unit :=
  update_room roomId (λ r, set_clients (clients_delete controller (clients r)) r).

Definition signal_abort (controller : nat) : M unit := λ s,
  match conns s !! controller with
  | Some k =>
      if aborted k then ret tt s
      else
        let k' := Connection (conn_room k) (queue k) (closed k) true in
        on_abort (conn_room k) controller
          (World (rooms s) (<[controller := k']> (conns s)))
  | None => ret tt s
  end.

End V1.

(** ** Forgetting the players *)

Definition forget_room (r : room) : V1.room := V1.Room (blocks r) (clients r).

(** The frames the block-only version knows; [init] loses its players. *)
Definition forget_event (e : event) : option V1.event :=
  match e with
  | EInit bs _ => Some (V1.EInit bs)
  | EAdd b sender => Some (V1.EAdd b sender)
  | ERemove blockId sender => Some (V1.ERemove blockId sender)
  | EClear => Some V1.EClear
  | _ => None
  end.

Definition forget_conn (k : connection) : V1.connection :=
  V1.Connection (conn_room k) (omap forget_event (queue k)) (closed k) (aborted k).

Definition forget (s : world) : V1.world :=
  V1.World (forget_room <$> rooms s) (forget_conn <$> conns s).

Definition forget_out (o : list (string * event)) : list (string * V1.event) :=
  omap (λ e, (λ e1, (e.1, e1)) <$> forget_event e.2) o.

(** The block-only computation [m1] does on the forgotten state what [m2]
    does on the state, with results related by [R]. *)
Definition simulates {A1 A2} (R : A1 → A2 → Prop) (m1 : V1.M A1) (m2 : M A2) : Prop :=
  ∀ s,
    V1.st (m1 (forget s)) = forget (st (m2 s)) ∧
    V1.out (m1 (forget s)) = forget_out (out (m2 s)) ∧
    match V1.res (m1 (forget s)), res (m2 s) with
    | Normal a1, Normal a2 => R a1 a2
    | Thrown, Thrown => True
    | _, _ => False
    end.

(** No controller attached to the room has a closed stream. *)
Definition all_open (roomId : string) (s : world) : Prop :=
  Forall (λ c, writable (conns s) c = true) (clients (the_room roomId s)).
(** * Properties *)

(** ** Lists *)

Lemma filter_all {A} (P : A → bool) (l : list A) :
  (∀ x, In x l → P x = true) → List.filter P l = l.
Proof.
  induction l as [|a l IH]; simpl; intros H; [done|].
  rewrite (H a) by auto. f_equal. apply IH. auto.
Qed.

Lemma filter_filter {A} (P Q : A → bool) (l : list A) :
  List.filter P (List.filter Q l) = List.filter (λ x, Q x && P x) l.
Proof.
  induction l as [|a l IH]; simpl; [done|].
  destruct (Q a); simpl; [destruct (P a)|]; by rewrite IH.
Qed.

Lemma NoDup_List_filter {A} (P : A → bool) (l : list A) :
  NoDup l → NoDup (List.filter P l).
Proof. rewrite !NoDup_ListNoDup. apply List.NoDup_filter. Qed.

Lemma elem_of_List_filter {A} (P : A → bool) (l : list A) x :
  x ∈ List.filter P l ↔ x ∈ l ∧ P x = true.
Proof. rewrite !list_elem_of_In. apply filter_In. Qed.

Lemma existsb_eqb_In (c : nat) (cs : list nat) :
  existsb (Nat.eqb c) cs = true ↔ In c cs.
Proof.
  rewrite existsb_exists. split.
  - intros (x & Hx & Heq). apply Nat.eqb_eq in Heq. by subst.
  - intros H. exists c. split; [done|]. apply Nat.eqb_refl.
Qed.

(** ** Delivery of one event to a list of channels *)

Lemma deliver_cons data c cs ks :
  deliver data (c :: cs) ks = deliver data cs (deliver_one data ks c).
Proof. done. Qed.

Lemma deliver_one_length data ks c : length (deliver_one data ks c) = length ks.
Proof.
  unfold deliver_one. destruct (ks !! c) as [k|]; [|done].
  destruct (closed k); [done|]. apply length_insert.
Qed.

Lemma writable_insert (ks : list connection) c k k' a :
  ks !! c = Some k → closed k' = closed k →
  writable (<[c := k']> ks) a = writable ks a.
Proof.
  intros Hk Hc. unfold writable. destruct (decide (c = a)) as [->|Hne].
  - rewrite list_lookup_insert_eq by (by eapply lookup_lt_Some). by rewrite Hk, Hc.
  - by rewrite list_lookup_insert_ne.
Qed.

Lemma deliver_one_writable data ks c c' :
  writable (deliver_one data ks c) c' = writable ks c'.
Proof.
  unfold deliver_one. destruct (ks !! c) as [k|] eqn:Hk; [|done].
  destruct (closed k) eqn:Hc; [done|]. unfold writable.
  destruct (decide (c = c')) as [->|Hne].
  - rewrite list_lookup_insert_eq by (by eapply lookup_lt_Some).
    rewrite Hk. simpl. by rewrite Hc.
  - by rewrite list_lookup_insert_ne.
Qed.

Lemma deliver_length data cs ks : length (deliver data cs ks) = length ks.
Proof.
  revert ks. induction cs as [|c cs IH]; intros ks; simpl; [done|].
  unfold deliver in *. simpl. rewrite IH. apply deliver_one_length.
Qed.

Lemma deliver_not_in data cs ks c :
  c ∉ cs → deliver data cs ks !! c = ks !! c.
Proof.
  revert ks. induction cs as [|c' cs IH]; intros ks Hc; [done|].
  apply not_elem_of_cons in Hc as [Hne Hc].
  rewrite deliver_cons, IH by done.
  unfold deliver_one. destruct (ks !! c') as [k|]; [|done].
  destruct (closed k); [done|]. by apply list_lookup_insert_ne.
Qed.

(** Each channel of a duplicate-free list gets the frame exactly once when
    it is writable, and is left alone otherwise. *)
Lemma deliver_lookup data cs ks c :
  NoDup cs → c ∈ cs →
  deliver data cs ks !! c =
    (if writable ks c then push_frame data <$> ks !! c else ks !! c).
Proof.
  revert ks. induction cs as [|c' cs IH]; intros ks Hnd Hin.
  { by apply elem_of_nil in Hin. }
  apply NoDup_cons in Hnd as [Hc' Hnd]. rewrite deliver_cons.
  destruct (decide (c' = c)) as [->|Hne].
  - rewrite deliver_not_in by done.
    unfold deliver_one, writable. destruct (ks !! c) as [k|] eqn:Hk; [|by rewrite Hk].
    destruct (closed k); simpl; [done|].
    rewrite list_lookup_insert_eq by (by eapply lookup_lt_Some). done.
  - apply elem_of_cons in Hin as [?|Hin]; [done|].
    rewrite IH by done. rewrite deliver_one_writable.
    unfold deliver_one. destruct (ks !! c') as [k|]; [|done].
    destruct (closed k); [done|]. by rewrite list_lookup_insert_ne.
Qed.

(** A queue only ever grows by copies of the event being broadcast. *)
Lemma deliver_queue data cs ks c k :
  ks !! c = Some k →
  ∃ n, deliver data cs ks !! c =
         Some (Connection (conn_room k) (conn_name k) (queue k ++ replicate n data)
                 (closed k) (aborted k)).
Proof.
  revert ks k. induction cs as [|c' cs IH]; intros ks k Hk.
  - exists 0. simpl. rewrite app_nil_r. by destruct k.
  - unfold deliver in *. simpl. unfold deliver_one at 2.
    destruct (ks !! c') as [k'|] eqn:Hk'; [|by apply IH].
    destruct (closed k'); [by apply IH|].
    destruct (decide (c' = c)) as [->|Hne].
    + assert (k' = k) as -> by congruence.
      destruct (IH (<[c := push_frame data k]> ks) (push_frame data k)) as [n Hn].
      { apply list_lookup_insert_eq. by eapply lookup_lt_Some. }
      exists (S n). rewrite Hn. simpl. by rewrite <-app_assoc.
    + apply IH. by rewrite list_lookup_insert_ne.
Qed.

(** ** [broadcastToRoom] in closed form *)

Lemma world_eta s : World (rooms s) (conns s) = s.
Proof. by destruct s. Qed.

Lemma forEach_send roomId data cs s :
  forEach cs (λ controller,
      try_catch (enqueue controller data)
        (update_room roomId (λ r, set_clients (clients_delete controller (clients r)) r))) s
  = Outcome (Normal tt)
      (World
         (alter (λ r, set_clients
                   (List.filter (λ c, writable (conns s) c || negb (existsb (Nat.eqb c) cs))
                      (clients r)) r) roomId (rooms s))
         (deliver data cs (conns s))) [].
Proof.
  revert s. induction cs as [|c cs IH]; intros s.
  - simpl. unfold ret. f_equal. rewrite <-(world_eta s) at 1. f_equal.
    symmetry. apply alter_id. intros r _. destruct r as [bs cl ps]. unfold set_clients. simpl.
    f_equal. apply filter_all. intros x _. apply orb_true_r.
  - simpl. unfold bind, try_catch, enqueue.
    destruct (conns s !! c) as [k|] eqn:Hk; [destruct (closed k) eqn:Hc|]; simpl.
    + rewrite IH. simpl. f_equal. f_equal.
      rewrite alter_alter_eq. apply alter_ext. intros r _. unfold compose.
      destruct r as [bs cl ps]. unfold set_clients, clients_delete. simpl. f_equal.
      * rewrite filter_filter. apply filter_ext. intros a.
        unfold writable. destruct (Nat.eqb_spec a c) as [->|Hne]; simpl.
        -- by rewrite Hk, Hc.
        -- done.
      * rewrite deliver_cons. unfold deliver_one. by rewrite Hk, Hc.
    + rewrite IH. simpl. f_equal. f_equal.
      * apply alter_ext. intros r _. destruct r as [bs cl ps]. unfold set_clients. simpl.
        f_equal. apply filter_ext. intros a.
        rewrite (writable_insert _ _ k) by done.
        destruct (Nat.eqb_spec a c) as [->|Hne]; simpl; [|done].
        unfold writable. rewrite Hk, Hc. done.
      * rewrite deliver_cons. unfold deliver_one, push_frame. by rewrite Hk, Hc.
    + rewrite IH. simpl. f_equal. f_equal.
      rewrite alter_alter_eq. apply alter_ext. intros r _. unfold compose.
      destruct r as [bs cl ps]. unfold set_clients, clients_delete. simpl. f_equal.
      * rewrite filter_filter. apply filter_ext. intros a.
        unfold writable. destruct (Nat.eqb_spec a c) as [->|Hne]; simpl.
        -- by rewrite Hk.
        -- done.
      * rewrite deliver_cons. unfold deliver_one. by rewrite Hk.
Qed.

Lemma broadcastToRoom_eq roomId data s room :
  rooms s !! roomId = Some room →
  broadcastToRoom roomId data s
  = Outcome (Normal tt)
      (World (alter (heal (conns s)) roomId (rooms s))
             (deliver data (clients room) (conns s)))
      [(roomId, data)].
Proof.
  intros Hr. unfold broadcastToRoom. rewrite Hr.
  unfold bind, emit. rewrite forEach_send. simpl.
  f_equal. f_equal. apply alter_ext. intros r Hr'. assert (r = room) as -> by congruence.
  unfold heal. f_equal. apply filter_ext_in. intros a Ha.
  apply existsb_eqb_In in Ha. rewrite Ha. simpl. apply orb_false_r.
Qed.

Lemma broadcastToRoom_absent roomId data s :
  rooms s !! roomId = None →
  broadcastToRoom roomId data s = Outcome (Normal tt) s [].
Proof. intros Hr. unfold broadcastToRoom. by rewrite Hr. Qed.

(** ** The room registry *)

Lemma getOrCreateRoom_eq roomId s :
  getOrCreateRoom roomId s
  = Outcome (Normal tt) (World (ensure_room roomId (rooms s)) (conns s)) [].
Proof.
  unfold getOrCreateRoom, ensure_room. destruct (rooms s !! roomId); [|done].
  by rewrite world_eta.
Qed.

Lemma ensure_room_lookup roomId m :
  ensure_room roomId m !! roomId = Some (default empty_room (m !! roomId)).
Proof.
  unfold ensure_room. destruct (m !! roomId) as [r|] eqn:Hr; simpl.
  - done.
  - apply lookup_insert_eq.
Qed.

Lemma ensure_room_lookup_ne roomId r m :
  roomId ≠ r → ensure_room roomId m !! r = m !! r.
Proof.
  intros Hne. unfold ensure_room. destruct (m !! roomId); [done|].
  by apply lookup_insert_ne.
Qed.

Lemma ensure_room_present roomId m room :
  m !! roomId = Some room → ensure_room roomId m = m.
Proof. intros H. unfold ensure_room. by rewrite H. Qed.

Lemma the_room_ensure roomId r m ks :
  the_room r (World (ensure_room roomId m) ks) = the_room r (World m ks).
Proof.
  unfold the_room. simpl. destruct (decide (roomId = r)) as [->|Hne].
  - by rewrite ensure_room_lookup.
  - by rewrite ensure_room_lookup_ne.
Qed.

Lemma dom_ensure_room roomId (m : gmap string room) :
  dom (ensure_room roomId m) = {[roomId]} ∪ dom m.
Proof.
  unfold ensure_room. destruct (m !! roomId) as [r|] eqn:Hr.
  - symmetry. apply subseteq_union_1_L, singleton_subseteq_l. by eapply elem_of_dom_2.
  - apply dom_insert_L.
Qed.

Lemma alter_absent (f : room → room) roomId (m : gmap string room) :
  m !! roomId = None → alter f roomId m = m.
Proof. intros Hm. apply alter_id. intros x Hx. rewrite Hm in Hx. discriminate. Qed.

Lemma the_room_alter f roomId r m ks :
  the_room r (World (alter f roomId m) ks) =
    if decide (roomId = r) then
      match m !! r with Some rm => f rm | None => empty_room end
    else the_room r (World m ks).
Proof.
  unfold the_room. simpl. destruct (decide (roomId = r)) as [->|Hne].
  - rewrite lookup_alter_eq. by destruct (m !! r).
  - by rewrite lookup_alter_ne.
Qed.

(** ** [broadcastToRoom]: completion, emitted event, final state *)

Lemma broadcastToRoom_res roomId data s : res (broadcastToRoom roomId data s) = Normal tt.
Proof.
  destruct (rooms s !! roomId) as [room|] eqn:Hr.
  - by rewrite (broadcastToRoom_eq _ _ _ room).
  - by rewrite broadcastToRoom_absent.
Qed.

Lemma broadcastToRoom_out roomId data s :
  out (broadcastToRoom roomId data s) =
    match rooms s !! roomId with
    | Some _ => [(roomId, data)]
    | None => []
    end.
Proof.
  destruct (rooms s !! roomId) as [room|] eqn:Hr.
  - by rewrite (broadcastToRoom_eq _ _ _ room).
  - by rewrite broadcastToRoom_absent.
Qed.

Lemma broadcastToRoom_st roomId data s :
  st (broadcastToRoom roomId data s)
  = World (alter (heal (conns s)) roomId (rooms s))
          (deliver data (clients (the_room roomId s)) (conns s)).
Proof.
  unfold the_room. destruct (rooms s !! roomId) as [room|] eqn:Hr.
  - by rewrite (broadcastToRoom_eq _ _ _ room).
  - rewrite broadcastToRoom_absent by done. simpl.
    rewrite alter_absent by done. by rewrite world_eta.
Qed.

(** ** Rules of the handler logic *)

Lemma hoare_ret {A} (P : world → Prop) (a : A) : hoare P (ret a) P.
Proof. by intros s. Qed.

Lemma hoare_lift {A} (P : world → Prop) (c : completion A) : hoare P (lift c) P.
Proof. by intros s. Qed.

Lemma hoare_read_room (P : world → Prop) roomId : hoare P (read_room roomId) P.
Proof. by intros s. Qed.

Lemma hoare_emit (P : world → Prop) roomId data : hoare P (emit roomId data) P.
Proof. by intros s. Qed.

Lemma hoare_bind {A B} (P Q R : world → Prop) (m : M A) (f : A → M B) :
  hoare P m Q → (∀ s, Q s → R s) → (∀ a, hoare Q (f a) R) → hoare P (bind m f) R.
Proof.
  intros Hm HQR Hf s HP. unfold bind. specialize (Hm s HP).
  destruct (m s) as [[a|] s1 o1]; simpl in *.
  - specialize (Hf a s1 Hm). by destruct (f a s1).
  - by apply HQR.
Qed.

Lemma stable_bind {A B} (P : world → Prop) (m : M A) (f : A → M B) :
  hoare P m P → (∀ a, hoare P (f a) P) → hoare P (bind m f) P.
Proof. intros Hm Hf. by apply (hoare_bind P P P). Qed.

Lemma hoare_try_catch {A} (P Q : world → Prop) (m h : M A) :
  hoare P m Q → hoare Q h Q → hoare P (try_catch m h) Q.
Proof.
  intros Hm Hh s HP. unfold try_catch. specialize (Hm s HP).
  destruct (m s) as [[a|] s1 o1]; simpl in *; [done|].
  specialize (Hh s1 Hm). by destruct (h s1).
Qed.

Lemma hoare_update_room (P Q : world → Prop) roomId f :
  (∀ s, P s → Q (World (alter f roomId (rooms s)) (conns s))) →
  hoare P (update_room roomId f) Q.
Proof. intros H s HP. by apply H. Qed.

Lemma hoare_getOrCreateRoom (P Q : world → Prop) roomId :
  (∀ s, P s → Q (World (ensure_room roomId (rooms s)) (conns s))) →
  hoare P (getOrCreateRoom roomId) Q.
Proof. intros H s HP. rewrite getOrCreateRoom_eq. by apply H. Qed.

Lemma hoare_broadcastToRoom (P Q : world → Prop) roomId data :
  (∀ s, P s → Q (World (alter (heal (conns s)) roomId (rooms s))
                    (deliver data (clients (the_room roomId s)) (conns s)))) →
  hoare P (broadcastToRoom roomId data) Q.
Proof. intros H s HP. rewrite broadcastToRoom_st. by apply H. Qed.

Lemma yields_ret {A} (Q : A → Prop) (a : A) : Q a → yields Q (ret a).
Proof. intros H s a' Heq. simpl in Heq. congruence. Qed.

Lemma yields_bind {A B} (Q : B → Prop) (m : M A) (f : A → M B) :
  (∀ a, yields Q (f a)) → yields Q (bind m f).
Proof.
  intros Hf s b. unfold bind. destruct (m s) as [[a|] s1 o1]; simpl; [|done].
  specialize (Hf a s1 b). by destruct (f a s1).
Qed.


(** ** The invariant holds in every reachable state *)

Ltac hoare_step :=
  first
    [ apply hoare_ret
    | apply hoare_lift
    | apply hoare_read_room
    | apply hoare_emit
    | apply stable_bind; [|intros ?]
    | apply hoare_try_catch
    | match goal with
      | |- hoare _ (if ?b then _ else _) _ => destruct b
      | |- hoare _ (match ?x with _ => _ end) _ => destruct x
      end ].

Lemma room_ok_empty : room_ok empty_room.
Proof. split; simpl; constructor. Qed.

Lemma room_ok_set_blocks bs r : room_ok r → room_ok (set_blocks bs r).
Proof. by intros [? ?]. Qed.

Lemma room_ok_clients_delete c r :
  room_ok r → room_ok (set_clients (clients_delete c (clients r)) r).
Proof. intros [? ?]. split; simpl; [|done]. by apply NoDup_List_filter. Qed.

Lemma room_ok_heal ks r : room_ok r → room_ok (heal ks r).
Proof. intros [? ?]. split; simpl; [|done]. by apply NoDup_List_filter. Qed.

Lemma room_ok_clients_add c r :
  room_ok r → room_ok (set_clients (clients_add c (clients r)) r).
Proof.
  intros [Hnd ?]. split; simpl; [|done]. unfold clients_add.
  destruct (existsb (Nat.eqb c) (clients r)) eqn:Hc; [done|].
  apply NoDup_app. split; [done|]. split; [|apply NoDup_singleton].
  intros x Hx ->%list_elem_of_singleton.
  apply list_elem_of_In, existsb_eqb_In in Hx. congruence.
Qed.

Lemma players_set_keys k p ps :
  Forall (λ e, fst e ≠ "") ps → k ≠ "" →
  Forall (λ e : string * player, fst e ≠ "") (players_set k p ps).
Proof.
  intros Hps Hk. induction Hps as [|[k' p'] ps Hk' Hps IH]; simpl.
  - by repeat constructor.
  - destruct (String.eqb k' k); constructor; done.
Qed.

Lemma room_ok_players_set k p r :
  k ≠ "" → room_ok r → room_ok (set_players (players_set k p (players r)) r).
Proof. intros Hk [? ?]. split; simpl; [done|]. by apply players_set_keys. Qed.

Lemma room_ok_players_delete k r :
  room_ok r → room_ok (set_players (players_delete k (players r)) r).
Proof.
  intros [? Hps]. split; simpl; [done|]. unfold players_delete.
  apply Forall_forall. intros e He. apply elem_of_List_filter in He as [He _].
  rewrite Forall_forall in Hps. by apply Hps.
Qed.

Lemma players_get_Some k p ps : players_get k ps = Some p → In k (map fst ps).
Proof.
  induction ps as [|[k' p'] ps IH]; simpl; [done|].
  destruct (String.eqb_spec k' k) as [->|Hne]; [auto|]. intros H. right. by apply IH.
Qed.

Lemma room_ok_move_player name x y z r :
  room_ok r → room_ok (set_players (move_player name x y z (players r)) r).
Proof.
  intros [Hnd Hps]. split; simpl; [done|]. unfold move_player.
  destruct name as [[| | |k| |]|]; try done.
  destruct (players_get k (players r)) as [p|] eqn:Hp; [|done].
  apply players_set_keys; [done|].
  apply players_get_Some, in_map_iff in Hp as (e & <- & He).
  rewrite Forall_forall in Hps. by apply Hps, list_elem_of_In.
Qed.

Lemma playerName_nonempty name : playerName name ≠ "".
Proof.
  unfold playerName. destruct name as [n|]; [|done].
  destruct (String.eqb_spec n ""); [done|done].
Qed.

Lemma invd_alter D f roomId s :
  (∀ r, room_ok r → room_ok (f r)) →
  invd D s → invd D (World (alter f roomId (rooms s)) (conns s)).
Proof.
  intros Hf [[Hrooms Hconns] HD]. unfold invd, inv. simpl.
  rewrite dom_alter_L. split; [split|]; [|done|done].
  intros r rm. rewrite lookup_alter. case_decide as Heq.
  - subst r. destruct (rooms s !! roomId) as [rm0|] eqn:Hr; simpl; [|done].
    intros [= <-]. apply Hf. by eapply Hrooms.
  - by apply Hrooms.
Qed.

Lemma invd_ensure D roomId s :
  invd D s → invd ({[roomId]} ∪ D) (World (ensure_room roomId (rooms s)) (conns s)).
Proof.
  intros [[Hrooms Hconns] HD]. unfold invd, inv. simpl.
  rewrite dom_ensure_room. split; [split|].
  - unfold ensure_room. destruct (rooms s !! roomId) eqn:Hr; [done|].
    apply map_Forall_insert_2; [apply room_ok_empty|done].
  - eapply Forall_impl; [exact Hconns|]. simpl. intros k Hk.
    apply elem_of_union. by right.
  - by apply union_mono_l.
Qed.

Lemma invd_conns D s ks :
  Forall (λ k, conn_room k ∈ dom (rooms s)) ks →
  invd D s → invd D (World (rooms s) ks).
Proof. intros Hks [[Hrooms _] HD]. by split. Qed.

Lemma Forall_deliver (Φ : connection → Prop) data cs ks :
  (∀ k, Φ k → Φ (push_frame data k)) →
  Forall Φ ks → Forall Φ (deliver data cs ks).
Proof.
  intros HΦ. revert ks. induction cs as [|c cs IH]; intros ks Hks; [done|].
  rewrite deliver_cons. apply IH. unfold deliver_one.
  destruct (ks !! c) as [k|] eqn:Hk; [|done]. destruct (closed k); [done|].
  apply Forall_insert; [done|]. apply HΦ. by eapply Forall_lookup_1.
Qed.

Lemma invd_broadcast D roomId data :
  hoare (invd D) (broadcastToRoom roomId data) (invd D).
Proof.
  apply hoare_broadcastToRoom. intros s Hs.
  apply (invd_alter D (heal (conns s)) roomId) in Hs as Hs'; [|apply room_ok_heal].
  destruct Hs' as [[Hrooms Hconns] HD]. split; [split|]; simpl in *; [done| |done].
  by apply Forall_deliver.
Qed.

Lemma invd_update_room D f roomId :
  (∀ r, room_ok r → room_ok (f r)) →
  hoare (invd D) (update_room roomId f) (invd D).
Proof. intros Hf. apply hoare_update_room. intros s. by apply invd_alter. Qed.

Lemma invd_enqueue D c data : hoare (invd D) (enqueue c data) (invd D).
Proof.
  intros s Hs. unfold enqueue. destruct (conns s !! c) as [k|] eqn:Hk; [|done].
  destruct (closed k); [done|]. simpl. apply invd_conns; [|done].
  destruct Hs as [[_ Hconns] _]. apply Forall_insert; [done|]. simpl.
  by eapply (Forall_lookup_1 _ _ _ _ Hconns).
Qed.

Lemma invd_new_controller D roomId name :
  roomId ∈ D → hoare (invd D) (new_controller roomId name) (invd D).
Proof.
  intros HD s Hs. simpl. apply invd_conns; [|done].
  destruct Hs as [[_ Hconns] Hdom]. apply Forall_app. split; [done|].
  constructor; [|done]. simpl. by apply Hdom.
Qed.

Lemma invd_GET D roomId name :
  hoare (invd D) (GET roomId name) (invd ({[roomId]} ∪ D)).
Proof.
  unfold GET. eapply hoare_bind.
  - apply hoare_getOrCreateRoom. intros s. apply invd_ensure.
  - done.
  - intros _. repeat hoare_step.
    + apply invd_update_room. intros r. apply room_ok_players_set, playerName_nonempty.
    + apply invd_broadcast.
    + apply invd_new_controller. apply elem_of_union_l. by apply elem_of_singleton.
    + apply invd_enqueue.
    + apply invd_update_room, room_ok_clients_add.
Qed.

Lemma invd_on_abort D roomId c name :
  hoare (invd D) (on_abort roomId c name) (invd D).
Proof.
  unfold on_abort. repeat hoare_step.
  - apply invd_update_room, room_ok_clients_delete.
  - apply invd_update_room, room_ok_players_delete.
  - apply invd_broadcast.
Qed.

Lemma invd_insert_conn D s c k k' :
  conns s !! c = Some k → conn_room k' = conn_room k →
  invd D s → invd D (World (rooms s) (<[c := k']> (conns s))).
Proof.
  intros Hk Hroom Hs. apply invd_conns; [|done].
  destruct Hs as [[_ Hconns] _]. apply Forall_insert; [done|].
  rewrite Hroom. by eapply (Forall_lookup_1 _ _ _ _ Hconns).
Qed.

Lemma invd_signal_abort D c : hoare (invd D) (signal_abort c) (invd D).
Proof.
  intros s Hs. unfold signal_abort. destruct (conns s !! c) as [k|] eqn:Hk; [|done].
  destruct (aborted k); [done|]. apply invd_on_abort. by eapply invd_insert_conn.
Qed.

Lemma invd_stream_close D c : hoare (invd D) (stream_close c) (invd D).
Proof.
  intros s Hs. unfold stream_close. destruct (conns s !! c) as [k|] eqn:Hk; [|done].
  simpl. by eapply invd_insert_conn.
Qed.

Lemma invd_getOrCreateRoom D roomId :
  hoare (invd D) (getOrCreateRoom roomId) (invd D).
Proof.
  apply hoare_getOrCreateRoom. intros s Hs.
  destruct (invd_ensure D roomId s Hs) as [Hinv HD]. split; [done|].
  intros x Hx. apply HD, elem_of_union. by right.
Qed.

Lemma invd_POST D roomId body : hoare (invd D) (POST roomId body) (invd D).
Proof.
  unfold POST, POST_try, POST_switch, case_add, case_remove, case_clear,
    case_update_position. cbv zeta.
  repeat hoare_step;
    first
      [ apply invd_getOrCreateRoom
      | apply invd_broadcast
      | apply invd_update_room; intros r;
        first [ apply room_ok_set_blocks | apply room_ok_move_player ] ].
Qed.

Lemma inv_invd s : inv s ↔ invd ∅ s.
Proof. unfold invd. split; [|by intros [? _]]. intros H. split; [done|]. apply empty_subseteq. Qed.

Lemma inv_init : inv init.
Proof. split; simpl; [apply map_Forall_empty|constructor]. Qed.

Lemma inv_step i s : inv s → inv (step i s).
Proof.
  rewrite !inv_invd. intros Hs. destruct i as [roomId name|roomId body|c|c]; simpl.
  - destruct (invd_GET ∅ roomId name s Hs) as [Hinv _]. by apply inv_invd.
  - by apply invd_POST.
  - by apply invd_signal_abort.
  - by apply invd_stream_close.
Qed.

Lemma reachable_inv s : reachable s → inv s.
Proof. induction 1; [apply inv_init|by apply inv_step]. Qed.

Lemma reachable_run tr s : reachable s → reachable (run tr s).
Proof.
  revert s. induction tr as [|i tr IH]; intros s Hs; [done|].
  simpl. apply IH. by constructor.
Qed.

Lemma reachable_room_ok s roomId room :
  reachable s → rooms s !! roomId = Some room → room_ok room.
Proof. intros [Hrooms _]%reachable_inv Hr. by eapply Hrooms. Qed.

(** ** Broadcast *)

(** C3. In every room of a reachable process and for every event,
    [broadcastToRoom] completes normally; every attached channel whose
    write fails (its stream is closed) is removed from the room's
    subscriber set and receives nothing; every other attached channel stays
    attached and has the event appended to its queue exactly once; blocks
    and players are untouched, no channel is added, and channels that are
    not attached to the room receive nothing. *)
Theorem broadcast_self_heals s roomId room data :
  reachable s → rooms s !! roomId = Some room →
  res (broadcastToRoom roomId data s) = Normal tt ∧
  ∃ room', rooms (st (broadcastToRoom roomId data s)) !! roomId = Some room' ∧
    blocks room' = blocks room ∧ players room' = players room ∧
    (∀ c, c ∈ clients room' → c ∈ clients room) ∧
    (∀ c, c ∉ clients room →
       conns (st (broadcastToRoom roomId data s)) !! c = conns s !! c) ∧
    ∀ c, c ∈ clients room →
      match conns s !! c with
      | Some k =>
          if closed k
          then ((c ∉ clients room') ∧
                conns (st (broadcastToRoom roomId data s)) !! c = Some k)
          else (c ∈ clients room' ∧
                conns (st (broadcastToRoom roomId data s)) !! c = Some (push_frame data k))
      | None => c ∉ clients room'
      end.
Proof.
  intros Hreach Hroom.
  destruct (reachable_room_ok s roomId room Hreach Hroom) as [Hnd _].
  rewrite (broadcastToRoom_eq roomId data s room Hroom). simpl.
  split; [done|]. exists (heal (conns s) room).
  split. { rewrite lookup_alter, Hroom. by case_decide. }
  split; [done|]. split; [done|]. split; [|split].
  - intros c Hc. simpl in Hc. by apply elem_of_List_filter in Hc as [Hc _].
  - intros c Hc. by apply deliver_not_in.
  - intros c Hc. rewrite (deliver_lookup data (clients room) (conns s) c Hnd Hc).
    simpl. unfold writable.
    destruct (conns s !! c) as [k|] eqn:Hk; [destruct (closed k) eqn:Hcl|]; simpl;
      rewrite elem_of_List_filter; unfold writable; rewrite Hk; simpl; rewrite ?Hcl.
    + split; [|done]. intros [_ ?]. discriminate.
    + done.
    + intros [_ ?]. discriminate.
Qed.

Lemma broadcast_self_heals_witness :
  reachable two_subscribers_one_closed ∧
  rooms two_subscribers_one_closed !! "r"
    = Some (the_room "r" two_subscribers_one_closed) ∧
  res (broadcastToRoom "r" EClear two_subscribers_one_closed) = Normal tt.
Proof.
  split; [apply reachable_run, reachable_init|].
  split; [vm_compute; reflexivity|].
  apply (broadcast_self_heals two_subscribers_one_closed "r"
           (the_room "r" two_subscribers_one_closed) EClear).
  - apply reachable_run, reachable_init.
  - vm_compute; reflexivity.
Defined.

(** ** The stream endpoint in closed form *)

Lemma ensure_room_insert roomId m :
  ensure_room roomId m = <[roomId := default empty_room (m !! roomId)]> m.
Proof.
  unfold ensure_room. destruct (m !! roomId) as [r|] eqn:Hr; simpl; [|done].
  symmetry. by apply insert_id.
Qed.

Lemma the_room_insert roomId x m ks : the_room roomId (World (<[roomId := x]> m) ks) = x.
Proof. unfold the_room. simpl. by rewrite lookup_insert_eq. Qed.

Lemma players_set_fresh k p ps :
  players_has k ps = false → players_set k p ps = (ps ++ [(k, p)])%list.
Proof.
  induction ps as [|[k' p'] ps IH]; simpl; [done|].
  destruct (String.eqb k' k); simpl; [done|]. intros H. by rewrite IH.
Qed.

Lemma players_has_set k p ps : players_has k (players_set k p ps) = true.
Proof.
  induction ps as [|[k' p'] ps IH]; simpl.
  - by rewrite String.eqb_refl.
  - destruct (String.eqb k' k) eqn:Hk; simpl; rewrite Hk; simpl; done.
Qed.

Lemma enqueue_fresh data m ks k :
  closed k = false →
  enqueue (length ks) data (World m (ks ++ [k]))
  = Outcome (Normal tt) (World m (ks ++ [push_frame data k])) [].
Proof.
  intros Hk. unfold enqueue. simpl.
  rewrite lookup_app_r by lia. rewrite Nat.sub_diag. simpl. rewrite Hk.
  rewrite insert_app_r_alt by lia. rewrite Nat.sub_diag. simpl.
  unfold push_frame. by rewrite Hk.
Qed.

Lemma GET_eq roomId name s :
  let n := playerName name in
  let room := the_room roomId s in
  let room1 := room_at_subscription roomId name s in
  let joined := EPlayerJoined n (length (players room1)) in
  let known := players_has n (players room) in
  let room2 := if known then room1 else heal (conns s) room1 in
  let c := length (conns s) in
  GET roomId name s
  = Outcome (Normal c)
      (World (<[roomId := set_clients (clients_add c (clients room2)) room2]> (rooms s))
             ((if known then conns s else deliver joined (clients room1) (conns s))
              ++ [Connection roomId n
                    [EInit (blocks room1) (players_values (players room1))] false false]))
      (if known then [] else [(roomId, joined)]).
Proof.
  intros n room room1 joined known room2 c.
  unfold GET. fold n. unfold bind. rewrite getOrCreateRoom_eq.
  rewrite ensure_room_insert. fold (the_room roomId s). fold room.
  unfold read_room at 1. rewrite the_room_insert.
  subst room1 room2. unfold room_at_subscription. fold n room known.
  destruct known eqn:Hknown; simpl.
  - rewrite enqueue_fresh by done. simpl.
    by rewrite the_room_insert, alter_insert_eq.
  - rewrite alter_insert_eq, the_room_insert.
    erewrite broadcastToRoom_eq by (simpl; apply lookup_insert_eq). simpl.
    rewrite enqueue_fresh by done. simpl.
    rewrite !alter_insert_eq, the_room_insert, deliver_length. simpl.
    subst joined c. unfold room_at_subscription. fold n room known.
    by rewrite Hknown.
Qed.

Lemma elem_of_clients_add c cs : c ∈ clients_add c cs.
Proof.
  unfold clients_add. destruct (existsb (Nat.eqb c) cs) eqn:Hc.
  - by apply list_elem_of_In, existsb_eqb_In.
  - apply elem_of_app. right. by apply list_elem_of_singleton.
Qed.

Lemma players_has_room_at_subscription roomId name s :
  players_has (playerName name) (players (room_at_subscription roomId name s)) = true.
Proof.
  unfold room_at_subscription.
  destruct (players_has _ (players (the_room roomId s))) eqn:Hknown; [done|].
  simpl. apply players_has_set.
Qed.

Lemma players_has_lookup k ps :
  players_has k ps = true → ∃ i p, ps !! i = Some (k, p).
Proof.
  unfold players_has. rewrite existsb_exists. intros ([k' p] & Hin & Hk).
  simpl in Hk. apply String.eqb_eq in Hk. subst k'.
  apply list_elem_of_In, list_elem_of_lookup in Hin as [i Hi]. by exists i, p.
Qed.

Lemma players_values_lookup ps i n p :
  ps !! i = Some (n, p) → players_values ps !! i = Some p.
Proof.
  intros Hi. unfold players_values.
  change (map snd ps) with (snd <$> ps). by rewrite list_lookup_fmap, Hi.
Qed.

Lemma init_frame_players bs ps :
  init_frame bs (players_values ps)
  = JObj [("type", JStr "init");
          ("blocks", JArr (written_item <$> bs));
          ("players", JArr ((λ e, player_json (snd e)) <$> ps))].
Proof.
  assert (player_json <$> players_values ps = (λ e, player_json (snd e)) <$> ps) as Hps.
  { unfold players_values. change (map snd ps) with (snd <$> ps).
    by rewrite <-list_fmap_compose. }
  unfold init_frame. by rewrite Hps.
Qed.




(** C5 (as amended). The name of a connection is the supplied name, or
    ["Anonymous"] when none (or the empty name) is supplied.  [GET]
    registers a Player at the origin under that name and broadcasts
    [player_joined] with the resulting player count exactly when that name
    is not yet a player of the room; otherwise the players are unchanged
    and nothing is broadcast. *)
Theorem GET_registers_unknown_name s roomId name :
  let n := playerName name in
  let ps := players (the_room roomId s) in
  let o := GET roomId name s in
  playerName None = "Anonymous" ∧
  playerName (Some "") = "Anonymous" ∧
  (∀ x, x ≠ "" → playerName (Some x) = x) ∧
  if players_has n ps
  then players (the_room roomId (st o)) = ps ∧ out o = []
  else players (the_room roomId (st o)) = (ps ++ [(n, origin n)])%list ∧
       out o = [(roomId, EPlayerJoined n (S (length ps)))].
Proof.
  intros n ps o. split; [done|]. split; [done|]. split.
  { intros x Hx. unfold playerName. by destruct (String.eqb_spec x ""). }
  subst o. rewrite GET_eq. simpl. rewrite the_room_insert.
  unfold room_at_subscription. fold n ps.
  destruct (players_has n ps) eqn:Hknown; simpl.
  - done.
  - rewrite players_set_fresh by done. split; [done|].
    rewrite length_app. simpl. by rewrite Nat.add_1_r.
Qed.

(** C5 fails as stated: a connection that supplies no display name, made
    while ["Alice"] is subscribed, registers the Player ["Anonymous"] at the
    origin and broadcasts [player_joined], which Alice's channel receives. *)
Lemma GET_without_name_joins_as_Anonymous :
  let s := run [In_GET "r" (Some "Alice")] init in
  let o := GET "r" None s in
  players_get "Anonymous" (players (the_room "r" s)) = None ∧
  players_get "Anonymous" (players (the_room "r" (st o))) = Some (origin "Anonymous") ∧
  out o = [("r", EPlayerJoined "Anonymous" 2)] ∧
  queue <$> conns (st o) !! 0
    = Some [EInit [] [origin "Alice"]; EPlayerJoined "Anonymous" 2].
Proof. vm_compute. done. Qed.

(** ** Disconnection *)

Lemma players_has_delete k ps : players_has k (players_delete k ps) = false.
Proof.
  apply not_true_iff_false. unfold players_has, players_delete.
  rewrite existsb_exists. intros (e & He & Heq).
  apply filter_In in He as [_ He]. by rewrite Heq in He.
Qed.

Lemma reachable_conn_room s c k :
  reachable s → conns s !! c = Some k → is_Some (rooms s !! conn_room k).
Proof.
  intros [_ Hconns]%reachable_inv Hk. apply elem_of_dom.
  by eapply (Forall_lookup_1 _ _ _ _ Hconns).
Qed.

(** C6 (as amended). When the abort signal of a live connection fires in a
    reachable process, the listener completes normally, detaches the
    connection's channel (attaching none), removes the Player stored under
    the connection's name, whichever connection registered it, leaves the
    blocks alone and broadcasts [player_left] with that name and the player
    count after the removal.  The signal is then aborted and a further
    firing changes nothing and broadcasts nothing. *)
Theorem abort_cleanup s c k :
  reachable s → conns s !! c = Some k → aborted k = false →
  ∃ room room',
    rooms s !! conn_room k = Some room ∧
    rooms (st (signal_abort c s)) !! conn_room k = Some room' ∧
    res (signal_abort c s) = Normal tt ∧
    (c ∉ clients room') ∧
    (∀ c', c' ∈ clients room' → c' ∈ clients room) ∧
    players room' = players_delete (conn_name k) (players room) ∧
    players_has (conn_name k) (players room') = false ∧
    blocks room' = blocks room ∧
    out (signal_abort c s)
      = [(conn_room k, EPlayerLeft (conn_name k) (length (players room')))] ∧
    aborted <$> conns (st (signal_abort c s)) !! c = Some true ∧
    st (signal_abort c (st (signal_abort c s))) = st (signal_abort c s) ∧
    out (signal_abort c (st (signal_abort c s))) = [].
Proof.
  intros Hreach Hk Hab.
  destruct (reachable_conn_room s c k Hreach Hk) as [room Hroom].
  set (k' := Connection (conn_room k) (conn_name k) (queue k) (closed k) true).
  set (room1 := set_players (players_delete (conn_name k) (players room))
                  (set_clients (clients_delete c (clients room)) room)).
  set (ev := EPlayerLeft (conn_name k) (length (players room1))).
  assert (signal_abort c s
          = Outcome (Normal tt)
              (World (<[conn_room k := heal (<[c := k']> (conns s)) room1]> (rooms s))
                     (deliver ev (clients room1) (<[c := k']> (conns s))))
              [(conn_room k, ev)]) as Heq.
  { unfold signal_abort. rewrite Hk, Hab. fold k'.
    rewrite <-(insert_id (rooms s) (conn_room k) room Hroom) at 1.
    unfold on_abort, bind, update_room, read_room. simpl.
    rewrite !alter_insert_eq, the_room_insert. fold room1 ev.
    erewrite broadcastToRoom_eq by (simpl; apply lookup_insert_eq). simpl.
    by rewrite alter_insert_eq. }
  assert (∃ n, deliver ev (clients room1) (<[c := k']> (conns s)) !! c
               = Some (Connection (conn_room k) (conn_name k)
                         (queue k ++ replicate n ev) (closed k) true)) as [n Hn].
  { apply (deliver_queue ev (clients room1) (<[c := k']> (conns s)) c k').
    apply list_lookup_insert_eq. by eapply lookup_lt_Some. }
  exists room, (heal (<[c := k']> (conns s)) room1). rewrite Heq.
  cbn [st res out rooms conns].
  split; [done|]. split; [apply lookup_insert_eq|]. split; [done|]. split.
  { simpl. rewrite elem_of_List_filter. intros [Hc _]. unfold clients_delete in Hc.
    apply elem_of_List_filter in Hc as [_ Hc]. by rewrite Nat.eqb_refl in Hc. }
  split.
  { intros c' Hc'. simpl in Hc'. apply elem_of_List_filter in Hc' as [Hc' _].
    unfold clients_delete in Hc'. by apply elem_of_List_filter in Hc' as [Hc' _]. }
  split; [done|]. split; [apply players_has_delete|]. split; [done|].
  split; [done|]. split; [by rewrite Hn|].
  unfold signal_abort. cbn [st res out rooms conns]. by rewrite Hn.
Qed.

Lemma abort_cleanup_witness :
  let s := run [In_GET "r" (Some "Alice"); In_GET "r" (Some "Bob")] init in
  reachable s ∧
  conns s !! 1 = Some (Connection "r" "Bob"
                         [EInit [] [origin "Alice"; origin "Bob"]] false false) ∧
  ∃ room room',
    rooms s !! "r" = Some room ∧
    rooms (st (signal_abort 1 s)) !! "r" = Some room' ∧
    players room' = players_delete "Bob" (players room).
Proof.
  split; [apply reachable_run, reachable_init|].
  split; [vm_compute; reflexivity|].
  destruct (abort_cleanup
              (run [In_GET "r" (Some "Alice"); In_GET "r" (Some "Bob")] init) 1
              (Connection "r" "Bob" [EInit [] [origin "Alice"; origin "Bob"]] false false))
    as (room & room' & H1 & H2 & _ & _ & _ & H3 & _).
  - apply reachable_run, reachable_init.
  - vm_compute; reflexivity.
  - reflexivity.
  - exists room, room'. auto.
Defined.

(** C6 fails as stated: a second connection under the name ["Alice"]
    registers no Player (the players are unchanged and nothing is
    broadcast), yet when it disconnects the Player ["Alice"] registered by
    the first connection is removed although that connection is still
    attached. *)
Lemma abort_removes_player_of_other_connection :
  let s1 := run [In_GET "r" (Some "Alice")] init in
  let s2 := st (GET "r" (Some "Alice") s1) in
  players (the_room "r" s2) = players (the_room "r" s1) ∧
  out (GET "r" (Some "Alice") s1) = [] ∧
  players (the_room "r" s1) = [("Alice", origin "Alice")] ∧
  players (the_room "r" (st (signal_abort 1 s2))) = [] ∧
  clients (the_room "r" (st (signal_abort 1 s2))) = [0] ∧
  out (signal_abort 1 s2) = [("r", EPlayerLeft "Alice" 0)].
Proof. vm_compute. done. Qed.

(** ** The submission endpoint *)

Lemma get_field data k : data ≠ JNull → get (Some data) k = Normal (field (Some data) k).
Proof. intros Hd. unfold field. by destruct data. Qed.

Lemma logged_not_null data : logged data = true → data ≠ JNull.
Proof. by destruct data. Qed.

Lemma renders_to_string v : renders v = true → to_string v = Normal tt.
Proof. unfold renders. by destruct (to_string v) as [[]|]. Qed.

Lemma logged_action data :
  logged data = true → to_string (field (Some data) "action") = Normal tt.
Proof.
  intros H. apply renders_to_string.
  destruct data; try done; simpl in H; by apply andb_prop in H as [? ?].
Qed.

Lemma logged_sender data :
  logged data = true →
  to_string (or_else (field (Some data) "sender") (Some (JStr "unknown"))) = Normal tt.
Proof.
  intros H. apply renders_to_string.
  destruct data; try done; simpl in H; by apply andb_prop in H as [? ?].
Qed.

Lemma POST_unparsed roomId s : POST roomId None s = Outcome (Normal internal_error) s [].
Proof. done. Qed.

Lemma POST_null roomId s : POST roomId (Some JNull) s = Outcome (Normal internal_error) s [].
Proof. done. Qed.

Lemma POST_logged roomId data s :
  logged data = true →
  POST roomId (Some data) s
  = try_catch
      (POST_switch roomId (Some data) (field (Some data) "action") (field (Some data) "sender"))
      (ret internal_error)
      (World (ensure_room roomId (rooms s)) (conns s)).
Proof.
  intros Hlog. pose proof (logged_not_null data Hlog) as Hnn.
  unfold POST, POST_try, try_catch, bind, lift. cbn [req_json].
  rewrite !(get_field data) by done.
  rewrite (logged_action data Hlog), (logged_sender data Hlog).
  rewrite getOrCreateRoom_eq.
  destruct (POST_switch _ _ _ _ _) as [[r|] s1 o1]; simpl; [done|].
  by rewrite app_nil_r.
Qed.

Lemma POST_not_logged roomId data s :
  logged data = false →
  POST roomId (Some data) s = Outcome (Normal internal_error) s [].
Proof.
  intros Hlog.
  assert (data = JNull ∨ data ≠ JNull) as [->|Hnn] by (destruct data; auto); [done|].
  unfold POST, POST_try, try_catch, bind, lift. cbn [req_json].
  rewrite !(get_field data) by done.
  assert (logged data = renders (field (Some data) "action")
         && renders (or_else (field (Some data) "sender") (Some (JStr "unknown")))) as Heq
    by (by destruct data).
  rewrite Heq in Hlog. unfold renders in Hlog.
  destruct (to_string (field (Some data) "action")) as [[]|]; simpl; [|done].
  destruct (to_string (or_else _ _)) as [[]|]; simpl; done.
Qed.

Lemma is_str_eq v lit : is_str v lit = true → v = Some (JStr lit).
Proof.
  unfold is_str. destruct v as [[| | |x| |]|]; simpl; try done.
  by intros ->%String.eqb_eq.
Qed.

Lemma POST_switch_add roomId data sender :
  POST_switch roomId data (Some (JStr "add")) sender = case_add roomId data sender.
Proof. done. Qed.

Lemma POST_switch_remove roomId data sender :
  POST_switch roomId data (Some (JStr "remove")) sender = case_remove roomId data sender.
Proof. done. Qed.

Lemma POST_switch_clear roomId data sender :
  POST_switch roomId data (Some (JStr "clear")) sender = case_clear roomId.
Proof. done. Qed.

Lemma POST_switch_update_position roomId data sender :
  POST_switch roomId data (Some (JStr "update_position")) sender
  = case_update_position roomId data sender.
Proof. done. Qed.

Lemma POST_switch_default roomId data action sender :
  recognised action = false → POST_switch roomId data action sender = ret invalid_action.
Proof.
  unfold recognised, POST_switch. intros H.
  apply orb_false_elim in H as [H Hu]. apply orb_false_elim in H as [H Hc].
  apply orb_false_elim in H as [Ha Hr]. by rewrite Ha, Hr, Hc, Hu.
Qed.

Lemma alter_ensure_room f roomId m :
  alter f roomId (ensure_room roomId m) = <[roomId := f (default empty_room (m !! roomId))]> m.
Proof. by rewrite ensure_room_insert, alter_insert_eq. Qed.

(** [update_position] that does not apply: no sender, no position, or a
    sender that is not a player of the room. *)
Lemma POST_update_position_noop roomId data s :
  logged data = true →
  is_str (field (Some data) "action") "update_position" = true →
  truthy (field (Some data) "sender") && truthy (field (Some data) "position")
    && players_has_value (field (Some data) "sender") (players (the_room roomId s)) = false →
  POST roomId (Some data) s
  = Outcome (Normal success) (World (ensure_room roomId (rooms s)) (conns s)) [].
Proof.
  intros Hlog Hact Hno. rewrite POST_logged by done.
  apply is_str_eq in Hact. rewrite Hact, POST_switch_update_position.
  unfold case_update_position.
  rewrite !(get_field data) by (by apply logged_not_null).
  remember (field (Some data) "sender") as sender eqn:Hsender.
  remember (field (Some data) "position") as position eqn:Hposition.
  clear Hsender Hposition Hact Hlog.
  unfold try_catch, bind, lift. simpl.
  destruct (truthy sender && truthy position) eqn:Htr; simpl; [|done].
  unfold read_room. simpl. rewrite the_room_ensure, world_eta.
  simpl in Hno. by rewrite Hno.
Qed.

(** [update_position] from a player of the room. *)
Lemma POST_update_position_known roomId data s :
  logged data = true →
  is_str (field (Some data) "action") "update_position" = true →
  truthy (field (Some data) "sender") = true →
  truthy (field (Some data) "position") = true →
  players_has_value (field (Some data) "sender") (players (the_room roomId s)) = true →
  let sender := field (Some data) "sender" in
  let position := field (Some data) "position" in
  let room := the_room roomId s in
  let room1 := set_players
                 (move_player sender (field position "x") (field position "y")
                    (field position "z") (players room)) room in
  POST roomId (Some data) s
  = Outcome (Normal success)
      (World (<[roomId := heal (conns s) room1]> (rooms s))
             (deliver (EPlayerMoved sender position) (clients room1) (conns s)))
      [(roomId, EPlayerMoved sender position)].
Proof.
  intros Hlog Hact Hs Hp Hknown. cbv zeta.
  rewrite POST_logged by done.
  apply is_str_eq in Hact. rewrite Hact, POST_switch_update_position.
  unfold case_update_position.
  rewrite !(get_field data) by (by apply logged_not_null).
  remember (field (Some data) "sender") as sender eqn:Hsender.
  remember (field (Some data) "position") as position eqn:Hposition.
  clear Hsender Hposition Hact Hlog.
  assert (∃ j, position = Some j ∧ j ≠ JNull) as (j & Hj & Hjn).
  { destruct position as [[]|]; try done; eauto. }
  unfold try_catch, bind, lift. simpl. rewrite Hs, Hp. simpl.
  unfold read_room. simpl. rewrite the_room_ensure, world_eta.
  rewrite Hknown. rewrite Hj, !(get_field j) by done. rewrite <-Hj.
  unfold update_room. simpl. rewrite alter_ensure_room. fold (the_room roomId s).
  erewrite broadcastToRoom_eq by (simpl; apply lookup_insert_eq). simpl.
  by rewrite alter_insert_eq.
Qed.

(** ** Player positions *)

Lemma players_has_get k ps : players_has k ps = true ↔ is_Some (players_get k ps).
Proof.
  induction ps as [|[k' p'] ps IH]; simpl.
  - split; [done|]. by intros [? ?].
  - destruct (String.eqb k' k); simpl; [|done]. split; [eauto|done].
Qed.

Lemma players_has_get_None k ps : players_has k ps = false ↔ players_get k ps = None.
Proof.
  rewrite <-not_true_iff_false, players_has_get, <-eq_None_not_Some. done.
Qed.

Lemma players_get_set_eq k p p' ps :
  players_get k ps = Some p → players_get k (players_set k p' ps) = Some p'.
Proof.
  induction ps as [|[k0 p0] ps IH]; simpl; [done|].
  destruct (String.eqb k0 k) eqn:Hk; simpl; rewrite Hk; [done|]. apply IH.
Qed.

Lemma players_get_set_ne k n p' ps :
  n ≠ k → players_get k ps ≠ None →
  players_get n (players_set k p' ps) = players_get n ps.
Proof.
  intros Hne. induction ps as [|[k0 p0] ps IH]; simpl; [done|].
  destruct (String.eqb_spec k0 k) as [->|Hk]; simpl.
  - intros _. by destruct (String.eqb_spec k n) as [->|].
  - intros H. destruct (String.eqb k0 n); [done|]. by apply IH.
Qed.

Lemma players_get_nonempty k p ps :
  Forall (λ e : string * player, fst e ≠ "") ps → players_get k ps = Some p → k ≠ "".
Proof.
  intros Hps Hp. apply players_get_Some, in_map_iff in Hp as (e & <- & He).
  rewrite Forall_forall in Hps. by apply Hps, list_elem_of_In.
Qed.

Lemma reachable_player_name s roomId name p :
  reachable s → players_get name (players (the_room roomId s)) = Some p → name ≠ "".
Proof.
  intros Hreach. unfold the_room.
  destruct (rooms s !! roomId) as [room|] eqn:Hroom; simpl; [|done].
  destruct (reachable_room_ok s roomId room Hreach Hroom) as [_ Hps].
  by apply players_get_nonempty.
Qed.

Lemma logged_update_position_action x y z name :
  logged (update_position_action x y z name) = true.
Proof.
  unfold logged, update_position_action, field, or_else. simpl.
  by destruct (negb (String.eqb name "")).
Qed.

(** C9 (as amended). In a reachable process, take any submission that
    gets past the log line and whose action is [update_position].  If its
    sender is a registered player name and it carries a position, it is
    acknowledged with success, the x, y, z of exactly that player are
    overwritten with those of the position (the other players and the
    blocks are unchanged) and [player_moved] is broadcast with that name and
    position.  If its sender is not a registered player name, or it carries
    no position, it is acknowledged with success, nothing is broadcast, and
    neither a channel nor the content of any room changes: the only change
    is that the registry gains the empty room when [roomId] was new. *)
Theorem update_position_semantics s roomId data :
  reachable s →
  logged data = true →
  is_str (field (Some data) "action") "update_position" = true →
  let o := POST roomId (Some data) s in
  let sender := field (Some data) "sender" in
  let position := field (Some data) "position" in
  let ps := players (the_room roomId s) in
  (∀ name p,
     sender = Some (JStr name) → players_get name ps = Some p → truthy position = true →
     let moved := Player (field position "x") (field position "y") (field position "z")
                    (p_name p) in
     res o = Normal success ∧
     out o = [(roomId, EPlayerMoved sender position)] ∧
     players (the_room roomId (st o)) = players_set name moved ps ∧
     players_get name (players (the_room roomId (st o))) = Some moved ∧
     (∀ n, n ≠ name →
        players_get n (players (the_room roomId (st o))) = players_get n ps) ∧
     blocks (the_room roomId (st o)) = blocks (the_room roomId s)) ∧
  (players_has_value sender ps = false →
     res o = Normal success ∧
     out o = [] ∧
     conns (st o) = conns s ∧
     rooms (st o) = ensure_room roomId (rooms s) ∧
     ∀ r, the_room r (st o) = the_room r s) ∧
  (truthy position = false →
     res o = Normal success ∧
     out o = [] ∧
     conns (st o) = conns s ∧
     rooms (st o) = ensure_room roomId (rooms s) ∧
     ∀ r, the_room r (st o) = the_room r s).
Proof.
  intros Hreach Hlog Hact o sender position ps. subst o. split; [|split].
  - intros name p Hsender Hp Hpos moved.
    assert (name ≠ "") as Hname by (by eapply reachable_player_name).
    assert (players_has name ps = true) as Hhas by (apply players_has_get; by rewrite Hp).
    rewrite POST_update_position_known; try done.
    2:{ fold sender. rewrite Hsender. simpl. by destruct (String.eqb_spec name ""). }
    2:{ fold sender. by rewrite Hsender. }
    fold sender position. cbn [res out st]. rewrite the_room_insert.
    rewrite Hsender. simpl. fold ps. rewrite Hp. fold moved.
    split; [done|]. split; [done|]. split; [done|].
    split; [by eapply players_get_set_eq|]. split; [|done].
    intros n Hn. apply players_get_set_ne; [done|by rewrite Hp].
  - intros Hunknown.
    rewrite POST_update_position_noop; try done.
    2:{ fold sender ps. rewrite Hunknown. apply andb_false_r. }
    simpl. split; [done|]. split; [done|]. split; [done|]. split; [done|].
    intros r. apply the_room_ensure.
  - intros Hnone.
    rewrite POST_update_position_noop; try done.
    2:{ fold sender position. rewrite Hnone. by rewrite andb_false_r. }
    simpl. split; [done|]. split; [done|]. split; [done|]. split; [done|].
    intros r. apply the_room_ensure.
Qed.

Lemma update_position_semantics_witness :
  let s := run [In_GET "r" (Some "Alice")] init in
  let data := update_position_action 2 0 3 "Alice" in
  reachable s ∧
  logged data = true ∧
  is_str (field (Some data) "action") "update_position" = true ∧
  players_get "Alice" (players (the_room "r" (st (POST "r" (Some data) s))))
  = Some (Player (Some (JNum 2)) (Some (JNum 0)) (Some (JNum 3)) "Alice").
Proof.
  split; [apply reachable_run, reachable_init|].
  split; [reflexivity|]. split; [reflexivity|].
  destruct (update_position_semantics
              (run [In_GET "r" (Some "Alice")] init) "r"
              (update_position_action 2 0 3 "Alice")) as [Hknown _].
  - apply reachable_run, reachable_init.
  - reflexivity.
  - reflexivity.
  - destruct (Hknown "Alice" (origin "Alice")) as (_ & _ & _ & Hget & _).
    + reflexivity.
    + vm_compute; reflexivity.
    + reflexivity.
    + exact Hget.
Defined.

(** C9 fails as stated.  An [update_position] whose sender is not a
    registered player changes the state when the room is new (the room is
    created) and is answered with the internal error when the sender cannot
    be printed by the log line; and one whose sender is registered but that
    carries no position moves nobody and broadcasts nothing. *)
Lemma update_position_is_not_always_silent :
  let unprintable := JObj [("toString", JNull)] in
  let data2 := JObj [("action", JStr "update_position"); ("sender", unprintable);
                     ("position", position_json 1 2 3)] in
  let s := run [In_GET "r" (Some "Alice")] init in
  let data3 := JObj [("action", JStr "update_position"); ("sender", JStr "Alice")] in
  (* an unknown sender, a new room *)
  players_has_value (Some (JStr "Zed")) (players (the_room "q" s)) = false ∧
  rooms s !! "q" = None ∧
  rooms (st (POST "q" (Some (update_position_action 1 2 3 "Zed")) s)) !! "q"
  = Some empty_room ∧
  (* an unknown sender that cannot be printed *)
  players_has_value (Some unprintable) (players (the_room "r" s)) = false ∧
  res (POST "r" (Some data2) s) = Normal internal_error ∧
  (* a registered sender, no position *)
  players_has_value (Some (JStr "Alice")) (players (the_room "r" s)) = true ∧
  res (POST "r" (Some data3) s) = Normal success ∧
  out (POST "r" (Some data3) s) = [] ∧
  players (the_room "r" (st (POST "r" (Some data3) s))) = players (the_room "r" s).
Proof. vm_compute. done. Qed.

(** ** What each handler does to the blocks of a room *)

Lemma blocks_at_getOrCreateRoom r B roomId :
  hoare (blocks_at r B) (getOrCreateRoom roomId) (blocks_at r B).
Proof.
  apply hoare_getOrCreateRoom. intros s Hs. unfold blocks_at in *.
  by rewrite the_room_ensure, world_eta.
Qed.

Lemma blocks_at_alter r B roomId f s ks :
  roomId ≠ r ∨ (∀ rm, blocks (f rm) = blocks rm) →
  blocks_at r B s → blocks_at r B (World (alter f roomId (rooms s)) ks).
Proof.
  intros Hf Hs. unfold blocks_at in *. rewrite the_room_alter.
  case_decide as Heq; [|done]. subst roomId.
  destruct Hf as [?|Hf]; [done|]. unfold the_room in Hs.
  destruct (rooms s !! r) as [rm|]; simpl in *; [|done]. by rewrite Hf.
Qed.

Lemma blocks_at_update_room r B roomId f :
  roomId ≠ r ∨ (∀ rm, blocks (f rm) = blocks rm) →
  hoare (blocks_at r B) (update_room roomId f) (blocks_at r B).
Proof. intros Hf. apply hoare_update_room. intros s. by apply blocks_at_alter. Qed.

Lemma blocks_at_broadcast r B roomId data :
  hoare (blocks_at r B) (broadcastToRoom roomId data) (blocks_at r B).
Proof.
  apply hoare_broadcastToRoom. intros s. apply blocks_at_alter. by right.
Qed.

Lemma blocks_at_enqueue r B c data : hoare (blocks_at r B) (enqueue c data) (blocks_at r B).
Proof.
  intros s Hs. unfold enqueue. destruct (conns s !! c) as [k|]; [|done].
  by destruct (closed k).
Qed.

Lemma blocks_at_new_controller r B roomId name :
  hoare (blocks_at r B) (new_controller roomId name) (blocks_at r B).
Proof. by intros s Hs. Qed.

Lemma blocks_at_GET r B roomId name : hoare (blocks_at r B) (GET roomId name) (blocks_at r B).
Proof.
  unfold GET. repeat hoare_step;
    first
      [ apply blocks_at_getOrCreateRoom
      | apply blocks_at_broadcast
      | apply blocks_at_new_controller
      | apply blocks_at_enqueue
      | apply blocks_at_update_room; by right ].
Qed.

Lemma blocks_at_signal_abort r B c : hoare (blocks_at r B) (signal_abort c) (blocks_at r B).
Proof.
  intros s Hs. unfold signal_abort. destruct (conns s !! c) as [k|]; [|done].
  destruct (aborted k); [done|].
  assert (hoare (blocks_at r B) (on_abort (conn_room k) c (conn_name k)) (blocks_at r B)) as H.
  { unfold on_abort. repeat hoare_step;
      first [ apply blocks_at_broadcast | apply blocks_at_update_room; by right ]. }
  by apply H.
Qed.

Lemma blocks_at_stream_close r B c : hoare (blocks_at r B) (stream_close c) (blocks_at r B).
Proof.
  intros s Hs. unfold stream_close. by destruct (conns s !! c) as [k|].
Qed.

(** A submission to one room leaves the blocks of every other room alone,
    whatever its body. *)
Lemma blocks_at_POST_other r B roomId body :
  roomId ≠ r → hoare (blocks_at r B) (POST roomId body) (blocks_at r B).
Proof.
  intros Hne.
  unfold POST, POST_try, POST_switch, case_add, case_remove, case_clear,
    case_update_position. cbv zeta.
  repeat hoare_step;
    first
      [ apply blocks_at_getOrCreateRoom
      | apply blocks_at_broadcast
      | apply blocks_at_update_room; by left ].
Qed.

(** ** Running a handler step by step *)

Lemma bind_lift_Normal {A B} (a : A) (f : A → M B) s : bind (lift (Normal a)) f s = f a s.
Proof. unfold bind, lift. by destruct (f a s). Qed.

Lemma bind_lift_Thrown {A B} (f : A → M B) s :
  bind (lift Thrown) f s = Outcome Thrown s [].
Proof. done. Qed.

Lemma bind_read_room {B} roomId (f : room → M B) s :
  bind (read_room roomId) f s = f (the_room roomId s) s.
Proof. unfold bind, read_room. by destruct (f _ s). Qed.

Lemma bind_update_room {B} roomId g (f : unit → M B) s :
  bind (update_room roomId g) f s = f tt (World (alter g roomId (rooms s)) (conns s)).
Proof. unfold bind, update_room. by destruct (f tt _). Qed.

Lemma broadcast_then_ret {A} roomId data (a : A) s room :
  rooms s !! roomId = Some room →
  bind (broadcastToRoom roomId data) (λ _, ret a) s
  = Outcome (Normal a)
      (World (alter (heal (conns s)) roomId (rooms s))
             (deliver data (clients room) (conns s)))
      [(roomId, data)].
Proof. intros Hr. unfold bind. by rewrite (broadcastToRoom_eq _ _ _ room). Qed.

Lemma st_try_catch_ret {A} (m : M A) (a : A) s : st (try_catch m (ret a) s) = st (m s).
Proof. unfold try_catch. by destruct (m s) as [[?|] ? ?]. Qed.

Lemma out_try_catch_ret {A} (m : M A) (a : A) s : out (try_catch m (ret a) s) = out (m s).
Proof. unfold try_catch. destruct (m s) as [[?|] ? ?]; simpl; [done|apply app_nil_r]. Qed.

Lemma res_try_catch_ret {A} (m : M A) (a : A) s :
  res (try_catch m (ret a) s) = match res (m s) with Normal x => Normal x | Thrown => Normal a end.
Proof. unfold try_catch. by destruct (m s) as [[?|] ? ?]. Qed.

Lemma the_room_ensured roomId r s :
  the_room r (World (ensure_room roomId (rooms s)) (conns s)) = the_room r s.
Proof. by rewrite the_room_ensure, world_eta. Qed.

(** ** The blocks after a submission to the room itself *)

Lemma blocks_at_set roomId s g :
  blocks (the_room roomId
            (World (alter g roomId (ensure_room roomId (rooms s))) (conns s)))
  = blocks (g (the_room roomId s)).
Proof. by rewrite alter_ensure_room, the_room_insert. Qed.

Lemma POST_add_blocks roomId data s :
  logged data = true → is_str (field (Some data) "action") "add" = true →
  blocks (the_room roomId (st (POST roomId (Some data) s)))
  = (blocks (the_room roomId s) ++ [field (Some data) "block"])%list.
Proof.
  intros Hlog Hact. rewrite POST_logged by done. rewrite st_try_catch_ret.
  apply is_str_eq in Hact. rewrite Hact, POST_switch_add. unfold case_add.
  rewrite (get_field data) by (by apply logged_not_null).
  rewrite bind_lift_Normal, bind_update_room. cbn [rooms conns].
  match goal with
  | |- blocks (the_room _ (st (?m ?s1))) = ?B =>
      assert (hoare (blocks_at roomId B) m (blocks_at roomId B)) as H
  end.
  { repeat hoare_step. apply blocks_at_broadcast. }
  apply H. unfold blocks_at. by rewrite blocks_at_set.
Qed.

Lemma POST_remove_blocks roomId data s :
  logged data = true → is_str (field (Some data) "action") "remove" = true →
  blocks (the_room roomId (st (POST roomId (Some data) s)))
  = match filter_blocks (field (Some data) "blockId") (blocks (the_room roomId s)) with
    | Normal kept => kept
    | Thrown => blocks (the_room roomId s)
    end.
Proof.
  intros Hlog Hact. rewrite POST_logged by done. rewrite st_try_catch_ret.
  apply is_str_eq in Hact. rewrite Hact, POST_switch_remove. unfold case_remove.
  rewrite (get_field data) by (by apply logged_not_null).
  rewrite bind_lift_Normal, bind_read_room, the_room_ensured.
  destruct (filter_blocks _ _) as [kept|].
  - rewrite bind_lift_Normal, bind_update_room. cbn [rooms conns].
    match goal with
    | |- blocks (the_room _ (st (?m ?s1))) = ?B =>
        assert (hoare (blocks_at roomId B) m (blocks_at roomId B)) as H
    end.
    { repeat hoare_step. apply blocks_at_broadcast. }
    apply H. unfold blocks_at. by rewrite blocks_at_set.
  - rewrite bind_lift_Thrown. cbn [st]. by rewrite the_room_ensured.
Qed.

Lemma POST_clear_blocks roomId data s :
  logged data = true → is_str (field (Some data) "action") "clear" = true →
  blocks (the_room roomId (st (POST roomId (Some data) s))) = [].
Proof.
  intros Hlog Hact. rewrite POST_logged by done. rewrite st_try_catch_ret.
  apply is_str_eq in Hact. rewrite Hact, POST_switch_clear. unfold case_clear.
  rewrite bind_update_room. cbn [rooms conns].
  match goal with
  | |- blocks (the_room _ (st (?m ?s1))) = ?B =>
      assert (hoare (blocks_at roomId B) m (blocks_at roomId B)) as H
  end.
  { repeat hoare_step. apply blocks_at_broadcast. }
  apply H. unfold blocks_at. by rewrite blocks_at_set.
Qed.

(** Every other submission leaves the blocks alone: [update_position], an
    unrecognised action, and a body that is rejected before the room is
    looked up. *)
Lemma POST_keeps_blocks roomId body s :
  match body with
  | Some data =>
      logged data = true →
      is_str (field (Some data) "action") "add" = false ∧
      is_str (field (Some data) "action") "remove" = false ∧
      is_str (field (Some data) "action") "clear" = false
  | None => True
  end →
  blocks (the_room roomId (st (POST roomId body s))) = blocks (the_room roomId s).
Proof.
  destruct body as [data|]; [|done]. intros Hact.
  destruct (logged data) eqn:Hlog; [|by rewrite POST_not_logged].
  destruct (Hact eq_refl) as (Ha & Hr & Hc).
  rewrite POST_logged by done. rewrite st_try_catch_ret.
  unfold POST_switch. rewrite Ha, Hr, Hc.
  match goal with
  | |- blocks (the_room _ (st (?m ?s1))) = ?B =>
      assert (hoare (blocks_at roomId B) m (blocks_at roomId B)) as H
  end.
  { unfold case_update_position. repeat hoare_step;
      first [ apply blocks_at_broadcast | apply blocks_at_update_room; by right ]. }
  apply H. unfold blocks_at. by rewrite the_room_ensured.
Qed.

(** ** Removing a block *)

Lemma filter_blocks_readable blockId bs :
  Forall (λ b, readable b = true) bs →
  filter_blocks blockId bs = Normal (List.filter (λ b, negb (has_id blockId b)) bs).
Proof.
  induction 1 as [|b bs Hb Hbs IH]; simpl; [done|]. rewrite IH.
  unfold has_id, field. destruct b as [[]|]; try done.
Qed.

Lemma filter_blocks_Normal blockId bs kept :
  filter_blocks blockId bs = Normal kept → Forall (λ b, readable b = true) bs.
Proof.
  revert kept. induction bs as [|b bs IH]; simpl; intros kept; [by constructor|].
  destruct (get b "id") as [id|] eqn:Hb; [|done].
  destruct (filter_blocks blockId bs) as [kept'|]; [|done].
  intros _. constructor; [|by eapply IH]. by destruct b as [[]|].
Qed.

Lemma filter_blocks_sublist blockId bs kept :
  filter_blocks blockId bs = Normal kept → sublist kept bs.
Proof.
  revert kept. induction bs as [|b bs IH]; simpl; intros kept.
  - intros [= <-]. constructor.
  - destruct (get b "id") as [id|]; [|done].
    destruct (filter_blocks blockId bs) as [kept'|]; [|done].
    intros [= <-]. destruct (negb _); [apply sublist_skip|apply sublist_cons]; by apply IH.
Qed.

Lemma Forall_List_filter {A} (Φ : A → Prop) (P : A → bool) (l : list A) :
  Forall Φ l → Forall Φ (List.filter P l).
Proof.
  intros Hl. apply Forall_forall. intros x Hx. apply elem_of_List_filter in Hx as [Hx _].
  rewrite Forall_forall in Hl. by apply Hl.
Qed.

Lemma filter_idem {A} (P : A → bool) (l : list A) :
  List.filter P (List.filter P l) = List.filter P l.
Proof. apply filter_all. intros x Hx. by apply filter_In in Hx as [_ ?]. Qed.

Lemma alter_alter_ensure f g roomId m :
  alter f roomId (alter g roomId (ensure_room roomId m))
  = <[roomId := f (g (default empty_room (m !! roomId)))]> m.
Proof. by rewrite alter_ensure_room, alter_insert_eq. Qed.

(** [remove] when the filter and the log line go through. *)
Lemma POST_remove_eq roomId data s kept :
  logged data = true →
  is_str (field (Some data) "action") "remove" = true →
  filter_blocks (field (Some data) "blockId") (blocks (the_room roomId s)) = Normal kept →
  renders (field (Some data) "blockId") = true →
  let event := ERemove (field (Some data) "blockId") (field (Some data) "sender") in
  POST roomId (Some data) s
  = Outcome (Normal success)
      (World (<[roomId := heal (conns s) (set_blocks kept (the_room roomId s))]> (rooms s))
             (deliver event (clients (the_room roomId s)) (conns s)))
      [(roomId, event)].
Proof.
  intros Hlog Hact Hkept Hrenders. cbv zeta. rewrite POST_logged by done.
  apply is_str_eq in Hact. rewrite Hact, POST_switch_remove.
  unfold try_catch, case_remove.
  rewrite (get_field data) by (by apply logged_not_null).
  rewrite bind_lift_Normal, bind_read_room, the_room_ensured, Hkept.
  rewrite bind_lift_Normal, bind_update_room. cbn [rooms conns].
  rewrite (renders_to_string _ Hrenders), bind_lift_Normal.
  erewrite broadcast_then_ret.
  2:{ cbn [rooms]. rewrite alter_ensure_room. apply lookup_insert_eq. }
  cbn [rooms conns]. rewrite alter_alter_ensure. done.
Qed.

Lemma logged_remove_action blockId sender : logged (remove_action blockId sender) = true.
Proof.
  unfold logged, remove_action, field, or_else. simpl.
  by destruct (negb (String.eqb sender "")).
Qed.

Lemma after_remove_absent blockId bs :
  Forall (λ b, has_id blockId b = false) bs → after_remove blockId bs = bs.
Proof.
  intros Habsent. unfold after_remove.
  destruct (filter_blocks blockId bs) as [kept|] eqn:Hkept; [|done].
  rewrite filter_blocks_readable in Hkept by (by eapply filter_blocks_Normal).
  injection Hkept as <-. apply filter_all. intros b Hb.
  rewrite Forall_forall in Habsent. by rewrite Habsent by (by apply list_elem_of_In).
Qed.

Lemma after_remove_idem blockId bs :
  after_remove blockId (after_remove blockId bs) = after_remove blockId bs.
Proof.
  unfold after_remove at 2 3.
  destruct (filter_blocks blockId bs) as [kept|] eqn:Hkept.
  - pose proof (filter_blocks_Normal _ _ _ Hkept) as Hread.
    rewrite filter_blocks_readable in Hkept by done. injection Hkept as <-.
    unfold after_remove.
    rewrite filter_blocks_readable by (by apply Forall_List_filter).
    apply filter_idem.
  - unfold after_remove. by rewrite Hkept.
Qed.




(** ** Rejected and malformed submissions *)

Lemma dom_stable_update_room (D : gset string) roomId f :
  hoare (λ s, dom (rooms s) = D) (update_room roomId f) (λ s, dom (rooms s) = D).
Proof. apply hoare_update_room. intros s Hs. simpl. by rewrite dom_alter_L. Qed.

Lemma dom_stable_broadcast (D : gset string) roomId data :
  hoare (λ s, dom (rooms s) = D) (broadcastToRoom roomId data) (λ s, dom (rooms s) = D).
Proof. apply hoare_broadcastToRoom. intros s Hs. simpl. by rewrite dom_alter_L. Qed.

Lemma dom_stable_switch (D : gset string) roomId data action sender :
  hoare (λ s, dom (rooms s) = D) (POST_switch roomId data action sender)
    (λ s, dom (rooms s) = D).
Proof.
  unfold POST_switch, case_add, case_remove, case_clear, case_update_position.
  repeat hoare_step; first [ apply dom_stable_update_room | apply dom_stable_broadcast ].
Qed.

(** A submission changes no room other than its own. *)
Lemma POST_other_rooms roomId body r s :
  roomId ≠ r → rooms (st (POST roomId body s)) !! r = rooms s !! r.
Proof.
  intros Hne.
  assert (hoare (λ s', rooms s' !! r = rooms s !! r) (POST roomId body)
            (λ s', rooms s' !! r = rooms s !! r)) as H.
  { unfold POST, POST_try, POST_switch, case_add, case_remove, case_clear,
      case_update_position. cbv zeta.
    repeat hoare_step;
      first
        [ apply hoare_getOrCreateRoom; intros s' Hs'; simpl;
          by rewrite ensure_room_lookup_ne
        | apply hoare_update_room; intros s' Hs'; simpl; by rewrite lookup_alter_ne
        | apply hoare_broadcastToRoom; intros s' Hs'; simpl; by rewrite lookup_alter_ne ]. }
  by apply H.
Qed.

Lemma POST_unrecognised roomId data s :
  logged data = true → recognised (field (Some data) "action") = false →
  POST roomId (Some data) s
  = Outcome (Normal invalid_action) (World (ensure_room roomId (rooms s)) (conns s)) [].
Proof.
  intros Hlog Hact. rewrite POST_logged by done. by rewrite POST_switch_default.
Qed.

Lemma yields_switch_success roomId data action sender :
  recognised action = true →
  yields (λ r, r = success) (POST_switch roomId data action sender).
Proof.
  intros Hrec. unfold POST_switch. unfold recognised in Hrec.
  destruct (is_str action "add") eqn:Ha;
    [unfold case_add; repeat (apply yields_bind; intros ?); by apply yields_ret|].
  destruct (is_str action "remove") eqn:Hr;
    [unfold case_remove; repeat (apply yields_bind; intros ?); by apply yields_ret|].
  destruct (is_str action "clear") eqn:Hc;
    [unfold case_clear; repeat (apply yields_bind; intros ?); by apply yields_ret|].
  destruct (is_str action "update_position") eqn:Hu;
    [unfold case_update_position; repeat (apply yields_bind; intros ?); by apply yields_ret|].
  done.
Qed.

(** C10 (as amended). Every submission that gets past the log line (its
    body parses to a value other than [null], and [data.action] and
    [data.sender || 'unknown'] convert to strings) leaves the registry with
    exactly the rooms it had plus the room [roomId], and touches no other
    room.  In particular one whose action tag is unrecognised is answered
    with the invalid-action error, broadcasts nothing, changes no channel
    and no existing room, and still adds the empty room [roomId] when it
    was absent, growing the registry by one. *)
Theorem POST_creates_room s roomId data :
  logged data = true →
  let o := POST roomId (Some data) s in
  dom (rooms (st o)) = {[roomId]} ∪ dom (rooms s) ∧
  (∀ r, r ≠ roomId → rooms (st o) !! r = rooms s !! r) ∧
  (recognised (field (Some data) "action") = false →
     res o = Normal invalid_action ∧
     out o = [] ∧
     conns (st o) = conns s ∧
     (∀ r room, rooms s !! r = Some room → rooms (st o) !! r = Some room) ∧
     (rooms s !! roomId = None →
        rooms (st o) = <[roomId := empty_room]> (rooms s) ∧
        size (rooms (st o)) = S (size (rooms s)))).
Proof.
  intros Hlog o. subst o. split; [|split].
  - rewrite POST_logged by done. rewrite st_try_catch_ret.
    apply (dom_stable_switch ({[roomId]} ∪ dom (rooms s))). simpl.
    apply dom_ensure_room.
  - intros r Hne. by apply POST_other_rooms.
  - intros Hact. rewrite POST_unrecognised by done. simpl.
    split; [done|]. split; [done|]. split; [done|]. split.
    + intros r room Hr. destruct (decide (roomId = r)) as [->|Hne].
      * by rewrite (ensure_room_present _ _ room).
      * by rewrite ensure_room_lookup_ne.
    + intros Hnone. unfold ensure_room. rewrite Hnone. split; [done|].
      by apply map_size_insert_None.
Qed.

Lemma POST_creates_room_witness :
  logged (JObj [("action", JStr "paint"); ("sender", JStr "Alice")]) = true ∧
  dom (rooms (st (POST "r" (Some (JObj [("action", JStr "paint"); ("sender", JStr "Alice")]))
                    init)))
  = {["r"]} ∪ dom (rooms init).
Proof.
  split; [reflexivity|].
  apply (POST_creates_room init "r" (JObj [("action", JStr "paint"); ("sender", JStr "Alice")])).
  reflexivity.
Defined.

(** C10 fails as stated: a submission whose body is [null], or does not
    parse, is answered with the internal error before the room is looked
    up, and the registry stays empty. *)
Lemma POST_null_body_creates_no_room :
  res (POST "r" (Some JNull) init) = Normal internal_error ∧
  rooms (st (POST "r" (Some JNull) init)) = ∅ ∧
  res (POST "r" None init) = Normal internal_error ∧
  rooms (st (POST "r" None init)) = ∅.
Proof. by rewrite POST_null, POST_unparsed. Qed.

(** C7 (as amended). A submission that gets past the log line is answered
    with the client error exactly when its action tag is unrecognised; the
    payload fields are not validated.  In particular an [update_position]
    without a position (or without a sender) is acknowledged with success
    and is a no-op: nothing is broadcast, no channel changes and the
    content of every room is as before. *)
Theorem POST_rejects_only_unknown_actions s roomId data :
  logged data = true →
  let o := POST roomId (Some data) s in
  (res o = Normal invalid_action ↔ recognised (field (Some data) "action") = false) ∧
  (is_str (field (Some data) "action") "update_position" = true →
   truthy (field (Some data) "sender") && truthy (field (Some data) "position") = false →
     res o = Normal success ∧
     out o = [] ∧
     conns (st o) = conns s ∧
     ∀ r, the_room r (st o) = the_room r s).
Proof.
  intros Hlog o. subst o. split; [split|].
  - intros Hres. destruct (recognised (field (Some data) "action")) eqn:Hrec; [|done].
    rewrite POST_logged in Hres by done. rewrite res_try_catch_ret in Hres.
    pose proof (yields_switch_success roomId (Some data) _
                  (field (Some data) "sender") Hrec
                  (World (ensure_room roomId (rooms s)) (conns s))) as Hy.
    destruct (res (POST_switch _ _ _ _ _)) as [r|]; [|done].
    by rewrite (Hy r eq_refl) in Hres.
  - intros Hrec. by rewrite POST_unrecognised.
  - intros Hact Hmissing. rewrite POST_update_position_noop; try done.
    2:{ by rewrite Hmissing. }
    simpl. split; [done|]. split; [done|]. split; [done|].
    intros r. apply the_room_ensure.
Qed.

Lemma POST_rejects_only_unknown_actions_witness :
  logged (JObj [("action", JStr "update_position"); ("sender", JStr "Alice")]) = true ∧
  (res (POST "r" (Some (JObj [("action", JStr "update_position"); ("sender", JStr "Alice")]))
          init) = Normal invalid_action
   ↔ recognised
       (field (Some (JObj [("action", JStr "update_position"); ("sender", JStr "Alice")]))
          "action") = false).
Proof.
  split; [reflexivity|].
  apply (POST_rejects_only_unknown_actions init "r"
           (JObj [("action", JStr "update_position"); ("sender", JStr "Alice")])).
  reflexivity.
Defined.

(** C7 fails as stated: an [update_position] without a position is
    acknowledged with success, and an [add] without a block is answered
    with the internal error after [undefined] has been pushed onto the
    room's blocks. *)
Lemma missing_fields_are_not_rejected :
  res (POST "r" (Some (JObj [("action", JStr "update_position"); ("sender", JStr "Alice")]))
         init) = Normal success ∧
  res (POST "r" (Some (JObj [("action", JStr "add"); ("sender", JStr "Alice")])) init)
    = Normal internal_error ∧
  blocks (the_room "r"
            (st (POST "r" (Some (JObj [("action", JStr "add"); ("sender", JStr "Alice")])) init)))
    = [undefined].
Proof. vm_compute. done. Qed.

(** ** Uniqueness of block ids *)

Lemma forallb_sublist {A} (P : A → bool) (l1 l2 : list A) :
  sublist l1 l2 → forallb P l2 = true → forallb P l1 = true.
Proof.
  induction 1 as [|x l1 l2 _ IH|x l1 l2 _ IH]; simpl; [done| |].
  - intros [Hx Hl]%andb_prop. by rewrite Hx, IH.
  - intros [_ Hl]%andb_prop. by apply IH.
Qed.

Lemma distinct_ids_sublist l1 l2 :
  sublist l1 l2 → distinct_ids l2 = true → distinct_ids l1 = true.
Proof.
  induction 1 as [|x l1 l2 Hsub IH|x l1 l2 Hsub IH]; simpl; [done| |].
  - intros [Hx Hl]%andb_prop. rewrite IH by done.
    by rewrite (forallb_sublist _ l1 l2).
  - intros [_ Hl]%andb_prop. by apply IH.
Qed.

Lemma distinct_ids_snoc bs b :
  distinct_ids bs = true → Forall (λ a, same_id a b = false) bs →
  distinct_ids (bs ++ [b]) = true.
Proof.
  induction bs as [|a bs IH]; simpl; [done|].
  intros [Ha Hbs]%andb_prop [Hab Hfresh]%Forall_cons.
  rewrite IH by done. rewrite forallb_app, Ha. simpl. by rewrite Hab.
Qed.

(** C4 (as amended). That no two blocks of a room have strictly equal ids
    is preserved by every step of the process (subscription,
    disconnection, stream closure and every submission, whatever its
    payload) provided that an [add] carries a block whose id is strictly
    equal to no id stored in the room; the server itself does not check
    that. *)
Theorem unique_ids_preserved i s r :
  fresh_add i s →
  distinct_ids (blocks (the_room r s)) = true →
  distinct_ids (blocks (the_room r (step i s))) = true.
Proof.
  intros Hfresh Hnd. destruct i as [roomId name|roomId body|c|c]; simpl.
  - by rewrite (blocks_at_GET r _ roomId name s eq_refl).
  - destruct (decide (roomId = r)) as [->|Hne].
    2:{ by rewrite (blocks_at_POST_other r _ roomId body Hne s eq_refl). }
    destruct body as [data|]; [|done].
    destruct (logged data) eqn:Hlog; [|by rewrite POST_not_logged].
    destruct (is_str (field (Some data) "action") "add") eqn:Hadd.
    { rewrite POST_add_blocks by done. apply distinct_ids_snoc; [done|].
      by apply (Hfresh Hlog Hadd). }
    destruct (is_str (field (Some data) "action") "remove") eqn:Hremove.
    { rewrite POST_remove_blocks by done.
      destruct (filter_blocks _ _) as [kept|] eqn:Hkept; [|done].
      eapply distinct_ids_sublist; [|exact Hnd].
      by eapply filter_blocks_sublist. }
    destruct (is_str (field (Some data) "action") "clear") eqn:Hclear.
    { by rewrite POST_clear_blocks. }
    rewrite POST_keeps_blocks; [done|]. by rewrite Hadd, Hremove, Hclear.
  - by rewrite (blocks_at_signal_abort r _ c s eq_refl).
  - by rewrite (blocks_at_stream_close r _ c s eq_refl).
Qed.

Lemma unique_ids_preserved_witness :
  let b1 := Block 0 0 0 None (Some "red") "b1" in
  let b2 := Block 1 0 0 None (Some "red") "b2" in
  let s := run [In_POST "r" (Some (add_action b1 "Alice"))] init in
  fresh_add (In_POST "r" (Some (add_action b2 "Alice"))) s ∧
  distinct_ids (blocks (the_room "r" s)) = true ∧
  distinct_ids (blocks (the_room "r" (step (In_POST "r" (Some (add_action b2 "Alice"))) s)))
  = true.
Proof.
  intros b1 b2 s.
  assert (fresh_add (In_POST "r" (Some (add_action b2 "Alice"))) s) as Hfresh.
  { intros _ _. vm_compute. repeat constructor. }
  assert (distinct_ids (blocks (the_room "r" s)) = true) as Hnd by (vm_compute; reflexivity).
  split; [exact Hfresh|]. split; [exact Hnd|].
  exact (unique_ids_preserved (In_POST "r" (Some (add_action b2 "Alice"))) s "r" Hfresh Hnd).
Defined.

(** C4 fails as stated: two [add] submissions carrying the same id leave
    two blocks with that id in the room, whether the id is a string, as the
    client sends it, or a number. *)
Lemma duplicate_ids_are_reachable :
  let s := run [In_POST "r" (Some (add_action (Block 0 0 0 None (Some "red") "b1") "Alice"));
                In_POST "r" (Some (add_action (Block 1 0 0 None (Some "blue") "b1") "Bob"))]
             init in
  let five x := JObj [("action", JStr "add");
                      ("block", JObj [("x", JNum x); ("y", JNum 0); ("z", JNum 0);
                                      ("id", JNum 5)])] in
  let s5 := run [In_POST "r" (Some (five 0%Z)); In_POST "r" (Some (five 1%Z))] init in
  reachable s ∧
  block_ids (blocks (the_room "r" s)) = ["b1"; "b1"] ∧
  distinct_ids (blocks (the_room "r" s)) = false ∧
  reachable s5 ∧
  length (blocks (the_room "r" s5)) = 2 ∧
  distinct_ids (blocks (the_room "r" s5)) = false.
Proof.
  intros s five s5. split; [apply reachable_run, reachable_init|].
  split; [vm_compute; reflexivity|]. split; [vm_compute; reflexivity|].
  split; [apply reachable_run, reachable_init|].
  split; vm_compute; reflexivity.
Qed.

(** ** Sequences of add and remove *)

Lemma block_json_id b : field (Some (block_json b)) "id" = Some (JStr (b_id b)).
Proof. by destruct b as [x y z [t|] [c|] i]. Qed.

Lemma typed_block_ids (bs : list block) :
  block_ids ((λ b, Some (block_json b)) <$> bs) = b_id <$> bs.
Proof.
  induction bs as [|b bs IH]; [done|]. cbn [fmap list_fmap block_ids omap list_omap].
  unfold block_id at 1. rewrite block_json_id. f_equal. exact IH.
Qed.

Lemma typed_blocks_readable (bs : list block) :
  Forall (λ b, readable b = true) ((λ b, Some (block_json b)) <$> bs).
Proof. apply Forall_fmap, Forall_forall. by intros b _. Qed.

Lemma typed_blocks_filter blockId (bs : list block) :
  List.filter (λ b, negb (has_id (Some (JStr blockId)) b)) ((λ b, Some (block_json b)) <$> bs)
  = (λ b, Some (block_json b)) <$> List.filter (λ b, negb (String.eqb (b_id b) blockId)) bs.
Proof.
  induction bs as [|b bs IH]; [done|]. cbn [fmap list_fmap List.filter].
  unfold has_id at 1. rewrite block_json_id. cbn [strict_eq].
  destruct (String.eqb (b_id b) blockId); simpl; by rewrite IH.
Qed.

Lemma logged_add_action b sender : logged (add_action b sender) = true.
Proof.
  unfold logged, add_action, field, or_else. simpl.
  by destruct (negb (String.eqb sender "")).
Qed.

Lemma ids_filter_remove blockId (bs : list block) :
  list_to_set (b_id <$> List.filter (λ b, negb (String.eqb (b_id b) blockId)) bs)
  =@{gset string} list_to_set (b_id <$> bs) ∖ {[blockId]}.
Proof.
  apply set_eq. intros x.
  rewrite elem_of_difference, !elem_of_list_to_set, !list_elem_of_fmap, elem_of_singleton.
  split.
  - intros (b & -> & Hb). apply elem_of_List_filter in Hb as [Hb Hne].
    split; [by exists b|]. intros Heq. rewrite Heq, String.eqb_refl in Hne. done.
  - intros [(b & -> & Hb) Hne]. exists b. split; [done|].
    apply elem_of_List_filter. split; [done|].
    by destruct (String.eqb_spec (b_id b) blockId).
Qed.

(** One submission of the sequence, on a room holding well-formed
    blocks. *)
Lemma submit_step r a s (bs : list block) :
  elsewhere r a →
  blocks (the_room r s) = (λ b, Some (block_json b)) <$> bs →
  ∃ bs' : list block,
    blocks (the_room r (step (submit r a) s)) = (λ b, Some (block_json b)) <$> bs' ∧
    list_to_set (b_id <$> bs') =@{gset string} live_step (list_to_set (b_id <$> bs)) a.
Proof.
  intros Hok Hbs. destruct a as [b sender|blockId sender|x y z sender|roomId body]; simpl.
  - exists (bs ++ [b])%list. split.
    + rewrite POST_add_blocks; [|apply logged_add_action|done].
      rewrite Hbs, fmap_app. done.
    + rewrite fmap_app, list_to_set_app_L. simpl. by rewrite union_empty_r_L.
  - exists (List.filter (λ b, negb (String.eqb (b_id b) blockId)) bs). split.
    + rewrite POST_remove_blocks; [|apply logged_remove_action|done].
      rewrite Hbs. change (field (Some (remove_action blockId sender)) "blockId")
        with (Some (JStr blockId)).
      rewrite filter_blocks_readable by apply typed_blocks_readable.
      apply typed_blocks_filter.
    + apply ids_filter_remove.
  - exists bs. split; [|done].
    rewrite POST_keeps_blocks; [done|]. intros _. done.
  - exists bs. split; [|done].
    simpl in Hok. by rewrite (blocks_at_POST_other r _ roomId body Hok s eq_refl).
Qed.

Lemma submit_run r l : ∀ s (bs : list block),
  Forall (elsewhere r) l →
  blocks (the_room r s) = (λ b, Some (block_json b)) <$> bs →
  room_ids r (run (submit r <$> l) s) = foldl live_step (list_to_set (b_id <$> bs)) l.
Proof.
  induction l as [|a l IH]; intros s bs Hok Hbs.
  - simpl. unfold room_ids. by rewrite Hbs, typed_block_ids.
  - apply Forall_cons in Hok as [Ha Hl].
    destruct (submit_step r a s bs Ha Hbs) as (bs' & Hbs' & Hids).
    cbn [fmap list_fmap run foldl]. fold (run (submit r <$> l) (step (submit r a) s)).
    rewrite (IH _ bs' Hl Hbs'). by rewrite Hids.
Qed.

Lemma live_step_edits S l : foldl live_step S (List.filter is_edit l) = foldl live_step S l.
Proof.
  revert S. induction l as [|a l IH]; intros S; [done|].
  destruct a; simpl; by rewrite IH.
Qed.

Lemma elsewhere_edits r l : Forall (elsewhere r) (List.filter is_edit l).
Proof.
  apply Forall_forall. intros a Ha. apply elem_of_List_filter in Ha as [_ Ha].
  by destruct a.
Qed.

Lemma ids_added_snoc l a :
  ids_added (l ++ [a]) = ids_added l ∪ match added_id a with Some i => {[i]} | None => ∅ end.
Proof.
  unfold ids_added. rewrite omap_app, list_to_set_app_L. f_equal. simpl.
  destruct (added_id a); simpl; [by rewrite union_empty_r_L|done].
Qed.

Lemma ids_removed_snoc l a :
  ids_removed (l ++ [a])
  = ids_removed l ∪ match removed_id a with Some i => {[i]} | None => ∅ end.
Proof.
  unfold ids_removed. rewrite omap_app, list_to_set_app_L. f_equal. simpl.
  destruct (removed_id a); simpl; [by rewrite union_empty_r_L|done].
Qed.

Lemma no_add_after_remove_prefix l a : no_add_after_remove (l ++ [a]) → no_add_after_remove l.
Proof.
  intros H i j blockId sender b sender' Hij Hi Hj.
  apply (H i j blockId sender b sender' Hij); by apply lookup_app_l_Some.
Qed.

Lemma no_add_after_remove_last l b sender :
  no_add_after_remove (l ++ [Sub_add b sender]) → b_id b ∉ ids_removed l.
Proof.
  intros H Hin. unfold ids_removed in Hin.
  apply elem_of_list_to_set, list_elem_of_omap in Hin as (a & Ha & Hid).
  destruct a as [|blockId sender'| |]; try done. injection Hid as ->.
  apply list_elem_of_lookup in Ha as [i Hi].
  apply (H i (length l) (b_id b) sender' b sender).
  - by eapply lookup_lt_Some.
  - by apply lookup_app_l_Some.
  - rewrite lookup_app_r by lia. by rewrite Nat.sub_diag.
  - done.
Qed.

Lemma live_ids_difference l :
  no_add_after_remove l → live_ids l = ids_added l ∖ ids_removed l.
Proof.
  induction l as [|a l IH] using rev_ind; intros Hl.
  - unfold live_ids, ids_added, ids_removed. simpl. by rewrite difference_diag_L.
  - unfold live_ids in *. rewrite foldl_snoc, ids_added_snoc, ids_removed_snoc.
    rewrite IH by (by eapply no_add_after_remove_prefix).
    destruct a as [b sender|blockId sender|x y z sender|roomId body]; simpl.
    + apply no_add_after_remove_last in Hl.
      rewrite union_empty_r_L. apply set_eq. intros x.
      rewrite !elem_of_difference, !elem_of_union, !elem_of_difference, elem_of_singleton.
      split; [|tauto]. intros [?| ->]; tauto.
    + rewrite union_empty_r_L. apply set_eq. intros x.
      rewrite !elem_of_difference, !elem_of_union, elem_of_singleton. tauto.
    + by rewrite !union_empty_r_L.
    + by rewrite !union_empty_r_L.
Qed.

(** C1 (as amended). For every sequence of well-formed [add], [remove]
    and [update_position] submissions to a room that starts without
    blocks, interleaved with arbitrary submissions to other rooms, the set
    of block ids of the room afterwards is the set obtained by inserting on
    [add] and deleting on [remove] in order; the interleaved submissions
    do not matter, since the add/remove subsequence alone gives the same
    set; and when no id is added again after it has been removed, this is
    the set of ids added minus the set of ids removed. *)
Theorem block_ids_after_submissions r s l :
  Forall (elsewhere r) l →
  blocks (the_room r s) = [] →
  room_ids r (run (submit r <$> l) s) = live_ids l ∧
  room_ids r (run (submit r <$> List.filter is_edit l) s)
    = room_ids r (run (submit r <$> l) s) ∧
  (no_add_after_remove l →
     room_ids r (run (submit r <$> l) s) = ids_added l ∖ ids_removed l).
Proof.
  intros Hok Hempty.
  assert (room_ids r (run (submit r <$> l) s) = live_ids l) as Hl.
  { by rewrite (submit_run r l s []). }
  split; [exact Hl|]. split.
  - rewrite Hl, (submit_run r _ s []); [|apply elsewhere_edits|done].
    apply live_step_edits.
  - intros Hno. rewrite Hl. by apply live_ids_difference.
Qed.

Lemma block_ids_after_submissions_witness :
  let b1 := Block 0 0 0 None (Some "red") "b1" in
  let b2 := Block 1 0 0 None (Some "red") "b2" in
  let l := [Sub_add b1 "Alice"; Sub_elsewhere "q" (Some (clear_action "Bob"));
            Sub_update_position 2 0 3 "Alice"; Sub_add b2 "Alice"; Sub_remove "b1" "Bob"] in
  Forall (elsewhere "r") l ∧
  blocks (the_room "r" init) = [] ∧
  room_ids "r" (run (submit "r" <$> l) init) = live_ids l.
Proof.
  intros b1 b2 l.
  assert (Forall (elsewhere "r") l) as Hok.
  { repeat constructor. discriminate. }
  split; [exact Hok|]. split; [reflexivity|].
  destruct (block_ids_after_submissions "r" init l Hok eq_refl) as [Hlive _].
  exact Hlive.
Defined.

(** C1 fails as stated: after add b1, remove b1, add b1 the room holds a
    block with id b1, while the set of ids added minus the set of ids
    removed is empty. *)
Lemma readded_id_is_not_added_minus_removed :
  let b1 := Block 0 0 0 None (Some "red") "b1" in
  let l := [Sub_add b1 "Alice"; Sub_remove "b1" "Alice"; Sub_add b1 "Alice"] in
  block_ids (blocks (the_room "r" (run (submit "r" <$> l) init))) = ["b1"] ∧
  room_ids "r" (run (submit "r" <$> l) init) ≠ ids_added l ∖ ids_removed l.
Proof.
  intros b1 l.
  assert (block_ids (blocks (the_room "r" (run (submit "r" <$> l) init))) = ["b1"]) as Hids
    by (vm_compute; reflexivity).
  split; [exact Hids|]. unfold room_ids. rewrite Hids. intros Heq.
  assert ("b1" ∈ ids_added l ∖ ids_removed l) as Hin.
  { rewrite <-Heq. apply elem_of_list_to_set. by apply list_elem_of_singleton. }
  apply elem_of_difference in Hin as [_ Hnot]. apply Hnot.
  unfold ids_removed. apply elem_of_list_to_set. simpl. by apply list_elem_of_singleton.
Qed.

(** ** Scenarios *)

(** Two sequential adds with distinct ids both appear in the snapshot of a
    later subscriber. *)
Example scenario_two_adds :
  let s := run [In_POST "r" (Some (add_action (Block 0 0 0 None (Some "red") "b1") "Alice"));
                In_POST "r" (Some (add_action (Block 1 0 0 None (Some "red") "b2") "Alice"))]
             init in
  queue <$> conns (st (GET "r" (Some "Carol") s)) !! 0
  = Some [EInit [Some (block_json (Block 0 0 0 None (Some "red") "b1"));
                 Some (block_json (Block 1 0 0 None (Some "red") "b2"))]
                [origin "Carol"]].
Proof. vm_compute. reflexivity. Qed.

(** Alice subscribes, then Bob: Alice's channel receives [player_joined]
    for Bob, and Bob's snapshot lists both players. *)
Example scenario_alice_then_bob :
  let s := run [In_GET "r" (Some "Alice"); In_GET "r" (Some "Bob")] init in
  queue <$> conns s !! 0 = Some [EInit [] [origin "Alice"]; EPlayerJoined "Bob" 2] ∧
  queue <$> conns s !! 1 = Some [EInit [] [origin "Alice"; origin "Bob"]].
Proof. vm_compute. done. Qed.

(** [clear] after three adds empties the room and reaches every
    subscriber, including one that joined after the third add. *)
Example scenario_clear :
  let add i := In_POST "r" (Some (add_action (Block i 0 0 None (Some "red") "b") "Alice")) in
  let s := run [In_GET "r" (Some "Alice"); add 0%Z; add 1%Z; add 2%Z;
                In_GET "r" (Some "Bob"); In_POST "r" (Some (clear_action "Alice"))] init in
  blocks (the_room "r" s) = [] ∧
  (last ∘ queue) <$> conns s !! 0 = Some (Some EClear) ∧
  (last ∘ queue) <$> conns s !! 1 = Some (Some EClear).
Proof. vm_compute. done. Qed.

(** [update_position] from Alice is delivered to every subscriber, Alice
    included. *)
Example scenario_update_position :
  let s := run [In_GET "r" (Some "Alice"); In_GET "r" (Some "Bob");
                In_POST "r" (Some (update_position_action 2 0 3 "Alice"))] init in
  let moved := EPlayerMoved (Some (JStr "Alice")) (Some (position_json 2 0 3)) in
  (last ∘ queue) <$> conns s !! 0 = Some (Some moved) ∧
  (last ∘ queue) <$> conns s !! 1 = Some (Some moved).
Proof. vm_compute. done. Qed.

(** A malformed [add] leaves [undefined] among the blocks; every later
    [remove] in that room then throws inside the filter and is answered
    with the internal error, without a broadcast. *)
Example scenario_unreadable_block :
  let s := run [In_POST "r" (Some (JObj [("action", JStr "add"); ("sender", JStr "Alice")]))]
             init in
  blocks (the_room "r" s) = [undefined] ∧
  res (POST "r" (Some (remove_action "b9" "Bob")) s) = Normal internal_error ∧
  out (POST "r" (Some (remove_action "b9" "Bob")) s) = [].
Proof. vm_compute. done. Qed.

(** * Further properties of the route *)

(** ** [add], [clear] and [remove] on every payload *)

Lemma bind_lift {A B} (c : completion A) (f : A → M B) s :
  bind (lift c) f s = match c with Normal a => f a s | Thrown => Outcome Thrown s [] end.
Proof. destruct c; [apply bind_lift_Normal|apply bind_lift_Thrown]. Qed.

Lemma get_readable v k : readable v = true → get v k = Normal (field v k).
Proof. unfold field. by destruct v as [[]|]. Qed.

Lemma get_unreadable v k : readable v = false → get v k = Thrown.
Proof. by destruct v as [[]|]. Qed.

Lemma renders_false v : renders v = false → to_string v = Thrown.
Proof. unfold renders. by destruct (to_string v). Qed.

Lemma ensured_room roomId g s :
  alter g roomId (ensure_room roomId (rooms s)) !! roomId = Some (g (the_room roomId s)).
Proof. rewrite alter_ensure_room. apply lookup_insert_eq. Qed.

(** X1. Every [add] pushes [data.block], whatever it is; it is acknowledged
    and broadcast exactly when the block can be read and its coordinates
    printed, and is otherwise answered with the internal error, after the
    push, without a broadcast. *)
Theorem POST_add_semantics s roomId data :
  logged data = true →
  is_str (field (Some data) "action") "add" = true →
  let block := field (Some data) "block" in
  let o := POST roomId (Some data) s in
  blocks (the_room roomId (st o)) = (blocks (the_room roomId s) ++ [block])%list ∧
  players (the_room roomId (st o)) = players (the_room roomId s) ∧
  if printable_block block
  then res o = Normal success ∧
       out o = [(roomId, EAdd block (field (Some data) "sender"))]
  else res o = Normal internal_error ∧ out o = [] ∧ conns (st o) = conns s.
Proof.
  intros Hlog Hact block o. subst o. rewrite POST_logged by done.
  apply is_str_eq in Hact. rewrite Hact, POST_switch_add. unfold case_add, try_catch.
  rewrite (get_field data) by (by apply logged_not_null). fold block.
  rewrite bind_lift_Normal, bind_update_room. cbn [rooms conns].
  unfold printable_block.
  destruct (readable block) eqn:Hread; cbn [andb].
  2:{ rewrite (get_unreadable block) by done. rewrite bind_lift_Thrown.
      cbn [res st out ret]. by rewrite alter_ensure_room, the_room_insert. }
  rewrite !(get_readable block) by done. rewrite bind_lift_Normal.
  destruct (renders (field block "x")) eqn:Hx; cbn [andb].
  2:{ rewrite (renders_false _ Hx), bind_lift_Thrown.
      cbn [res st out ret]. by rewrite alter_ensure_room, the_room_insert. }
  rewrite (renders_to_string _ Hx), !bind_lift_Normal.
  destruct (renders (field block "y")) eqn:Hy; cbn [andb].
  2:{ rewrite (renders_false _ Hy), bind_lift_Thrown.
      cbn [res st out ret]. by rewrite alter_ensure_room, the_room_insert. }
  rewrite (renders_to_string _ Hy), !bind_lift_Normal.
  destruct (renders (field block "z")) eqn:Hz.
  2:{ rewrite (renders_false _ Hz), bind_lift_Thrown.
      cbn [res st out ret]. by rewrite alter_ensure_room, the_room_insert. }
  rewrite (renders_to_string _ Hz), !bind_lift_Normal.
  erewrite broadcast_then_ret by (cbn [rooms]; apply ensured_room).
  cbn [res st out rooms conns]. by rewrite alter_alter_ensure, the_room_insert.
Qed.

Lemma POST_add_semantics_witness :
  let data := add_action (Block 0 0 0 None (Some "red") "b1") "Alice" in
  logged data = true ∧
  is_str (field (Some data) "action") "add" = true ∧
  blocks (the_room "r" (st (POST "r" (Some data) init)))
    = (blocks (the_room "r" init) ++ [field (Some data) "block"])%list.
Proof.
  split; [reflexivity|]. split; [reflexivity|].
  destruct (POST_add_semantics init "r"
              (add_action (Block 0 0 0 None (Some "red") "b1") "Alice"))
    as [Hblocks _]; [reflexivity|reflexivity|exact Hblocks].
Defined.

(** X2. [clear] empties the room and nothing else: it is acknowledged, [clear]
    is broadcast, the players stay, and the blocks are gone whatever they
    were (unreadable ones included). *)
Theorem POST_clear_semantics s roomId data :
  logged data = true →
  is_str (field (Some data) "action") "clear" = true →
  let o := POST roomId (Some data) s in
  res o = Normal success ∧
  out o = [(roomId, EClear)] ∧
  blocks (the_room roomId (st o)) = [] ∧
  players (the_room roomId (st o)) = players (the_room roomId s) ∧
  (∀ c, c ∈ clients (the_room roomId (st o)) → c ∈ clients (the_room roomId s)).
Proof.
  intros Hlog Hact o. subst o. rewrite POST_logged by done.
  apply is_str_eq in Hact. rewrite Hact, POST_switch_clear. unfold case_clear, try_catch.
  rewrite bind_update_room. cbn [rooms conns].
  erewrite broadcast_then_ret by (cbn [rooms]; apply ensured_room).
  cbn [res st out rooms conns]. rewrite alter_alter_ensure, the_room_insert.
  split; [done|]. split; [done|]. split; [done|]. split; [done|].
  intros c Hc. simpl in Hc. by apply elem_of_List_filter in Hc as [Hc _].
Qed.

Lemma POST_clear_semantics_witness :
  logged (clear_action "Alice") = true ∧
  is_str (field (Some (clear_action "Alice")) "action") "clear" = true ∧
  blocks (the_room "r" (st (POST "r" (Some (clear_action "Alice")) init))) = [].
Proof.
  split; [reflexivity|]. split; [reflexivity|].
  destruct (POST_clear_semantics init "r" (clear_action "Alice"))
    as (_ & _ & Hblocks & _); [reflexivity|reflexivity|exact Hblocks].
Defined.

Lemma filter_blocks_unreadable blockId bs :
  Exists (λ b, readable b = false) bs → filter_blocks blockId bs = Thrown.
Proof.
  induction 1 as [b bs Hb|b bs _ IH]; simpl.
  - by rewrite get_unreadable.
  - destruct (get b "id"); [|done]. by rewrite IH.
Qed.

(** X3. [remove] in a room whose blocks can all be read deletes every stored
    block with the given id (all copies, when an id was added twice) and
    keeps the others in their order; it is acknowledged and broadcast when
    the id can be printed by the log line. *)
Theorem POST_remove_semantics s roomId data :
  logged data = true →
  is_str (field (Some data) "action") "remove" = true →
  Forall (λ b, readable b = true) (blocks (the_room roomId s)) →
  let blockId := field (Some data) "blockId" in
  let bs := blocks (the_room roomId s) in
  let o := POST roomId (Some data) s in
  blocks (the_room roomId (st o)) = List.filter (λ b, negb (has_id blockId b)) bs ∧
  Forall (λ b, has_id blockId b = false) (blocks (the_room roomId (st o))) ∧
  (∀ b, b ∈ bs → has_id blockId b = false → b ∈ blocks (the_room roomId (st o))) ∧
  sublist (blocks (the_room roomId (st o))) bs ∧
  (renders blockId = true →
     res o = Normal success ∧
     out o = [(roomId, ERemove blockId (field (Some data) "sender"))] ∧
     players (the_room roomId (st o)) = players (the_room roomId s)).
Proof.
  intros Hlog Hact Hread blockId bs o.
  assert (blocks (the_room roomId (st o)) = List.filter (λ b, negb (has_id blockId b)) bs)
    as Hbs.
  { subst o. rewrite POST_remove_blocks by done. fold blockId bs.
    by rewrite filter_blocks_readable. }
  split; [exact Hbs|]. rewrite Hbs. split; [|split; [|split]].
  - apply Forall_forall. intros b Hb. apply elem_of_List_filter in Hb as [_ Hb].
    by apply negb_true_iff.
  - intros b Hb Hid. apply elem_of_List_filter. by rewrite Hid.
  - rewrite <-Hbs. subst o. rewrite POST_remove_blocks by done. fold blockId bs.
    rewrite filter_blocks_readable by done.
    eapply filter_blocks_sublist. by apply filter_blocks_readable.
  - intros Hprint. subst o. erewrite POST_remove_eq; try done.
    2:{ by apply filter_blocks_readable. }
    cbn [res out st]. by rewrite the_room_insert.
Qed.

Lemma POST_remove_semantics_witness :
  let b1 := Block 0 0 0 None (Some "red") "b1" in
  let s := run [In_POST "r" (Some (add_action b1 "Alice"));
                In_POST "r" (Some (add_action b1 "Bob"))] init in
  let data := remove_action "b1" "Carol" in
  logged data = true ∧
  is_str (field (Some data) "action") "remove" = true ∧
  Forall (λ b, readable b = true) (blocks (the_room "r" s)) ∧
  blocks (the_room "r" (st (POST "r" (Some data) s))) = [].
Proof.
  intros b1 s data.
  assert (Forall (λ b, readable b = true) (blocks (the_room "r" s))) as Hread.
  { vm_compute. repeat constructor. }
  split; [reflexivity|]. split; [reflexivity|]. split; [exact Hread|].
  destruct (POST_remove_semantics s "r" data eq_refl eq_refl Hread) as [Hblocks _].
  rewrite Hblocks. vm_compute. reflexivity.
Defined.

(** X4. A room holding a block that cannot be read rejects every [remove]:
    the filter throws on that block, the answer is the internal error,
    nothing is broadcast and nothing changes. *)
Theorem POST_remove_unreadable s roomId data :
  logged data = true →
  is_str (field (Some data) "action") "remove" = true →
  Exists (λ b, readable b = false) (blocks (the_room roomId s)) →
  let o := POST roomId (Some data) s in
  res o = Normal internal_error ∧
  out o = [] ∧
  conns (st o) = conns s ∧
  blocks (the_room roomId (st o)) = blocks (the_room roomId s) ∧
  ∀ r, the_room r (st o) = the_room r s.
Proof.
  intros Hlog Hact Hbad o. subst o. rewrite POST_logged by done.
  apply is_str_eq in Hact. rewrite Hact, POST_switch_remove. unfold case_remove, try_catch.
  rewrite (get_field data) by (by apply logged_not_null).
  rewrite bind_lift_Normal, bind_read_room, the_room_ensured.
  rewrite (filter_blocks_unreadable _ _ Hbad), bind_lift_Thrown.
  cbn [res st out ret]. rewrite the_room_ensured.
  split; [done|]. split; [done|]. split; [done|]. split; [done|].
  intros r. apply the_room_ensure.
Qed.

Lemma POST_remove_unreadable_witness :
  let s := run [In_POST "r" (Some (JObj [("action", JStr "add"); ("block", JNull)]))] init in
  let data := remove_action "b1" "Carol" in
  logged data = true ∧
  is_str (field (Some data) "action") "remove" = true ∧
  Exists (λ b, readable b = false) (blocks (the_room "r" s)) ∧
  res (POST "r" (Some data) s) = Normal internal_error.
Proof.
  intros s data.
  assert (Exists (λ b, readable b = false) (blocks (the_room "r" s))) as Hbad.
  { vm_compute. by constructor. }
  split; [reflexivity|]. split; [reflexivity|]. split; [exact Hbad|].
  destruct (POST_remove_unreadable s "r" data eq_refl eq_refl Hbad) as [Hres _].
  exact Hres.
Defined.

(** X5. Adding a well-formed block under an id no stored block has and then
    removing that id gives back the blocks the room had. *)
Theorem add_then_remove_restores s roomId b sender sender' :
  Forall (λ v, readable v = true) (blocks (the_room roomId s)) →
  Forall (λ v, has_id (Some (JStr (b_id b))) v = false) (blocks (the_room roomId s)) →
  let s1 := st (POST roomId (Some (add_action b sender)) s) in
  let s2 := st (POST roomId (Some (remove_action (b_id b) sender')) s1) in
  blocks (the_room roomId s1) = (blocks (the_room roomId s) ++ [Some (block_json b)])%list ∧
  blocks (the_room roomId s2) = blocks (the_room roomId s).
Proof.
  intros Hread Hfresh s1 s2.
  assert (blocks (the_room roomId s1)
          = (blocks (the_room roomId s) ++ [Some (block_json b)])%list) as H1.
  { subst s1. rewrite POST_add_blocks; [done|apply logged_add_action|done]. }
  split; [exact H1|]. subst s2.
  rewrite POST_remove_blocks; [|apply logged_remove_action|done].
  change (field (Some (remove_action (b_id b) sender')) "blockId") with (Some (JStr (b_id b))).
  rewrite H1, filter_blocks_readable.
  2:{ apply Forall_app. split; [done|]. by repeat constructor. }
  rewrite List.filter_app. simpl. unfold has_id at 2. rewrite block_json_id. simpl.
  rewrite String.eqb_refl. simpl. rewrite app_nil_r.
  apply filter_all. intros v Hv. rewrite Forall_forall in Hfresh.
  by rewrite Hfresh by (by apply list_elem_of_In).
Qed.

Lemma add_then_remove_restores_witness :
  let b1 := Block 0 0 0 None (Some "red") "b1" in
  let b2 := Block 1 0 0 None (Some "red") "b2" in
  let s := run [In_POST "r" (Some (add_action b1 "Alice"))] init in
  Forall (λ v, readable v = true) (blocks (the_room "r" s)) ∧
  Forall (λ v, has_id (Some (JStr (b_id b2))) v = false) (blocks (the_room "r" s)) ∧
  blocks (the_room "r"
            (st (POST "r" (Some (remove_action (b_id b2) "Bob"))
                   (st (POST "r" (Some (add_action b2 "Alice")) s)))))
    = blocks (the_room "r" s).
Proof.
  intros b1 b2 s.
  assert (Forall (λ v, readable v = true) (blocks (the_room "r" s))) as Hread.
  { vm_compute. repeat constructor. }
  assert (Forall (λ v, has_id (Some (JStr (b_id b2))) v = false) (blocks (the_room "r" s)))
    as Hfresh.
  { vm_compute. repeat constructor. }
  split; [exact Hread|]. split; [exact Hfresh|].
  destruct (add_then_remove_restores s "r" b2 "Alice" "Bob" Hread Hfresh) as [_ H2].
  exact H2.
Defined.

(** ** More invariants of the process *)

Lemma the_room_Some roomId s rm : rooms s !! roomId = Some rm → the_room roomId s = rm.
Proof. intros Hr. unfold the_room. by rewrite Hr. Qed.

Lemma same_connections_refl ks : same_connections ks ks.
Proof. intros c k Hk. by exists k. Qed.

Lemma same_connections_trans ks1 ks2 ks3 :
  same_connections ks1 ks2 → same_connections ks2 ks3 → same_connections ks1 ks3.
Proof.
  intros H12 H23 c k Hk. destruct (H12 c k Hk) as (k2 & Hk2 & Hr2 & Hn2 & Ha2).
  destruct (H23 c k2 Hk2) as (k3 & Hk3 & Hr3 & Hn3 & Ha3). exists k3.
  by rewrite Hr3, Hn3, Ha3.
Qed.

Lemma same_connections_deliver data cs ks : same_connections ks (deliver data cs ks).
Proof.
  intros c k Hk. destruct (deliver_queue data cs ks c k Hk) as [n Hn]. eauto.
Qed.

Lemma same_connections_app ks k0 : same_connections ks (ks ++ [k0]).
Proof. intros c k Hk. exists k. split; [by apply lookup_app_l_Some|done]. Qed.

Lemma same_connections_insert (ks : list connection) c k k' :
  ks !! c = Some k → conn_room k' = conn_room k → conn_name k' = conn_name k →
  aborted k' = aborted k →
  same_connections ks (<[c := k']> ks).
Proof.
  intros Hk Hr Hn Ha c' k0 Hk0. destruct (decide (c = c')) as [->|Hne].
  - exists k'. rewrite list_lookup_insert_eq by (by eapply lookup_lt_Some).
    assert (k0 = k) as -> by congruence. done.
  - exists k0. by rewrite list_lookup_insert_ne.
Qed.

Lemma attached_ok_conns roomId ks ks' r :
  same_connections ks ks' → attached_ok roomId ks r → attached_ok roomId ks' r.
Proof.
  intros Hks Hr. eapply Forall_impl; [exact Hr|]. simpl.
  intros c (k & Hk & Hroom & Hab). destruct (Hks c k Hk) as (k' & Hk' & Hr' & _ & Ha').
  exists k'. by rewrite Hr', Ha'.
Qed.

Lemma attached_ok_subset roomId ks r r' :
  (∀ c, c ∈ clients r' → c ∈ clients r) → attached_ok roomId ks r → attached_ok roomId ks r'.
Proof.
  intros Hsub Hr. apply Forall_forall. intros c Hc.
  unfold attached_ok in Hr. rewrite Forall_forall in Hr. by apply Hr, Hsub.
Qed.

Lemma inv2_world rs ks ks' :
  same_connections ks ks' → inv2 (World rs ks) → inv2 (World rs ks').
Proof.
  intros Hks Hs roomId r Hr. destruct (Hs roomId r Hr) as [Ha Hp].
  split; [|done]. by eapply attached_ok_conns.
Qed.

Lemma inv2_conns s ks : same_connections (conns s) ks → inv2 s → inv2 (World (rooms s) ks).
Proof. intros Hks Hs. eapply inv2_world; [exact Hks|]. by rewrite world_eta. Qed.

Lemma inv2_alter f roomId s :
  (∀ r, (∀ c, c ∈ clients (f r) → c ∈ clients r) ∧ (players_ok r → players_ok (f r))) →
  inv2 s → inv2 (World (alter f roomId (rooms s)) (conns s)).
Proof.
  intros Hf Hs r rm. simpl. rewrite lookup_alter. case_decide as Heq.
  - subst r. destruct (rooms s !! roomId) as [rm0|] eqn:Hr; simpl; [|done].
    intros [= <-]. destruct (Hs roomId rm0 Hr) as [Ha Hp]. destruct (Hf rm0) as [Hc Hq].
    split; [by eapply attached_ok_subset|by apply Hq].
  - apply Hs.
Qed.

Lemma inv2_the_room roomId s :
  inv2 s → attached_ok roomId (conns s) (the_room roomId s) ∧ players_ok (the_room roomId s).
Proof.
  intros Hs. unfold the_room. destruct (rooms s !! roomId) as [rm|] eqn:Hr; simpl.
  - by apply (Hs roomId).
  - split; [constructor|]. split; simpl; constructor.
Qed.

Lemma inv2_ensure roomId s :
  inv2 s → inv2 (World (ensure_room roomId (rooms s)) (conns s)).
Proof.
  intros Hs. unfold ensure_room. destruct (rooms s !! roomId) eqn:Hr.
  - by rewrite world_eta.
  - apply map_Forall_insert_2; [|done]. split; [constructor|]. split; simpl; constructor.
Qed.

Lemma players_set_fst k p ps :
  players_get k ps ≠ None → fst <$> players_set k p ps = fst <$> ps.
Proof.
  induction ps as [|[k0 p0] ps IH]; simpl; [done|].
  destruct (String.eqb k0 k); [done|]. intros H. rewrite !fmap_cons. by rewrite IH.
Qed.

Lemma players_set_names k p ps :
  p_name p = k → Forall (λ e, p_name (snd e) = fst e) ps →
  Forall (λ e : string * player, p_name (snd e) = fst e) (players_set k p ps).
Proof.
  intros Hp Hps. induction Hps as [|[k0 p0] ps Hk0 Hps IH]; simpl.
  - by repeat constructor.
  - destruct (String.eqb_spec k0 k) as [->|Hne]; constructor; done.
Qed.

Lemma players_get_name k p ps :
  Forall (λ e, p_name (snd e) = fst e) ps → players_get k ps = Some p → p_name p = k.
Proof.
  intros Hps. induction Hps as [|[k0 p0] ps Hk0 Hps IH]; simpl; [done|].
  destruct (String.eqb_spec k0 k) as [->|Hne]; [|done]. by intros [= <-].
Qed.

Lemma players_ok_move_player name x y z r :
  players_ok r → players_ok (set_players (move_player name x y z (players r)) r).
Proof.
  intros [Hnd Hnames]. unfold players_ok, move_player. simpl.
  destruct name as [[| | |k| |]|]; try done.
  destruct (players_get k (players r)) as [p|] eqn:Hp; [|done]. split.
  - rewrite players_set_fst; [done|by rewrite Hp].
  - apply players_set_names; [|done]. simpl. by eapply players_get_name.
Qed.

Lemma sublist_fst_filter {A B} (P : A * B → bool) (l : list (A * B)) :
  sublist (fst <$> List.filter P l) (fst <$> l).
Proof.
  induction l as [|a l IH]; simpl; [constructor|].
  destruct (P a); simpl; [by apply sublist_skip|by apply sublist_cons].
Qed.

Lemma players_ok_delete k r :
  players_ok r → players_ok (set_players (players_delete k (players r)) r).
Proof.
  intros [Hnd Hnames]. split; simpl.
  - eapply sublist_NoDup; [exact Hnd|]. apply sublist_fst_filter.
  - by apply Forall_List_filter.
Qed.

Lemma players_has_fst k ps : players_has k ps = true ↔ k ∈ fst <$> ps.
Proof.
  unfold players_has. rewrite existsb_exists, list_elem_of_fmap. split.
  - intros (e & He & Heq). apply String.eqb_eq in Heq. exists e.
    split; [done|by apply list_elem_of_In].
  - intros (e & -> & He). exists e. split; [by apply list_elem_of_In|apply String.eqb_refl].
Qed.

Lemma players_ok_register n r :
  players_has n (players r) = false →
  players_ok r → players_ok (set_players (players_set n (origin n) (players r)) r).
Proof.
  intros Hfresh [Hnd Hnames]. rewrite players_set_fresh by done. split; simpl.
  - rewrite fmap_app. apply NoDup_app. split; [done|]. split; [|apply NoDup_singleton].
    intros x Hx Hx'%list_elem_of_singleton. subst x.
    apply players_has_fst in Hx. simpl in Hx. congruence.
  - apply Forall_app. split; [done|]. by repeat constructor.
Qed.

Lemma inv2_broadcast roomId data :
  hoare inv2 (broadcastToRoom roomId data) inv2.
Proof.
  apply hoare_broadcastToRoom. intros s Hs.
  apply (inv2_world _ (conns s)).
  - apply same_connections_deliver.
  - apply inv2_alter; [|done]. intros r. split; [|done].
    intros c Hc. simpl in Hc. by apply elem_of_List_filter in Hc as [Hc _].
Qed.

Lemma inv2_POST roomId body : hoare inv2 (POST roomId body) inv2.
Proof.
  unfold POST, POST_try, POST_switch, case_add, case_remove, case_clear,
    case_update_position. cbv zeta.
  repeat hoare_step;
    first
      [ apply hoare_getOrCreateRoom; intros s' Hs'; by apply inv2_ensure
      | apply inv2_broadcast
      | apply hoare_update_room; intros s' Hs'; apply inv2_alter; [|done];
        intros r; split; [done|];
        first [ done | apply players_ok_move_player ] ].
Qed.

Lemma inv2_stream_close c : hoare inv2 (stream_close c) inv2.
Proof.
  intros s Hs. unfold stream_close. destruct (conns s !! c) as [k|] eqn:Hk; [|done].
  simpl. apply inv2_conns; [|done]. by eapply same_connections_insert.
Qed.

Lemma clients_add_elem c c' cs : c' ∈ clients_add c cs → c' = c ∨ c' ∈ cs.
Proof.
  unfold clients_add. destruct (existsb _ _); [by right|].
  intros [H|H%list_elem_of_singleton]%elem_of_app; [by right|by left].
Qed.

Lemma inv2_attach s roomId room2 ks1 new :
  inv2 s → same_connections (conns s) ks1 → length ks1 = length (conns s) →
  conn_room new = roomId → aborted new = false →
  (∀ c, c ∈ clients room2 → c ∈ clients (the_room roomId s)) → players_ok room2 →
  inv2 (World (<[roomId := set_clients (clients_add (length (conns s)) (clients room2)) room2]>
                 (rooms s))
              (ks1 ++ [new])).
Proof.
  intros Hs Hks1 Hlen Hroom Hab Hsub Hpl.
  destruct (inv2_the_room roomId s Hs) as [Hatt _].
  assert (same_connections (conns s) (ks1 ++ [new])) as Hks.
  { eapply same_connections_trans; [exact Hks1|apply same_connections_app]. }
  apply map_Forall_insert_2.
  - split; [|done]. apply Forall_forall. intros c Hc. simpl in Hc.
    apply clients_add_elem in Hc as [->|Hc].
    + exists new. split; [|done]. cbn [conns]. rewrite lookup_app_r by lia.
      by rewrite Hlen, Nat.sub_diag.
    + unfold attached_ok in Hatt. rewrite Forall_forall in Hatt.
      destruct (Hatt c (Hsub c Hc)) as (k & Hk & Hr & Ha).
      destruct (Hks c k Hk) as (k' & Hk' & Hr' & _ & Ha'). exists k'. by rewrite Hr', Ha'.
  - intros r rm Hr. destruct (Hs r rm Hr) as [Ha Hp]. split; [|done].
    by eapply attached_ok_conns.
Qed.

Lemma inv2_GET roomId name : hoare inv2 (GET roomId name) inv2.
Proof.
  intros s Hs. rewrite GET_eq. cbv zeta. cbn [st].
  destruct (inv2_the_room roomId s Hs) as [Hatt Hpl].
  unfold room_at_subscription.
  destruct (players_has (playerName name) (players (the_room roomId s))) eqn:Hknown.
  - apply inv2_attach; try done. apply same_connections_refl.
  - apply inv2_attach; try done.
    + apply same_connections_deliver.
    + apply deliver_length.
    + intros c Hc. simpl in Hc. by apply elem_of_List_filter in Hc as [Hc _].
    + by apply players_ok_register.
Qed.

(** What an abort does to a live connection whose room is in the
    registry. *)
Lemma signal_abort_eq s c k room :
  conns s !! c = Some k → aborted k = false → rooms s !! conn_room k = Some room →
  let k' := Connection (conn_room k) (conn_name k) (queue k) (closed k) true in
  let room1 := set_players (players_delete (conn_name k) (players room))
                 (set_clients (clients_delete c (clients room)) room) in
  let ev := EPlayerLeft (conn_name k) (length (players room1)) in
  signal_abort c s
  = Outcome (Normal tt)
      (World (<[conn_room k := heal (<[c := k']> (conns s)) room1]> (rooms s))
             (deliver ev (clients room1) (<[c := k']> (conns s))))
      [(conn_room k, ev)].
Proof.
  intros Hk Hab Hroom k' room1 ev.
  unfold signal_abort. rewrite Hk, Hab. fold k'.
  rewrite <-(insert_id (rooms s) (conn_room k) room Hroom) at 1.
  unfold on_abort, bind, update_room, read_room. simpl.
  rewrite !alter_insert_eq, the_room_insert. fold room1 ev.
  erewrite broadcastToRoom_eq by (simpl; apply lookup_insert_eq). simpl.
  by rewrite alter_insert_eq.
Qed.

Lemma inv2_signal_abort c : hoare (λ s, inv s ∧ inv2 s) (signal_abort c) inv2.
Proof.
  intros s [Hinv Hs]. destruct (conns s !! c) as [k|] eqn:Hk.
  2:{ unfold signal_abort. by rewrite Hk. }
  destruct (aborted k) eqn:Hab.
  { unfold signal_abort. by rewrite Hk, Hab. }
  assert (is_Some (rooms s !! conn_room k)) as [room Hroom].
  { destruct Hinv as [_ Hconns]. apply elem_of_dom.
    by eapply (Forall_lookup_1 _ _ _ _ Hconns). }
  rewrite (signal_abort_eq s c k room) by done. cbn [st].
  set (k' := Connection (conn_room k) (conn_name k) (queue k) (closed k) true).
  assert (∀ r rm c', rooms s !! r = Some rm → c' ∈ clients rm →
            (r = conn_room k → c' ≠ c) →
            ∃ k0, deliver
                    (EPlayerLeft (conn_name k)
                       (length (players_delete (conn_name k) (players room))))
                    (clients_delete c (clients room)) (<[c := k']> (conns s)) !! c'
                  = Some k0 ∧ conn_room k0 = r ∧ aborted k0 = false) as Hkeep.
  { intros r rm c' Hr Hc' Hne. destruct (Hs r rm Hr) as [Ha _].
    unfold attached_ok in Ha. rewrite Forall_forall in Ha.
    destruct (Ha c' Hc') as (k0 & Hk0 & Hr0 & Ha0).
    assert (c' ≠ c) as Hcc.
    { intros ->. destruct (decide (r = conn_room k)) as [Heq|Hneq]; [by apply Hne|].
      apply Hneq. congruence. }
    destruct (deliver_queue
                (EPlayerLeft (conn_name k)
                   (length (players_delete (conn_name k) (players room))))
                (clients_delete c (clients room)) (<[c := k']> (conns s)) c' k0)
      as [n Hn].
    { by rewrite list_lookup_insert_ne. }
    eexists. split; [exact Hn|]. done. }
  intros r rm. cbn [rooms conns]. rewrite lookup_insert_Some.
  intros [[<- <-]|[Hne Hr]].
  - split.
    + apply Forall_forall. intros c' Hc'. simpl in Hc'.
      apply elem_of_List_filter in Hc' as [Hc' _].
      apply elem_of_List_filter in Hc' as [Hc' Hcc].
      apply (Hkeep (conn_room k) room c' Hroom Hc'). intros _ ->.
      by rewrite Nat.eqb_refl in Hcc.
    + destruct (Hs _ _ Hroom) as [_ Hp]. by apply (players_ok_delete (conn_name k)) in Hp.
  - destruct (Hs r rm Hr) as [_ Hp]. split; [|done].
    apply Forall_forall. intros c' Hc'. by apply (Hkeep r rm c' Hr Hc').
Qed.

Lemma inv2_init : inv2 init.
Proof. apply map_Forall_empty. Qed.

Lemma inv2_step i s : inv s → inv2 s → inv2 (step i s).
Proof.
  intros Hinv Hs. destruct i as [roomId name|roomId body|c|c]; simpl.
  - by apply inv2_GET.
  - by apply inv2_POST.
  - by apply inv2_signal_abort.
  - by apply inv2_stream_close.
Qed.

Lemma reachable_inv2 s : reachable s → inv2 s.
Proof.
  induction 1 as [|i s Hreach IH]; [apply inv2_init|].
  apply inv2_step; [by apply reachable_inv|done].
Qed.

(** *** Every player has a live subscription *)

Lemma players_live_conns roomId ks ks' r :
  same_connections ks ks' → players_live roomId ks r → players_live roomId ks' r.
Proof.
  intros Hks Hr name Hname. destruct (Hr name Hname) as (c & k & Hk & Hroom & Hn & Hab).
  destruct (Hks c k Hk) as (k' & Hk' & Hr' & Hn' & Ha').
  exists c, k'. by rewrite Hr', Hn', Ha'.
Qed.

Lemma inv3_world rs ks ks' :
  same_connections ks ks' → inv3 (World rs ks) → inv3 (World rs ks').
Proof. intros Hks Hs roomId r Hr. eapply players_live_conns; [exact Hks|by apply Hs]. Qed.

Lemma inv3_alter f roomId s :
  (∀ r name, name ∈ fst <$> players (f r) → name ∈ fst <$> players r) →
  inv3 s → inv3 (World (alter f roomId (rooms s)) (conns s)).
Proof.
  intros Hf Hs r rm. simpl. rewrite lookup_alter. case_decide as Heq.
  - subst r. destruct (rooms s !! roomId) as [rm0|] eqn:Hr; simpl; [|done].
    intros [= <-] name Hname. by apply (Hs roomId rm0 Hr), Hf.
  - apply Hs.
Qed.

Lemma inv3_ensure roomId s :
  inv3 s → inv3 (World (ensure_room roomId (rooms s)) (conns s)).
Proof.
  intros Hs. unfold ensure_room. destruct (rooms s !! roomId) eqn:Hr.
  - by rewrite world_eta.
  - apply map_Forall_insert_2; [|done]. intros name Hname. simpl in Hname.
    by apply elem_of_nil in Hname.
Qed.

Lemma move_player_fst name x y z ps : fst <$> move_player name x y z ps = fst <$> ps.
Proof.
  unfold move_player. destruct name as [[| | |k| |]|]; try done.
  destruct (players_get k ps) as [p|] eqn:Hp; [|done].
  apply players_set_fst. by rewrite Hp.
Qed.

Lemma inv3_broadcast roomId data : hoare inv3 (broadcastToRoom roomId data) inv3.
Proof.
  apply hoare_broadcastToRoom. intros s Hs. apply (inv3_world _ (conns s)).
  - apply same_connections_deliver.
  - by apply inv3_alter.
Qed.

Lemma inv3_POST roomId body : hoare inv3 (POST roomId body) inv3.
Proof.
  unfold POST, POST_try, POST_switch, case_add, case_remove, case_clear,
    case_update_position. cbv zeta.
  repeat hoare_step;
    first
      [ apply hoare_getOrCreateRoom; intros s' Hs'; by apply inv3_ensure
      | apply inv3_broadcast
      | apply hoare_update_room; intros s' Hs'; apply inv3_alter; [|done];
        intros r name; simpl; first [ done | by rewrite move_player_fst ] ].
Qed.

Lemma inv3_stream_close c : hoare inv3 (stream_close c) inv3.
Proof.
  intros s Hs. unfold stream_close. destruct (conns s !! c) as [k|] eqn:Hk; [|done].
  simpl. apply (inv3_world _ (conns s)); [|by rewrite world_eta].
  by eapply same_connections_insert.
Qed.

Lemma inv3_attach s roomId room2 ks1 new :
  inv3 s → same_connections (conns s) ks1 → length ks1 = length (conns s) →
  conn_room new = roomId → aborted new = false →
  (∀ name, name ∈ fst <$> players room2 →
     name = conn_name new ∨ name ∈ fst <$> players (the_room roomId s)) →
  ∀ cs, inv3 (World (<[roomId := set_clients cs room2]> (rooms s)) (ks1 ++ [new])).
Proof.
  intros Hs Hks1 Hlen Hroom Hab Hsub cs.
  assert (same_connections (conns s) (ks1 ++ [new])) as Hks.
  { eapply same_connections_trans; [exact Hks1|apply same_connections_app]. }
  apply map_Forall_insert_2.
  - intros name Hname. simpl in Hname. destruct (Hsub name Hname) as [->|Hold].
    + exists (length (conns s)), new. split; [|done]. cbn [conns].
      rewrite lookup_app_r by lia. by rewrite Hlen, Nat.sub_diag.
    + unfold the_room in Hold. destruct (rooms s !! roomId) as [rm|] eqn:Hr; simpl in Hold.
      * by apply (players_live_conns roomId (conns s) _ rm Hks (Hs roomId rm Hr)).
      * by apply elem_of_nil in Hold.
  - intros r rm Hr. eapply players_live_conns; [exact Hks|by apply Hs].
Qed.

Lemma inv3_GET roomId name : hoare inv3 (GET roomId name) inv3.
Proof.
  intros s Hs. rewrite GET_eq. cbv zeta. cbn [st]. unfold room_at_subscription.
  destruct (players_has (playerName name) (players (the_room roomId s))) eqn:Hknown.
  - apply inv3_attach; try done; [apply same_connections_refl|]. intros n Hn. by right.
  - apply (inv3_attach s roomId
             (heal (conns s)
                (set_players
                   (players_set (playerName name) (origin (playerName name))
                      (players (the_room roomId s))) (the_room roomId s)))); try done.
    + apply same_connections_deliver.
    + apply deliver_length.
    + intros n Hn. simpl in Hn. rewrite players_set_fresh in Hn by done.
      rewrite fmap_app in Hn. apply elem_of_app in Hn as [Hn|Hn]; [by right|].
      left. by apply list_elem_of_singleton in Hn.
Qed.

Lemma players_delete_fst k ps name :
  name ∈ fst <$> players_delete k ps ↔ name ≠ k ∧ name ∈ fst <$> ps.
Proof.
  unfold players_delete. rewrite !list_elem_of_fmap. split.
  - intros (e & -> & He). apply elem_of_List_filter in He as [He Hk]. split.
    + intros Heq. rewrite Heq, String.eqb_refl in Hk. done.
    + by exists e.
  - intros (Hne & e & -> & He). exists e. split; [done|].
    apply elem_of_List_filter. split; [done|]. by destruct (String.eqb_spec (fst e) k).
Qed.

Lemma inv3_signal_abort c : hoare (λ s, inv s ∧ inv3 s) (signal_abort c) inv3.
Proof.
  intros s [Hinv Hs]. destruct (conns s !! c) as [k|] eqn:Hk.
  2:{ unfold signal_abort. by rewrite Hk. }
  destruct (aborted k) eqn:Hab.
  { unfold signal_abort. by rewrite Hk, Hab. }
  assert (is_Some (rooms s !! conn_room k)) as [room Hroom].
  { destruct Hinv as [_ Hconns]. apply elem_of_dom.
    by eapply (Forall_lookup_1 _ _ _ _ Hconns). }
  rewrite (signal_abort_eq s c k room) by done. cbn [st].
  set (k' := Connection (conn_room k) (conn_name k) (queue k) (closed k) true).
  assert (∀ r rm name, rooms s !! r = Some rm → name ∈ fst <$> players rm →
            (r = conn_room k → name ≠ conn_name k) →
            ∃ c' k0, deliver
                    (EPlayerLeft (conn_name k)
                       (length (players_delete (conn_name k) (players room))))
                    (clients_delete c (clients room)) (<[c := k']> (conns s)) !! c'
                  = Some k0 ∧ conn_room k0 = r ∧ conn_name k0 = name ∧ aborted k0 = false)
    as Hkeep.
  { intros r rm name Hr Hname Hne.
    destruct (Hs r rm Hr name Hname) as (c' & k0 & Hk0 & Hr0 & Hn0 & Ha0).
    assert (c' ≠ c) as Hcc.
    { intros ->. assert (k0 = k) as -> by congruence.
      destruct (decide (r = conn_room k)) as [Heq|Hneq]; [by apply Hne|by apply Hneq]. }
    destruct (deliver_queue
                (EPlayerLeft (conn_name k)
                   (length (players_delete (conn_name k) (players room))))
                (clients_delete c (clients room)) (<[c := k']> (conns s)) c' k0)
      as [n Hn].
    { by rewrite list_lookup_insert_ne. }
    eexists c', _. split; [exact Hn|]. done. }
  intros r rm. cbn [rooms conns]. rewrite lookup_insert_Some.
  intros [[<- <-]|[Hne Hr]] name Hname.
  - simpl in Hname. apply players_delete_fst in Hname as [Hne Hname].
    by apply (Hkeep (conn_room k) room name Hroom Hname).
  - by apply (Hkeep r rm name Hr Hname).
Qed.

Lemma inv3_step i s : inv s → inv3 s → inv3 (step i s).
Proof.
  intros Hinv Hs. destruct i as [roomId name|roomId body|c|c]; simpl.
  - by apply inv3_GET.
  - by apply inv3_POST.
  - by apply inv3_signal_abort.
  - by apply inv3_stream_close.
Qed.

Lemma reachable_inv3 s : reachable s → inv3 s.
Proof.
  induction 1 as [|i s Hreach IH]; [apply map_Forall_empty|].
  apply inv3_step; [by apply reachable_inv|done].
Qed.

(** ** What holds in every reachable state *)

(** X6. Every controller in a room's client set is a connection that was opened
    to that very room and whose request has not been aborted: the abort
    listener always detaches its own controller, and nothing but [GET]
    attaches one. *)
Theorem attached_channels_are_live s roomId room c :
  reachable s → rooms s !! roomId = Some room → c ∈ clients room →
  ∃ k, conns s !! c = Some k ∧ conn_room k = roomId ∧ aborted k = false.
Proof.
  intros Hreach Hroom Hc. destruct (reachable_inv2 s Hreach roomId room Hroom) as [Ha _].
  unfold attached_ok in Ha. rewrite Forall_forall in Ha. by apply Ha.
Qed.

Lemma attached_channels_are_live_witness :
  let s := run [In_GET "r" (Some "Alice"); In_GET "r" (Some "Bob"); In_abort 0] init in
  reachable s ∧
  (∃ room, rooms s !! "r" = Some room ∧ 1 ∈ clients room) ∧
  ∃ k, conns s !! 1 = Some k ∧ conn_room k = "r" ∧ aborted k = false.
Proof.
  intros s.
  assert (reachable s) as Hreach by apply reachable_run, reachable_init.
  assert (rooms s !! "r"
          = Some (Room [] [1] [("Bob", origin "Bob")])) as Hroom by (vm_compute; reflexivity).
  assert (1 ∈ clients (Room [] [1] [("Bob", origin "Bob")])) as Hc by (apply list_elem_of_singleton; reflexivity).
  split; [exact Hreach|]. split; [eauto|].
  exact (attached_channels_are_live s "r" _ 1 Hreach Hroom Hc).
Defined.

(** X7. The player map of a room holds each name once, never the empty name,
    and each Player under its own [name] field: [GET] registers
    [{x: 0, y: 0, z: 0, name: playerName}] under [playerName] only when the
    name is absent, and [update_position] overwrites the coordinates
    only. *)
Theorem players_are_named_once s roomId room :
  reachable s → rooms s !! roomId = Some room →
  NoDup (fst <$> players room) ∧
  ∀ name p, (name, p) ∈ players room → p_name p = name ∧ name ≠ "".
Proof.
  intros Hreach Hroom.
  destruct (reachable_inv2 s Hreach roomId room Hroom) as [_ [Hnd Hnames]].
  destruct (reachable_room_ok s roomId room Hreach Hroom) as [_ Hne].
  split; [done|]. intros name p Hp. rewrite Forall_forall in Hnames, Hne.
  split; [apply (Hnames _ Hp)|apply (Hne _ Hp)].
Qed.

Lemma players_are_named_once_witness :
  let s := run [In_GET "r" (Some "Alice"); In_GET "r" (Some "Alice"); In_GET "r" None;
                In_POST "r" (Some (update_position_action 1 2 3 "Alice"))] init in
  reachable s ∧
  rooms s !! "r"
  = Some (Room [] [0; 1; 2]
            [("Alice", Player (Some (JNum 1)) (Some (JNum 2)) (Some (JNum 3)) "Alice");
             ("Anonymous", origin "Anonymous")]) ∧
  NoDup ["Alice"; "Anonymous"].
Proof.
  intros s.
  assert (reachable s) as Hreach by apply reachable_run, reachable_init.
  assert (rooms s !! "r"
          = Some (Room [] [0; 1; 2]
                    [("Alice", Player (Some (JNum 1)) (Some (JNum 2)) (Some (JNum 3)) "Alice");
                     ("Anonymous", origin "Anonymous")])) as Hroom
    by (vm_compute; reflexivity).
  split; [exact Hreach|]. split; [exact Hroom|].
  exact (proj1 (players_are_named_once s "r" _ Hreach Hroom)).
Defined.

(** X8. Every player in a room's map has a subscription to that room under that
    name whose request has not been aborted: players are registered by [GET]
    only, and the abort of any connection removes the player of its name. *)
Theorem players_have_live_subscription s roomId room name :
  reachable s → rooms s !! roomId = Some room → players_has name (players room) = true →
  ∃ c k, conns s !! c = Some k ∧ conn_room k = roomId ∧ conn_name k = name ∧
         aborted k = false.
Proof.
  intros Hreach Hroom Hname. apply (reachable_inv3 s Hreach roomId room Hroom).
  by apply players_has_fst.
Qed.

Lemma players_have_live_subscription_witness :
  let s := run [In_GET "r" (Some "Alice"); In_GET "r" (Some "Bob"); In_abort 0] init in
  reachable s ∧
  rooms s !! "r" = Some (Room [] [1] [("Bob", origin "Bob")]) ∧
  ∃ c k, conns s !! c = Some k ∧ conn_room k = "r" ∧ conn_name k = "Bob" ∧
         aborted k = false.
Proof.
  intros s.
  assert (reachable s) as Hreach by apply reachable_run, reachable_init.
  assert (rooms s !! "r" = Some (Room [] [1] [("Bob", origin "Bob")])) as Hroom
    by (vm_compute; reflexivity).
  split; [exact Hreach|]. split; [exact Hroom|].
  exact (players_have_live_subscription s "r" _ "Bob" Hreach Hroom eq_refl).
Defined.

(** ** Streams over time *)

Lemma later_on_refl k : later_on k k.
Proof.
  split; [done|]. split; [done|]. split; [|done].
  exists []. by rewrite app_nil_r.
Qed.

Lemma later_on_trans k1 k2 k3 : later_on k1 k2 → later_on k2 k3 → later_on k1 k3.
Proof.
  intros (Hr1 & Hn1 & (e1 & Hq1 & He1) & Hc1 & Ha1) (Hr2 & Hn2 & (e2 & Hq2 & He2) & Hc2 & Ha2).
  split; [congruence|]. split; [congruence|]. split; [|split; auto].
  exists (e1 ++ e2)%list. split.
  - by rewrite Hq2, Hq1, app_assoc.
  - intros Hc. by rewrite He1, He2 by auto.
Qed.

Lemma history_refl ks : history ks ks.
Proof. intros c k Hk. exists k. split; [done|apply later_on_refl]. Qed.

Lemma history_trans ks1 ks2 ks3 : history ks1 ks2 → history ks2 ks3 → history ks1 ks3.
Proof.
  intros H12 H23 c k Hk. destruct (H12 c k Hk) as (k2 & Hk2 & Hl2).
  destruct (H23 c k2 Hk2) as (k3 & Hk3 & Hl3). exists k3.
  split; [done|by eapply later_on_trans].
Qed.

Lemma history_insert (ks : list connection) c k k' :
  ks !! c = Some k → later_on k k' → history ks (<[c := k']> ks).
Proof.
  intros Hk Hl c' k0 Hk0. destruct (decide (c = c')) as [->|Hne].
  - exists k'. rewrite list_lookup_insert_eq by (by eapply lookup_lt_Some).
    assert (k0 = k) as -> by congruence. done.
  - exists k0. rewrite list_lookup_insert_ne by done. split; [done|apply later_on_refl].
Qed.

Lemma later_on_push data k : closed k = false → later_on k (push_frame data k).
Proof.
  intros Hc. split; [done|]. split; [done|]. split; [|done].
  exists [data]. split; [done|]. by rewrite Hc.
Qed.

Lemma history_deliver data cs ks : history ks (deliver data cs ks).
Proof.
  revert ks. induction cs as [|c cs IH]; intros ks; [apply history_refl|].
  rewrite deliver_cons. eapply history_trans; [|apply IH].
  unfold deliver_one. destruct (ks !! c) as [k|] eqn:Hk; [|apply history_refl].
  destruct (closed k) eqn:Hc; [apply history_refl|].
  eapply history_insert; [done|by apply later_on_push].
Qed.

Lemma history_app ks k0 : history ks (ks ++ [k0]).
Proof.
  intros c k Hk. exists k. split; [by apply lookup_app_l_Some|apply later_on_refl].
Qed.

Lemma history_GET roomId name s : history (conns s) (conns (st (GET roomId name s))).
Proof.
  rewrite GET_eq. cbv zeta. cbn [st conns].
  eapply history_trans; [|apply history_app].
  destruct (players_has _ _); [apply history_refl|apply history_deliver].
Qed.

Lemma history_stable ks0 {A} (m : M A) :
  (∀ s, history (conns s) (conns (st (m s)))) →
  hoare (λ s, history ks0 (conns s)) m (λ s, history ks0 (conns s)).
Proof. intros Hm s Hs. eapply history_trans; [exact Hs|apply Hm]. Qed.

Lemma history_broadcast ks0 roomId data :
  hoare (λ s, history ks0 (conns s)) (broadcastToRoom roomId data)
    (λ s, history ks0 (conns s)).
Proof.
  apply hoare_broadcastToRoom. intros s Hs. simpl.
  eapply history_trans; [exact Hs|apply history_deliver].
Qed.

Lemma history_POST roomId body s : history (conns s) (conns (st (POST roomId body s))).
Proof.
  assert (hoare (λ s', history (conns s) (conns s')) (POST roomId body)
            (λ s', history (conns s) (conns s'))) as H.
  { unfold POST, POST_try, POST_switch, case_add, case_remove, case_clear,
      case_update_position. cbv zeta.
    repeat hoare_step;
      first
        [ apply hoare_getOrCreateRoom; by intros s' Hs'
        | apply history_broadcast
        | apply hoare_update_room; by intros s' Hs' ]. }
  apply H, history_refl.
Qed.

Lemma history_on_abort roomId c name s :
  history (conns s) (conns (st (on_abort roomId c name s))).
Proof.
  assert (hoare (λ s', history (conns s) (conns s')) (on_abort roomId c name)
            (λ s', history (conns s) (conns s'))) as H.
  { unfold on_abort.
    repeat hoare_step;
      first [ apply history_broadcast | apply hoare_update_room; by intros s' Hs' ]. }
  apply H, history_refl.
Qed.

Lemma history_step i s : history (conns s) (conns (step i s)).
Proof.
  destruct i as [roomId name|roomId body|c|c]; simpl.
  - apply history_GET.
  - apply history_POST.
  - unfold signal_abort. destruct (conns s !! c) as [k|] eqn:Hk; [|apply history_refl].
    destruct (aborted k) eqn:Hab; [apply history_refl|].
    eapply history_trans; [|apply history_on_abort]. simpl.
    eapply history_insert; [done|].
    split; [done|]. split; [done|]. split; [|done]. exists []. by rewrite app_nil_r.
  - unfold stream_close. destruct (conns s !! c) as [k|] eqn:Hk; [|apply history_refl].
    simpl. eapply history_insert; [done|].
    split; [done|]. split; [done|]. split; [|done]. exists []. by rewrite app_nil_r.
Qed.

Lemma history_run tr : ∀ s, history (conns s) (conns (run tr s)).
Proof.
  induction tr as [|i tr IH]; intros s; [apply history_refl|].
  eapply history_trans; [apply history_step|apply (IH (step i s))].
Qed.

(** X9. Whatever requests, aborts and stream closures follow, a connection
    keeps its room and player name, and its stream only grows at the end:
    frames already enqueued are never dropped, reordered or rewritten.  Once
    the stream is closed it stays closed and receives nothing more, and an
    aborted signal stays aborted. *)
Theorem streams_are_append_only tr s c k :
  conns s !! c = Some k →
  ∃ k' evs,
    conns (run tr s) !! c = Some k' ∧
    conn_room k' = conn_room k ∧ conn_name k' = conn_name k ∧
    queue k' = (queue k ++ evs)%list ∧
    (closed k = true → closed k' = true ∧ evs = []) ∧
    (aborted k = true → aborted k' = true).
Proof.
  intros Hk. destruct (history_run tr s c k Hk)
    as (k' & Hk' & Hr & Hn & (evs & Hq & He) & Hc & Ha).
  exists k', evs. repeat split; auto.
Qed.

Lemma streams_are_append_only_witness :
  let s := run [In_GET "r" (Some "Alice")] init in
  let tr := [In_GET "r" (Some "Bob"); In_close 0;
             In_POST "r" (Some (clear_action "Bob"))] in
  conns s !! 0 = Some (Connection "r" "Alice" [EInit [] [origin "Alice"]] false false) ∧
  ∃ k' evs,
    conns (run tr s) !! 0 = Some k' ∧
    queue k' = ([EInit [] [origin "Alice"]] ++ evs)%list.
Proof.
  intros s tr.
  assert (conns s !! 0
          = Some (Connection "r" "Alice" [EInit [] [origin "Alice"]] false false)) as Hk
    by (vm_compute; reflexivity).
  split; [exact Hk|].
  destruct (streams_are_append_only tr s 0 _ Hk) as (k' & evs & H1 & _ & _ & H2 & _).
  exists k', evs. split; [exact H1|exact H2].
Defined.

(** ** Who hears what *)

Section undisturbed.
Variable D : string → Prop.
Variable Φ : connection → Prop.
Variable c : nat.

Lemma undisturbed_alter roomId f s :
  (∀ r c', c' ∈ clients (f r) → c' ∈ clients r) →
  undisturbed D Φ c s → undisturbed D Φ c (World (alter f roomId (rooms s)) (conns s)).
Proof.
  intros Hf [Hk Hd]. split; [done|]. intros r rm HD. simpl.
  rewrite lookup_alter. case_decide as Heq; [|by apply Hd].
  subst r. destruct (rooms s !! roomId) as [rm0|] eqn:Hr; simpl; [|done].
  intros [= <-] Hc. by apply (Hd roomId rm0 HD Hr), Hf.
Qed.

Lemma undisturbed_update_room roomId f :
  (∀ r c', c' ∈ clients (f r) → c' ∈ clients r) →
  hoare (undisturbed D Φ c) (update_room roomId f) (undisturbed D Φ c).
Proof. intros Hf. apply hoare_update_room. intros s. by apply undisturbed_alter. Qed.

Lemma undisturbed_getOrCreateRoom roomId :
  hoare (undisturbed D Φ c) (getOrCreateRoom roomId) (undisturbed D Φ c).
Proof.
  apply hoare_getOrCreateRoom. intros s [Hk Hd]. split; [done|].
  intros r rm HD. simpl. unfold ensure_room.
  destruct (rooms s !! roomId) eqn:Hroom; [by apply Hd|].
  rewrite lookup_insert_Some. intros [[<- <-]|[Hne Hr]]; [apply not_elem_of_nil|].
  by apply (Hd r rm).
Qed.

Lemma undisturbed_the_room roomId s :
  D roomId → undisturbed D Φ c s → c ∉ clients (the_room roomId s).
Proof.
  intros HD [_ Hd]. unfold the_room.
  destruct (rooms s !! roomId) as [rm|] eqn:Hr; simpl; [by eapply Hd|apply not_elem_of_nil].
Qed.

Lemma undisturbed_broadcast roomId data :
  D roomId → hoare (undisturbed D Φ c) (broadcastToRoom roomId data) (undisturbed D Φ c).
Proof.
  intros HD. apply hoare_broadcastToRoom. intros s Hs.
  pose proof (undisturbed_the_room roomId s HD Hs) as Hc.
  destruct (undisturbed_alter roomId (heal (conns s)) s) as [Hk Hd]; [|done|].
  { intros r c' Hc'. simpl in Hc'. by apply elem_of_List_filter in Hc' as [Hc' _]. }
  split; [|done]. simpl. by rewrite deliver_not_in.
Qed.

Lemma undisturbed_POST roomId body :
  D roomId → hoare (undisturbed D Φ c) (POST roomId body) (undisturbed D Φ c).
Proof.
  intros HD. unfold POST, POST_try, POST_switch, case_add, case_remove, case_clear,
    case_update_position. cbv zeta.
  repeat hoare_step;
    first
      [ apply undisturbed_getOrCreateRoom
      | by apply undisturbed_broadcast
      | apply undisturbed_update_room; by intros r c' ].
Qed.

Lemma undisturbed_on_abort roomId c0 name :
  D roomId → hoare (undisturbed D Φ c) (on_abort roomId c0 name) (undisturbed D Φ c).
Proof.
  intros HD. unfold on_abort.
  repeat hoare_step;
    first
      [ by apply undisturbed_broadcast
      | apply undisturbed_update_room; intros r c' Hc'; simpl in Hc'; try done;
        by apply elem_of_List_filter in Hc' as [Hc' _] ].
Qed.

Lemma undisturbed_GET roomId name :
  D roomId → hoare (undisturbed D Φ c) (GET roomId name) (undisturbed D Φ c).
Proof.
  intros HD s Hs. pose proof (undisturbed_the_room roomId s HD Hs) as Hc.
  destruct Hs as [(k & Hk & HΦ) Hd].
  assert (c < length (conns s)) as Hlt by (by eapply lookup_lt_Some).
  rewrite GET_eq. cbv zeta. cbn [st]. unfold room_at_subscription.
  destruct (players_has (playerName name) (players (the_room roomId s))) eqn:Hknown.
  - split.
    + exists k. split; [|done]. simpl. by apply lookup_app_l_Some.
    + intros r rm HDr. simpl. rewrite lookup_insert_Some.
      intros [[<- <-]|[Hne Hr]]; [|by apply (Hd r rm)].
      simpl. intros [->|Hin]%clients_add_elem; [lia|done].
  - split.
    + exists k. split; [|done]. simpl. apply lookup_app_l_Some.
      by rewrite deliver_not_in.
    + intros r rm HDr. simpl. rewrite lookup_insert_Some.
      intros [[<- <-]|[Hne Hr]]; [|by apply (Hd r rm)].
      simpl. intros [->|Hin]%clients_add_elem; [lia|].
      by apply elem_of_List_filter in Hin as [Hin _].
Qed.

Lemma undisturbed_insert s c0 k0 :
  (c0 = c → Φ k0) →
  undisturbed D Φ c s → undisturbed D Φ c (World (rooms s) (<[c0 := k0]> (conns s))).
Proof.
  intros H0 [(k & Hk & HΦ) Hd]. split; [|done]. simpl.
  destruct (decide (c0 = c)) as [->|Hne].
  - exists k0. split; [|auto]. apply list_lookup_insert_eq. by eapply lookup_lt_Some.
  - exists k. by rewrite list_lookup_insert_ne.
Qed.
End undisturbed.

(** A connection attached to no room stays so and hears nothing more. *)
Lemma silent_step i s c q :
  undisturbed (λ _, True) (λ k, queue k = q) c s →
  undisturbed (λ _, True) (λ k, queue k = q) c (step i s).
Proof.
  intros Hs. destruct i as [roomId name|roomId body|c0|c0]; simpl.
  - by apply undisturbed_GET.
  - by apply undisturbed_POST.
  - unfold signal_abort. destruct (conns s !! c0) as [k|] eqn:Hk; [|done].
    destruct (aborted k); [done|]. apply undisturbed_on_abort; [done|].
    apply undisturbed_insert; [|done]. intros ->. simpl.
    destruct Hs as [(k1 & Hk1 & Hq) _]. congruence.
  - unfold stream_close. destruct (conns s !! c0) as [k|] eqn:Hk; [|done]. simpl.
    apply undisturbed_insert; [|done]. intros ->. simpl.
    destruct Hs as [(k1 & Hk1 & Hq) _]. congruence.
Qed.

Lemma silent_run tr : ∀ s c q,
  undisturbed (λ _, True) (λ k, queue k = q) c s →
  undisturbed (λ _, True) (λ k, queue k = q) c (run tr s).
Proof.
  induction tr as [|i tr IH]; intros s c q Hs; [done|].
  apply (IH (step i s)). by apply silent_step.
Qed.

(** X10. A controller that is in no room's client set (its request was aborted,
    or a failed write made [broadcastToRoom] drop it) is never put back and
    never written to again: nothing but [GET] adds to a client set, and
    [GET] adds the controller of its own, new stream. *)
Theorem detached_channel_stays_silent tr s c k :
  conns s !! c = Some k →
  (∀ r room, rooms s !! r = Some room → c ∉ clients room) →
  (∃ k', conns (run tr s) !! c = Some k' ∧ queue k' = queue k) ∧
  ∀ r room, rooms (run tr s) !! r = Some room → c ∉ clients room.
Proof.
  intros Hk Hd.
  destruct (silent_run tr s c (queue k)) as [Hk' Hd'].
  { split; [by exists k|]. intros r rm _. apply Hd. }
  split; [done|]. intros r rm. by apply Hd'.
Qed.

Lemma detached_channel_stays_silent_witness :
  let s := run [In_GET "r" (Some "Alice"); In_GET "r" (Some "Bob"); In_close 0;
                In_POST "r" (Some (clear_action "Bob"))] init in
  let tr := [In_POST "r" (Some (clear_action "Bob")); In_GET "r" (Some "Carol")] in
  conns s !! 0
  = Some (Connection "r" "Alice" [EInit [] [origin "Alice"]; EPlayerJoined "Bob" 2]
            true false) ∧
  ∃ k', conns (run tr s) !! 0 = Some k' ∧
        queue k' = [EInit [] [origin "Alice"]; EPlayerJoined "Bob" 2].
Proof.
  intros s tr.
  assert (conns s !! 0
          = Some (Connection "r" "Alice" [EInit [] [origin "Alice"]; EPlayerJoined "Bob" 2]
                    true false)) as Hk by (vm_compute; reflexivity).
  assert (∀ r room, rooms s !! r = Some room → 0 ∉ clients room) as Hd.
  { intros r room. destruct (decide (r = "r")) as [->|Hne].
    - assert (rooms s !! "r" = Some (Room [] [1] [("Alice", origin "Alice");
                                                  ("Bob", origin "Bob")])) as ->
        by (vm_compute; reflexivity).
      intros [= <-]. simpl. intros Hin%list_elem_of_singleton. discriminate.
    - assert (rooms s = {["r" := Room [] [1] [("Alice", origin "Alice");
                                              ("Bob", origin "Bob")]]}) as ->
        by (vm_compute; reflexivity).
      by rewrite lookup_singleton_ne. }
  split; [exact Hk|].
  exact (proj1 (detached_channel_stays_silent tr s 0 _ Hk Hd)).
Defined.

(** X11. Once the abort signal of a connection has fired, its stream receives no
    further frame, whatever happens afterwards. *)
Theorem aborted_channel_receives_nothing tr s c k :
  reachable s → conns s !! c = Some k → aborted k = true →
  ∃ k', conns (run tr s) !! c = Some k' ∧ queue k' = queue k.
Proof.
  intros Hreach Hk Hab.
  destruct (silent_run tr s c (queue k)) as [Hk' _]; [|done].
  split; [by exists k|]. intros r rm _ Hr Hc.
  destruct (reachable_inv2 s Hreach r rm Hr) as [Ha _].
  unfold attached_ok in Ha. rewrite Forall_forall in Ha.
  destruct (Ha c Hc) as (k0 & Hk0 & _ & Hab0). congruence.
Qed.

Lemma aborted_channel_receives_nothing_witness :
  let s := run [In_GET "r" (Some "Alice"); In_GET "r" (Some "Bob"); In_abort 0] init in
  let tr := [In_POST "r" (Some (clear_action "Bob")); In_GET "r" (Some "Alice")] in
  reachable s ∧
  conns s !! 0 = Some (Connection "r" "Alice"
                         [EInit [] [origin "Alice"]; EPlayerJoined "Bob" 2] false true) ∧
  ∃ k', conns (run tr s) !! 0 = Some k' ∧
        queue k' = [EInit [] [origin "Alice"]; EPlayerJoined "Bob" 2].
Proof.
  intros s tr.
  assert (reachable s) as Hreach by apply reachable_run, reachable_init.
  assert (conns s !! 0
          = Some (Connection "r" "Alice"
                    [EInit [] [origin "Alice"]; EPlayerJoined "Bob" 2] false true)) as Hk
    by (vm_compute; reflexivity).
  split; [exact Hreach|]. split; [exact Hk|].
  exact (aborted_channel_receives_nothing tr s 0 _ Hreach Hk eq_refl).
Defined.

Lemma other_room_on_abort roomId c name r s :
  roomId ≠ r → rooms (st (on_abort roomId c name s)) !! r = rooms s !! r.
Proof.
  intros Hne.
  assert (hoare (λ s', rooms s' !! r = rooms s !! r) (on_abort roomId c name)
            (λ s', rooms s' !! r = rooms s !! r)) as H.
  { unfold on_abort.
    repeat hoare_step;
      first
        [ apply hoare_update_room; intros s' Hs'; simpl; by rewrite lookup_alter_ne
        | apply hoare_broadcastToRoom; intros s' Hs'; simpl; by rewrite lookup_alter_ne ]. }
  by apply H.
Qed.

Lemma reachable_apart s roomId c k :
  reachable s → conns s !! c = Some k → conn_room k ≠ roomId →
  undisturbed (λ r, r = roomId) (λ k', k' = k) c s.
Proof.
  intros Hreach Hk Hne. split; [by exists k|]. intros r rm -> Hr Hc.
  destruct (reachable_inv2 s Hreach roomId rm Hr) as [Ha _].
  unfold attached_ok in Ha. rewrite Forall_forall in Ha.
  destruct (Ha c Hc) as (k0 & Hk0 & Hroom & _). congruence.
Qed.

(** X12. Rooms do not interfere: a request, abort or stream closure addressed to
    one room leaves every other room as it was (blocks, clients and
    players) and leaves the connections of every other room untouched, so
    nothing is ever written to the stream of a subscriber of another
    room. *)
Theorem rooms_are_isolated i s r :
  reachable s → addressed i s ≠ Some r →
  rooms (step i s) !! r = rooms s !! r ∧
  ∀ c k, conns s !! c = Some k → conn_room k = r → conns (step i s) !! c = Some k.
Proof.
  intros Hreach Haddr.
  assert (∀ roomId c k, roomId ≠ r → conns s !! c = Some k → conn_room k = r →
            undisturbed (λ r', r' = roomId) (λ k', k' = k) c s) as Hapart.
  { intros roomId c k Hne Hk Hr. apply reachable_apart; [done|done|congruence]. }
  destruct i as [roomId name|roomId body|c0|c0]; simpl in *.
  - assert (roomId ≠ r) as Hne by congruence. split.
    + rewrite GET_eq. cbv zeta. cbn [st rooms]. by rewrite lookup_insert_ne.
    + intros c k Hk Hr.
      destruct (undisturbed_GET (λ r', r' = roomId) (λ k', k' = k) c roomId name eq_refl s
                  (Hapart roomId c k Hne Hk Hr)) as [(k' & Hk' & ->) _]. done.
  - assert (roomId ≠ r) as Hne by congruence. split.
    + by apply POST_other_rooms.
    + intros c k Hk Hr.
      destruct (undisturbed_POST (λ r', r' = roomId) (λ k', k' = k) c roomId body eq_refl s
                  (Hapart roomId c k Hne Hk Hr)) as [(k' & Hk' & ->) _]. done.
  - unfold signal_abort. destruct (conns s !! c0) as [k0|] eqn:Hk0; [|done].
    simpl in Haddr. assert (conn_room k0 ≠ r) as Hne by congruence.
    destruct (aborted k0) eqn:Hab; [done|]. split.
    + by rewrite other_room_on_abort.
    + intros c k Hk Hr.
      assert (c0 ≠ c) as Hcc by (intros ->; congruence).
      destruct (undisturbed_on_abort (λ r', r' = conn_room k0) (λ k', k' = k) c
                  (conn_room k0) c0 (conn_name k0) eq_refl
                  (World (rooms s)
                     (<[c0 := Connection (conn_room k0) (conn_name k0) (queue k0)
                                (closed k0) true]> (conns s))))
        as [(k' & Hk' & ->) _]; [|done].
      apply undisturbed_insert; [done|]. by apply Hapart.
  - unfold stream_close. destruct (conns s !! c0) as [k0|] eqn:Hk0; [|done].
    simpl in Haddr. assert (conn_room k0 ≠ r) as Hne by congruence.
    simpl. split; [done|]. intros c k Hk Hr.
    assert (c0 ≠ c) as Hcc by (intros ->; congruence).
    by rewrite list_lookup_insert_ne.
Qed.

Lemma rooms_are_isolated_witness :
  let s := run [In_GET "a" (Some "Alice"); In_GET "b" (Some "Bob")] init in
  let i := In_POST "b" (Some (clear_action "Bob")) in
  reachable s ∧ addressed i s ≠ Some "a" ∧
  rooms (step i s) !! "a" = rooms s !! "a".
Proof.
  intros s i.
  assert (reachable s) as Hreach by apply reachable_run, reachable_init.
  assert (addressed i s ≠ Some "a") as Haddr by (intros [=]).
  split; [exact Hreach|]. split; [exact Haddr|].
  exact (proj1 (rooms_are_isolated i s "a" Hreach Haddr)).
Defined.

(** ** What the handlers leave alone *)

Lemma dom_grows_stable (D : gset string) {A} (m : M A) :
  (∀ s, dom (rooms s) ⊆ dom (rooms (st (m s)))) →
  hoare (λ s, D ⊆ dom (rooms s)) m (λ s, D ⊆ dom (rooms s)).
Proof. intros Hm s Hs. etrans; [exact Hs|apply Hm]. Qed.

Lemma dom_grows_POST roomId body s : dom (rooms s) ⊆ dom (rooms (st (POST roomId body s))).
Proof.
  assert (hoare (λ s', dom (rooms s) ⊆ dom (rooms s')) (POST roomId body)
            (λ s', dom (rooms s) ⊆ dom (rooms s'))) as H.
  { unfold POST, POST_try, POST_switch, case_add, case_remove, case_clear,
      case_update_position. cbv zeta.
    repeat hoare_step;
      first
        [ apply hoare_getOrCreateRoom; intros s' Hs'; simpl; rewrite dom_ensure_room;
          by apply union_subseteq_r'
        | apply hoare_update_room; intros s' Hs'; simpl; by rewrite dom_alter_L
        | apply hoare_broadcastToRoom; intros s' Hs'; simpl; by rewrite dom_alter_L ]. }
  by apply H.
Qed.

Lemma dom_grows_on_abort roomId c name s :
  dom (rooms s) ⊆ dom (rooms (st (on_abort roomId c name s))).
Proof.
  assert (hoare (λ s', dom (rooms s) ⊆ dom (rooms s')) (on_abort roomId c name)
            (λ s', dom (rooms s) ⊆ dom (rooms s'))) as H.
  { unfold on_abort.
    repeat hoare_step;
      first
        [ apply hoare_update_room; intros s' Hs'; simpl; by rewrite dom_alter_L
        | apply hoare_broadcastToRoom; intros s' Hs'; simpl; by rewrite dom_alter_L ]. }
  by apply H.
Qed.

Lemma dom_grows_step i s : dom (rooms s) ⊆ dom (rooms (step i s)).
Proof.
  destruct i as [roomId name|roomId body|c|c]; simpl.
  - rewrite GET_eq. cbv zeta. cbn [st rooms]. rewrite dom_insert_L.
    apply union_subseteq_r.
  - apply dom_grows_POST.
  - unfold signal_abort. destruct (conns s !! c) as [k|]; [|done].
    destruct (aborted k); [done|]. apply (dom_grows_on_abort _ _ _ (World _ _)).
  - unfold stream_close. by destruct (conns s !! c).
Qed.

(** X13. The registry only grows: no request, abort or stream closure ever
    removes a room, not even one whose last subscriber has left. *)
Theorem rooms_are_never_removed tr s roomId :
  roomId ∈ dom (rooms s) → roomId ∈ dom (rooms (run tr s)).
Proof.
  revert s. induction tr as [|i tr IH]; intros s Hs; [done|].
  apply (IH (step i s)). by apply dom_grows_step.
Qed.

Lemma rooms_are_never_removed_witness :
  let s := run [In_GET "r" (Some "Alice")] init in
  "r" ∈ dom (rooms s) ∧
  "r" ∈ dom (rooms (run [In_abort 0; In_POST "q" (Some (clear_action "Bob"))] s)).
Proof.
  intros s.
  assert ("r" ∈ dom (rooms s)) as Hs.
  { apply elem_of_dom. exists (Room [] [0] [("Alice", origin "Alice")]).
    vm_compute. reflexivity. }
  split; [exact Hs|].
  exact (rooms_are_never_removed [In_abort 0; In_POST "q" (Some (clear_action "Bob"))]
           s "r" Hs).
Defined.

Lemma room_prop_alter (Ψ : room → Prop) r roomId f s ks :
  (∀ rm, Ψ rm → Ψ (f rm)) →
  Ψ (the_room r s) → Ψ (the_room r (World (alter f roomId (rooms s)) ks)).
Proof.
  intros Hf Hs. rewrite the_room_alter. case_decide as Heq; [|done]. subst roomId.
  unfold the_room in Hs. destruct (rooms s !! r) as [rm|]; simpl in *; [by apply Hf|done].
Qed.

Lemma deliver_writable data cs ks c : writable (deliver data cs ks) c = writable ks c.
Proof.
  revert ks. induction cs as [|c' cs IH]; intros ks; [done|].
  by rewrite deliver_cons, IH, deliver_one_writable.
Qed.

Lemma POST_room_frame s roomId body r :
  let s' := st (POST roomId body s) in
  fst <$> players (the_room r s') = fst <$> players (the_room r s) ∧
  (∀ c, c ∈ clients (the_room r s') → c ∈ clients (the_room r s)) ∧
  length (conns s') = length (conns s) ∧
  (∀ c, c ∈ clients (the_room r s) → writable (conns s) c = true →
        c ∈ clients (the_room r s')).
Proof.
  set (Ψ := λ rm : room,
         fst <$> players rm = fst <$> players (the_room r s) ∧
         (∀ c, c ∈ clients rm → c ∈ clients (the_room r s)) ∧
         (∀ c, c ∈ clients (the_room r s) → writable (conns s) c = true → c ∈ clients rm)).
  set (P := λ s' : world,
         Ψ (the_room r s') ∧ length (conns s') = length (conns s) ∧
         ∀ c, writable (conns s') c = writable (conns s) c).
  assert (hoare P (POST roomId body) P) as H.
  { unfold POST, POST_try, POST_switch, case_add, case_remove, case_clear,
      case_update_position. cbv zeta.
    repeat hoare_step;
      first
        [ apply hoare_getOrCreateRoom; intros s' Hs'; unfold P;
          by rewrite the_room_ensured
        | apply hoare_update_room; intros s' (Hs' & Hlen & Hw); split; [|done];
          apply room_prop_alter; [|done]; intros rm (Hn & Hc & Ho);
          split; [|done]; simpl; first [ done | by rewrite move_player_fst ]
        | apply hoare_broadcastToRoom; intros s' (Hs' & Hlen & Hw); split;
          [|split; [simpl; by rewrite deliver_length
                   |intros c; simpl; by rewrite deliver_writable]];
          apply room_prop_alter; [|done]; intros rm (Hn & Hc & Ho);
          split; [done|]; split;
          [ intros c Hin; simpl in Hin; apply elem_of_List_filter in Hin as [Hin _];
            by apply Hc
          | intros c Hin Hopen; simpl; apply elem_of_List_filter;
            split; [by apply Ho|by rewrite Hw] ] ]. }
  destruct (H s) as ((Hn & Hc & Ho) & Hlen & _); [by repeat split|]. by repeat split.
Qed.

(** X14. A submission never registers or removes a player, attaches no
    controller to any room and opens no stream, whatever its body, and the
    only controllers it can detach are those whose stream is closed: every
    controller that is attached to a room with an open stream is still
    attached afterwards.  The players and the client set change only
    through [GET] and the abort listener (and a failed write, which drops
    the failing controller). *)
Theorem POST_keeps_subscriptions s roomId body r :
  let s' := st (POST roomId body s) in
  fst <$> players (the_room r s') = fst <$> players (the_room r s) ∧
  (∀ c, c ∈ clients (the_room r s') → c ∈ clients (the_room r s)) ∧
  length (conns s') = length (conns s) ∧
  (∀ c, c ∈ clients (the_room r s) → writable (conns s) c = true →
        c ∈ clients (the_room r s')).
Proof. apply POST_room_frame. Qed.

(** X15. The blocks of a room change through submissions only: opening a
    stream, aborting a request and closing a stream leave the blocks of
    every room exactly as they were. *)
Theorem blocks_change_by_submission_only s r :
  (∀ roomId name, blocks (the_room r (st (GET roomId name s))) = blocks (the_room r s)) ∧
  (∀ c, blocks (the_room r (st (signal_abort c s))) = blocks (the_room r s)) ∧
  (∀ c, blocks (the_room r (st (stream_close c s))) = blocks (the_room r s)).
Proof.
  split; [|split].
  - intros roomId name. by apply (blocks_at_GET r (blocks (the_room r s)) roomId name s).
  - intros c. by apply (blocks_at_signal_abort r (blocks (the_room r s)) c s).
  - intros c. by apply (blocks_at_stream_close r (blocks (the_room r s)) c s).
Qed.

(** ** Joining and leaving *)

Lemma players_delete_fresh n p ps :
  players_has n ps = false → players_delete n (ps ++ [(n, p)]) = ps.
Proof.
  intros Hfresh. unfold players_delete. rewrite List.filter_app. simpl.
  rewrite String.eqb_refl. simpl. rewrite app_nil_r.
  apply filter_all. intros e He. apply negb_true_iff, not_true_iff_false.
  intros Heq. apply not_true_iff_false in Hfresh. apply Hfresh.
  unfold players_has. apply existsb_exists. by exists e.
Qed.

Lemma players_delete_absent n ps : players_has n ps = false → players_delete n ps = ps.
Proof.
  intros Hfresh. apply filter_all. intros e He. apply negb_true_iff, not_true_iff_false.
  intros Heq. apply not_true_iff_false in Hfresh. apply Hfresh.
  unfold players_has. apply existsb_exists. by exists e.
Qed.

(** X16. A connection that registered its player and is aborted before anything
    else happens leaves the room as it found it: the same players, the same
    blocks, no controller that was not attached before, its own controller
    detached, and the count announced by [player_left] is the number of
    players there were before it joined. *)
Theorem subscribe_then_abort_restores s roomId name :
  players_has (playerName name) (players (the_room roomId s)) = false →
  let c := length (conns s) in
  let s1 := st (GET roomId name s) in
  let o2 := signal_abort c s1 in
  let room := the_room roomId s in
  let room2 := the_room roomId (st o2) in
  res (GET roomId name s) = Normal c ∧
  players room2 = players room ∧
  blocks room2 = blocks room ∧
  (c ∉ clients room2) ∧
  (∀ c', c' ∈ clients room2 → c' ∈ clients room) ∧
  out o2 = [(roomId, EPlayerLeft (playerName name) (length (players room)))].
Proof.
  intros Hfresh c s1 o2 room room2. subst s1 o2 room2.
  rewrite GET_eq. cbv zeta. cbn [st res]. unfold room_at_subscription.
  rewrite Hfresh. rewrite players_set_fresh by done. fold room.
  set (n := playerName name).
  set (room1 := set_players (players room ++ [(n, origin n)])%list room).
  set (new := Connection roomId n [EInit (blocks room1) (players_values (players room1))]
                false false).
  set (ks1 := deliver (EPlayerJoined n (length (players room1))) (clients room1) (conns s)).
  set (room' := set_clients (clients_add (length (conns s)) (clients (heal (conns s) room1)))
                  (heal (conns s) room1)).
  rewrite (signal_abort_eq (World (<[roomId := room']> (rooms s)) (ks1 ++ [new])) c new room').
  2:{ simpl. rewrite lookup_app_r by (unfold ks1; rewrite deliver_length; done).
      unfold ks1. by rewrite deliver_length, Nat.sub_diag. }
  2:{ done. }
  2:{ simpl. apply lookup_insert_eq. }
  subst new. cbn [st out res conn_room conn_name rooms conns].
  rewrite the_room_insert.
  cbn [players blocks clients heal set_players set_clients room' room1].
  rewrite players_delete_fresh by done.
  split; [done|]. split; [done|]. split; [done|]. split; [|split; [|done]].
  - intros Hin. apply elem_of_List_filter in Hin as [Hin _].
    apply elem_of_List_filter in Hin as [_ Hin]. by rewrite Nat.eqb_refl in Hin.
  - intros c' Hin. apply elem_of_List_filter in Hin as [Hin _].
    apply elem_of_List_filter in Hin as [Hin Hne].
    apply clients_add_elem in Hin as [->|Hin].
    + by rewrite Nat.eqb_refl in Hne.
    + by apply elem_of_List_filter in Hin as [Hin _].
Qed.

Lemma subscribe_then_abort_restores_witness :
  let s := run [In_GET "r" (Some "Alice")] init in
  players_has (playerName (Some "Bob")) (players (the_room "r" s)) = false ∧
  players (the_room "r" (st (signal_abort 1 (st (GET "r" (Some "Bob") s)))))
  = players (the_room "r" s).
Proof.
  intros s.
  assert (players_has (playerName (Some "Bob")) (players (the_room "r" s)) = false) as Hfresh
    by (vm_compute; reflexivity).
  split; [exact Hfresh|].
  destruct (subscribe_then_abort_restores s "r" (Some "Bob") Hfresh) as (_ & H & _).
  exact H.
Defined.

(** ** A submission and the streams *)

Lemma quiet_ret {A} roomId (a : A) : quiet roomId (ret a).
Proof. by intros s. Qed.

Lemma quiet_lift {A} roomId (c : completion A) : quiet roomId (lift c).
Proof. by intros s. Qed.

Lemma quiet_read_room roomId r : quiet roomId (read_room r).
Proof. by intros s. Qed.

Lemma quiet_update_room roomId r f :
  (∀ rm, clients (f rm) = clients rm) → quiet roomId (update_room r f).
Proof.
  intros Hf s. simpl. split; [done|]. split; [done|].
  apply (room_prop_alter (λ rm, clients rm = clients (the_room roomId s))); [|done].
  intros rm <-. apply Hf.
Qed.

Lemma quiet_getOrCreateRoom roomId r : quiet roomId (getOrCreateRoom r).
Proof.
  intros s. rewrite getOrCreateRoom_eq. simpl. by rewrite the_room_ensured.
Qed.

Lemma quiet_bind {A B} roomId (m : M A) (f : A → M B) :
  quiet roomId m → (∀ a, quiet roomId (f a)) → quiet roomId (bind m f).
Proof.
  intros Hm Hf s. unfold bind. destruct (Hm s) as (Ho & Hc & Hr).
  destruct (m s) as [[a|] s1 o1]; simpl in *; [|done].
  destruct (Hf a s1) as (Ho2 & Hc2 & Hr2).
  destruct (f a s1) as [r2 s2 o2]; simpl in *. subst o1 o2.
  split; [done|]. split; congruence.
Qed.

Lemma speaks_quiet {A} roomId (m : M A) : quiet roomId m → speaks roomId m.
Proof. intros Hm s. left. destruct (Hm s) as (Ho & Hc & _). done. Qed.

Lemma speaks_bind {A B} roomId (m : M A) (f : A → M B) :
  quiet roomId m → (∀ a, speaks roomId (f a)) → speaks roomId (bind m f).
Proof.
  intros Hm Hf s. unfold bind. destruct (Hm s) as (Ho & Hc & Hr).
  destruct (m s) as [[a|] s1 o1]; simpl in *; [|by left].
  specialize (Hf a s1). destruct (f a s1) as [r2 s2 o2]; simpl in *. subst o1.
  rewrite Hc, Hr in Hf. done.
Qed.

Lemma speaks_then_ret {A B} roomId (m : M A) (b : B) :
  speaks roomId m → speaks roomId (bind m (λ _, ret b)).
Proof.
  intros Hm s. unfold bind. specialize (Hm s).
  destruct (m s) as [[a|] s1 o1]; simpl in *; [|done]. by rewrite app_nil_r.
Qed.

Lemma speaks_try_catch {A} roomId (m : M A) (a : A) :
  speaks roomId m → speaks roomId (try_catch m (ret a)).
Proof.
  intros Hm s. unfold try_catch. specialize (Hm s).
  destruct (m s) as [[x|] s1 o1]; simpl in *; [done|]. by rewrite app_nil_r.
Qed.

Lemma speaks_broadcast roomId data : speaks roomId (broadcastToRoom roomId data).
Proof.
  intros s. rewrite broadcastToRoom_st, broadcastToRoom_out. simpl.
  unfold the_room. destruct (rooms s !! roomId) as [rm|]; simpl; [right; eauto|by left].
Qed.

Ltac quiet_step :=
  first
    [ apply quiet_ret
    | apply quiet_lift
    | apply quiet_read_room
    | apply quiet_getOrCreateRoom
    | apply quiet_update_room; by intros ? ].

Ltac speaks_step :=
  first
    [ apply speaks_broadcast
    | apply speaks_quiet; quiet_step
    | apply speaks_then_ret
    | apply speaks_bind; [quiet_step|intros ?]
    | match goal with
      | |- speaks _ (if ?b then _ else _) => destruct b
      | |- speaks _ (match ?x with _ => _ end) => destruct x
      end ].

Lemma speaks_POST roomId body : speaks roomId (POST roomId body).
Proof.
  unfold POST. apply speaks_try_catch.
  unfold POST_try, POST_switch, case_add, case_remove, case_clear, case_update_position.
  cbv zeta. repeat speaks_step.
Qed.

(** X17. A submission broadcasts at most one event, and only to its own room.
    Every controller that is attached to the room and whose stream is open
    gets exactly that event, once, at the end of its stream; the stream of
    every other connection is left as it was. *)
Theorem POST_reaches_open_subscribers s roomId body :
  reachable s →
  let o := POST roomId body s in
  (out o = [] ∨ ∃ ev, out o = [(roomId, ev)]) ∧
  ∀ c k, conns s !! c = Some k →
    conns (st o) !! c
    = Some (if bool_decide (c ∈ clients (the_room roomId s)) && negb (closed k)
            then Connection (conn_room k) (conn_name k)
                   (queue k ++ (snd <$> out o)) (closed k) (aborted k)
            else k).
Proof.
  intros Hreach o. subst o.
  assert (NoDup (clients (the_room roomId s))) as Hnd.
  { unfold the_room. destruct (rooms s !! roomId) as [rm|] eqn:Hr; simpl.
    - by destruct (reachable_room_ok s roomId rm Hreach Hr).
    - apply NoDup_nil_2. }
  destruct (speaks_POST roomId body s) as [[Ho Hc]|(ev & Ho & Hc)].
  - split; [by left|]. intros c k Hk. rewrite Ho, Hc, Hk. simpl. rewrite app_nil_r.
    destruct k. by destruct (_ && _).
  - split; [right; eauto|]. intros c k Hk. rewrite Ho, Hc. simpl.
    case_bool_decide as Hin; simpl.
    + rewrite deliver_lookup by done. unfold writable. rewrite Hk.
      destruct (closed k) eqn:Hcl; simpl; [done|]. unfold push_frame. by rewrite Hcl.
    + by rewrite deliver_not_in.
Qed.

Lemma POST_reaches_open_subscribers_witness :
  let s := two_subscribers_one_closed in
  let o := POST "r" (Some (clear_action "Bob")) s in
  reachable s ∧
  conns (st o) !! 1
  = Some (Connection "r" "Bob"
            [EInit [] [origin "Alice"; origin "Bob"]; EClear] false false) ∧
  conns (st o) !! 0 = conns s !! 0.
Proof.
  intros s o.
  assert (reachable s) as Hreach by apply reachable_run, reachable_init.
  destruct (POST_reaches_open_subscribers s "r" (Some (clear_action "Bob")) Hreach)
    as [_ H].
  subst o. split; [exact Hreach|]. split.
  - exact (H 1 (Connection "r" "Bob" [EInit [] [origin "Alice"; origin "Bob"]] false false)
             eq_refl).
  - rewrite (H 0 (Connection "r" "Alice"
                    [EInit [] [origin "Alice"]; EPlayerJoined "Bob" 2] true false) eq_refl).
    reflexivity.
Defined.

(** ** The first frame of a stream *)

Lemma init_first_push data k :
  is_init data = false → init_first k → init_first (push_frame data k).
Proof.
  intros Hd (bs & ps & rest & Hq & Hrest). exists bs, ps, (rest ++ [data])%list.
  split; [simpl; by rewrite Hq|]. apply Forall_app. split; [done|]. by repeat constructor.
Qed.

Lemma init_first_broadcast roomId data :
  is_init data = false →
  hoare (λ s, Forall init_first (conns s)) (broadcastToRoom roomId data)
    (λ s, Forall init_first (conns s)).
Proof.
  intros Hd. apply hoare_broadcastToRoom. intros s Hs. simpl.
  apply Forall_deliver; [|done]. intros k. by apply init_first_push.
Qed.

Lemma init_first_POST roomId body :
  hoare (λ s, Forall init_first (conns s)) (POST roomId body)
    (λ s, Forall init_first (conns s)).
Proof.
  unfold POST, POST_try, POST_switch, case_add, case_remove, case_clear,
    case_update_position. cbv zeta.
  repeat hoare_step;
    first
      [ apply hoare_getOrCreateRoom; by intros s' Hs'
      | by apply init_first_broadcast
      | apply hoare_update_room; by intros s' Hs' ].
Qed.

Lemma init_first_on_abort roomId c name :
  hoare (λ s, Forall init_first (conns s)) (on_abort roomId c name)
    (λ s, Forall init_first (conns s)).
Proof.
  unfold on_abort.
  repeat hoare_step;
    first [ by apply init_first_broadcast | apply hoare_update_room; by intros s' Hs' ].
Qed.

Lemma init_first_step i s :
  Forall init_first (conns s) → Forall init_first (conns (step i s)).
Proof.
  intros Hs. destruct i as [roomId name|roomId body|c|c]; simpl.
  - rewrite GET_eq. cbv zeta. cbn [st conns]. apply Forall_app. split.
    + destruct (players_has _ _); [done|].
      apply Forall_deliver; [|done]. intros k. by apply init_first_push.
    + constructor; [|done]. eexists _, _, []. split; [done|constructor].
  - by apply init_first_POST.
  - unfold signal_abort. destruct (conns s !! c) as [k|] eqn:Hk; [|done].
    destruct (aborted k); [done|]. apply init_first_on_abort. simpl.
    apply Forall_insert; [done|]. by apply (Forall_lookup_1 _ _ _ _ Hs Hk).
  - unfold stream_close. destruct (conns s !! c) as [k|] eqn:Hk; [|done]. simpl.
    apply Forall_insert; [done|]. by apply (Forall_lookup_1 _ _ _ _ Hs Hk).
Qed.

(** X18. Every stream opens with its [init] frame and never carries a second
    one: [init] is enqueued by [start] before the controller is attached,
    and no broadcast has type [init]. *)
Theorem init_is_first_and_only s c k :
  reachable s → conns s !! c = Some k →
  ∃ bs ps rest, queue k = EInit bs ps :: rest ∧ Forall (λ e, is_init e = false) rest.
Proof.
  intros Hreach Hk.
  assert (Forall init_first (conns s)) as Hs.
  { clear Hk. induction Hreach as [|i s Hreach IH]; [constructor|by apply init_first_step]. }
  by apply (Forall_lookup_1 _ _ _ _ Hs Hk).
Qed.

Lemma init_is_first_and_only_witness :
  let s := run [In_GET "r" (Some "Alice"); In_GET "r" (Some "Bob");
                In_POST "r" (Some (clear_action "Bob"))] init in
  reachable s ∧
  conns s !! 0
  = Some (Connection "r" "Alice"
            [EInit [] [origin "Alice"]; EPlayerJoined "Bob" 2; EClear] false false) ∧
  ∃ bs ps rest,
    [EInit [] [origin "Alice"]; EPlayerJoined "Bob" 2; EClear] = EInit bs ps :: rest ∧
    Forall (λ e, is_init e = false) rest.
Proof.
  intros s.
  assert (reachable s) as Hreach by apply reachable_run, reachable_init.
  assert (conns s !! 0
          = Some (Connection "r" "Alice"
                    [EInit [] [origin "Alice"]; EPlayerJoined "Bob" 2; EClear] false false))
    as Hk by (vm_compute; reflexivity).
  split; [exact Hreach|]. split; [exact Hk|].
  exact (init_is_first_and_only s 0 _ Hreach Hk).
Defined.

(** ** The stream of a subscriber is a log of its room *)

Lemma POST_add_eq roomId data s :
  logged data = true →
  is_str (field (Some data) "action") "add" = true →
  printable_block (field (Some data) "block") = true →
  let block := field (Some data) "block" in
  let event := EAdd block (field (Some data) "sender") in
  let room := the_room roomId s in
  POST roomId (Some data) s
  = Outcome (Normal success)
      (World (<[roomId := heal (conns s) (set_blocks (blocks room ++ [block]) room)]> (rooms s))
             (deliver event (clients room) (conns s)))
      [(roomId, event)].
Proof.
  intros Hlog Hact Hprint. cbv zeta. rewrite POST_logged by done.
  apply is_str_eq in Hact. rewrite Hact, POST_switch_add. unfold case_add, try_catch.
  rewrite (get_field data) by (by apply logged_not_null).
  unfold printable_block in Hprint.
  apply andb_prop in Hprint as [Hprint Hz]. apply andb_prop in Hprint as [Hprint Hy].
  apply andb_prop in Hprint as [Hread Hx].
  rewrite bind_lift_Normal, bind_update_room. cbn [rooms conns].
  rewrite !(get_readable _ _ Hread).
  rewrite bind_lift_Normal, (renders_to_string _ Hx), !bind_lift_Normal.
  rewrite (renders_to_string _ Hy), !bind_lift_Normal.
  rewrite (renders_to_string _ Hz), !bind_lift_Normal.
  erewrite broadcast_then_ret by (cbn [rooms]; apply ensured_room).
  cbn [rooms conns]. by rewrite alter_alter_ensure.
Qed.

Lemma POST_clear_eq roomId data s :
  logged data = true →
  is_str (field (Some data) "action") "clear" = true →
  POST roomId (Some data) s
  = Outcome (Normal success)
      (World (<[roomId := heal (conns s) (set_blocks [] (the_room roomId s))]> (rooms s))
             (deliver EClear (clients (the_room roomId s)) (conns s)))
      [(roomId, EClear)].
Proof.
  intros Hlog Hact. rewrite POST_logged by done.
  apply is_str_eq in Hact. rewrite Hact, POST_switch_clear. unfold case_clear, try_catch.
  rewrite bind_update_room. cbn [rooms conns].
  erewrite broadcast_then_ret by (cbn [rooms]; apply ensured_room).
  cbn [rooms conns]. by rewrite alter_alter_ensure.
Qed.

Lemma POST_remove_thrown roomId data s :
  logged data = true →
  is_str (field (Some data) "action") "remove" = true →
  filter_blocks (field (Some data) "blockId") (blocks (the_room roomId s)) = Thrown →
  POST roomId (Some data) s
  = Outcome (Normal internal_error) (World (ensure_room roomId (rooms s)) (conns s)) [].
Proof.
  intros Hlog Hact Hthrown. rewrite POST_logged by done.
  apply is_str_eq in Hact. rewrite Hact, POST_switch_remove. unfold case_remove, try_catch.
  rewrite (get_field data) by (by apply logged_not_null).
  rewrite bind_lift_Normal, bind_read_room, the_room_ensured.
  by rewrite Hthrown, bind_lift_Thrown.
Qed.

Lemma replay_snoc q e : replay (q ++ [e]) = replay_step (replay q) e.
Proof. unfold replay. by rewrite foldl_app. Qed.

Lemma players_values_delete n ps :
  Forall (λ e, p_name (snd e) = fst e) ps →
  players_values (players_delete n ps)
  = List.filter (λ p, negb (String.eqb (p_name p) n)) (players_values ps).
Proof.
  induction 1 as [|[k p] ps Hk Hps IH]; [done|]. simpl in *. rewrite Hk.
  destruct (String.eqb k n); simpl; by rewrite <-IH.
Qed.

Lemma players_values_untouched k (P : player → player) ps :
  Forall (λ e, p_name (snd e) = fst e) ps → k ∉ fst <$> ps →
  (λ q, if String.eqb k (p_name q) then P q else q) <$> players_values ps
  = players_values ps.
Proof.
  induction 1 as [|[k0 p0] ps Hk0 Hps IH]; [done|]. simpl in *.
  rewrite not_elem_of_cons. intros [Hne Hk].
  rewrite Hk0. destruct (String.eqb_spec k k0) as [->|_]; [done|].
  f_equal. by apply IH.
Qed.

Lemma players_values_move sender x y z ps :
  NoDup (fst <$> ps) → Forall (λ e, p_name (snd e) = fst e) ps →
  players_values (move_player sender x y z ps)
  = (λ p, if is_str sender (p_name p) then Player x y z (p_name p) else p)
      <$> players_values ps.
Proof.
  intros Hnd Hnames. unfold move_player, is_str.
  destruct sender as [[| | |k| |]|]; simpl;
    try (symmetry; apply list_fmap_id).
  destruct (players_get k ps) as [p|] eqn:Hp.
  2:{ symmetry. apply (players_values_untouched k (λ q, Player x y z (p_name q))); [done|].
      rewrite <-players_has_fst. apply not_true_iff_false.
      by apply players_has_get_None. }
  assert (p_name p = k) as Hpk by (by eapply players_get_name). rewrite Hpk. clear Hpk.
  revert Hnd Hp. induction Hnames as [|[k0 p0] ps Hk0 Hps IH]; [done|].
  simpl in *. rewrite NoDup_cons. intros [Hk0' Hnd].
  rewrite Hk0. rewrite (String.eqb_sym k k0).
  destruct (String.eqb_spec k0 k) as [->|Hne].
  - intros _. simpl. f_equal.
    symmetry. by apply (players_values_untouched k (λ q, Player x y z (p_name q))).
  - intros Hp. simpl. f_equal. by apply IH.
Qed.

Section replica.
Variable s : world.
Hypothesis Hinv : inv s.
Hypothesis Hinv2 : inv2 s.
Hypothesis Hrep : replica s.

Lemma attached_conn r rm c :
  rooms s !! r = Some rm → c ∈ clients rm →
  ∃ k, conns s !! c = Some k ∧ conn_room k = r ∧ aborted k = false.
Proof.
  intros Hr Hc. destruct (Hinv2 r rm Hr) as [Ha _].
  unfold attached_ok in Ha. rewrite Forall_forall in Ha. by apply Ha.
Qed.

Lemma the_room_clients roomId c :
  c ∈ clients (the_room roomId s) →
  ∃ rm, rooms s !! roomId = Some rm ∧ the_room roomId s = rm.
Proof.
  unfold the_room. destruct (rooms s !! roomId) as [rm|]; simpl; [eauto|].
  by intros ?%elem_of_nil.
Qed.

(** The room [roomId] becomes [room1], whose view is the old one after
    [ev], and [ev] is delivered to its clients. *)
Lemma replica_update roomId room1 ks ev :
  (∀ c, c ∈ clients room1 → c ∈ clients (the_room roomId s)) →
  NoDup (clients room1) →
  view room1 = replay_step (view (the_room roomId s)) ev →
  (∀ r rm c, rooms s !! r = Some rm → c ∈ clients rm →
             (r = roomId → c ∈ clients room1) → ks !! c = conns s !! c) →
  replica (World (<[roomId := heal ks room1]> (rooms s)) (deliver ev (clients room1) ks)).
Proof.
  intros Hsub Hnd Hview Hks r rm c k. cbn [rooms conns].
  rewrite lookup_insert_Some. intros [[<- <-]|[Hne Hr]] Hc Hk Hopen.
  - simpl in Hc. apply elem_of_List_filter in Hc as [Hc _].
    destruct (the_room_clients roomId c (Hsub c Hc)) as (rm0 & Hr0 & Hrm0).
    rewrite deliver_lookup in Hk by done.
    rewrite (Hks roomId rm0 c Hr0) in Hk; try done.
    2:{ rewrite <-Hrm0. by apply Hsub. }
    unfold writable in Hk. rewrite (Hks roomId rm0 c Hr0) in Hk; try done.
    2:{ rewrite <-Hrm0. by apply Hsub. }
    destruct (conns s !! c) as [k0|] eqn:Hk0; [|done].
    destruct (closed k0) eqn:Hc0; simpl in Hk.
    + injection Hk as <-. congruence.
    + injection Hk as <-. simpl. rewrite replay_snoc.
      rewrite (Hrep roomId rm0 c k0 Hr0); try done.
      * change (view (heal ks room1)) with (view room1). by rewrite Hview, Hrm0.
      * rewrite <-Hrm0. by apply Hsub.
  - destruct (attached_conn r rm c Hr Hc) as (k0 & Hk0 & Hroom & _).
    rewrite deliver_not_in in Hk.
    + rewrite (Hks r rm c Hr Hc) in Hk by done. by apply (Hrep r rm c k).
    + intros Hin. destruct (the_room_clients roomId c (Hsub c Hin)) as (rm0 & Hr0 & Hrm0).
      destruct (attached_conn roomId rm0 c Hr0) as (k1 & Hk1 & Hroom1 & _).
      { rewrite <-Hrm0. by apply Hsub. }
      congruence.
Qed.

Lemma replica_ensure roomId :
  replica (World (ensure_room roomId (rooms s)) (conns s)).
Proof.
  unfold ensure_room. destruct (rooms s !! roomId) eqn:Hroom; [by rewrite world_eta|].
  intros r rm c k. cbn [rooms conns]. rewrite lookup_insert_Some.
  intros [[<- <-]|[Hne Hr]] Hc; [by apply elem_of_nil in Hc|]. by apply (Hrep r rm c k).
Qed.

Lemma NoDup_the_room roomId : NoDup (clients (the_room roomId s)).
Proof.
  unfold the_room. destruct (rooms s !! roomId) as [rm|] eqn:Hr; simpl.
  - destruct Hinv as [Hrooms _]. by destruct (Hrooms roomId rm Hr).
  - apply NoDup_nil_2.
Qed.

Lemma players_ok_the_room roomId : players_ok (the_room roomId s).
Proof. by destruct (inv2_the_room roomId s Hinv2). Qed.

(** A broadcast that changes the blocks or the players of the room and
    nothing else. *)
Lemma replica_broadcast roomId room1 ev :
  clients room1 = clients (the_room roomId s) →
  view room1 = replay_step (view (the_room roomId s)) ev →
  replica (World (<[roomId := heal (conns s) room1]> (rooms s))
                 (deliver ev (clients (the_room roomId s)) (conns s))).
Proof.
  intros Hcl Hview. rewrite <-Hcl. apply replica_update; try done.
  - intros c. by rewrite Hcl.
  - rewrite Hcl. apply NoDup_the_room.
Qed.

Lemma replica_POST roomId body :
  announced (In_POST roomId body) = true → replica (st (POST roomId body s)).
Proof.
  intros Hann. destruct body as [data|]; [|by rewrite POST_unparsed].
  destruct (logged data) eqn:Hlog; [|by rewrite POST_not_logged].
  simpl in Hann. rewrite Hlog in Hann. simpl in Hann.
  destruct (is_str (field (Some data) "action") "add") eqn:Hadd.
  { rewrite POST_add_eq by done. cbn [st]. by apply replica_broadcast. }
  destruct (is_str (field (Some data) "action") "remove") eqn:Hrem.
  { destruct (filter_blocks (field (Some data) "blockId") (blocks (the_room roomId s)))
      as [kept|] eqn:Hkept.
    - rewrite (POST_remove_eq roomId data s kept) by done. cbn [st].
      apply replica_broadcast; [done|]. unfold view, replay_step. simpl. f_equal.
      pose proof (filter_blocks_Normal _ _ _ Hkept) as Hread.
      rewrite filter_blocks_readable in Hkept by done. congruence.
    - rewrite POST_remove_thrown by done. apply replica_ensure. }
  destruct (is_str (field (Some data) "action") "clear") eqn:Hclear.
  { rewrite POST_clear_eq by done. cbn [st]. by apply replica_broadcast. }
  destruct (is_str (field (Some data) "action") "update_position") eqn:Hupd.
  2:{ rewrite POST_unrecognised; [apply replica_ensure|done|].
      unfold recognised. by rewrite Hadd, Hrem, Hclear, Hupd. }
  destruct (truthy (field (Some data) "sender") && truthy (field (Some data) "position")
            && players_has_value (field (Some data) "sender")
                 (players (the_room roomId s))) eqn:Hknown.
  2:{ rewrite POST_update_position_noop by done. apply replica_ensure. }
  apply andb_prop in Hknown as [Hknown Hhas]. apply andb_prop in Hknown as [Hs Hp].
  rewrite POST_update_position_known by done. cbn [st]. cbn [clients set_players].
  apply replica_broadcast; [done|]. unfold view, replay_step. simpl. f_equal.
  destruct (players_ok_the_room roomId) as [Hnd Hnames].
  by apply players_values_move.
Qed.

Lemma replica_stream_close c : replica (st (stream_close c s)).
Proof.
  unfold stream_close. destruct (conns s !! c) as [k0|] eqn:Hk0; [|done].
  intros r rm c' k. cbn [st rooms conns]. intros Hr Hc Hk Hopen.
  destruct (decide (c = c')) as [->|Hne].
  - rewrite list_lookup_insert_eq in Hk by (by eapply lookup_lt_Some).
    injection Hk as <-. done.
  - rewrite list_lookup_insert_ne in Hk by done. by apply (Hrep r rm c' k).
Qed.

Lemma replica_signal_abort c : replica (st (signal_abort c s)).
Proof.
  destruct (conns s !! c) as [k0|] eqn:Hk0.
  2:{ unfold signal_abort. by rewrite Hk0. }
  destruct (aborted k0) eqn:Hab.
  { unfold signal_abort. by rewrite Hk0, Hab. }
  assert (is_Some (rooms s !! conn_room k0)) as [room Hroom].
  { destruct Hinv as [_ Hconns]. apply elem_of_dom.
    by eapply (Forall_lookup_1 _ _ _ _ Hconns). }
  rewrite (signal_abort_eq s c k0 room) by done. cbn [st].
  assert (the_room (conn_room k0) s = room) as Hthe by (unfold the_room; by rewrite Hroom).
  apply replica_update.
  - intros c' Hc'. simpl in Hc'. apply elem_of_List_filter in Hc' as [Hc' _].
    by rewrite Hthe.
  - simpl. apply NoDup_List_filter. rewrite <-Hthe. apply NoDup_the_room.
  - rewrite Hthe. unfold view, replay_step. simpl. f_equal.
    apply players_values_delete.
    destruct (Hinv2 _ _ Hroom) as [_ [_ Hnames]]. done.
  - intros r rm c' Hr Hc' Hin.
    assert (c ≠ c') as Hne.
    { intros ->. destruct (attached_conn r rm c' Hr Hc') as (k1 & Hk1 & Hroom1 & _).
      assert (k1 = k0) as -> by congruence.
      specialize (Hin (eq_sym Hroom1)). simpl in Hin.
      apply elem_of_List_filter in Hin as [_ Hin]. by rewrite Nat.eqb_refl in Hin. }
    by rewrite list_lookup_insert_ne.
Qed.

Lemma replica_GET roomId name : replica (st (GET roomId name s)).
Proof.
  rewrite GET_eq. cbv zeta. cbn [st]. unfold room_at_subscription.
  set (n := playerName name). set (room := the_room roomId s).
  assert (∀ room2 ks1,
            replica (World (<[roomId := room2]> (rooms s)) ks1) →
            length ks1 = length (conns s) →
            (∀ c, c ∈ clients room2 → c ∈ clients room) →
            replica
              (World (<[roomId := set_clients (clients_add (length (conns s))
                                                 (clients room2)) room2]> (rooms s))
                 (ks1 ++ [Connection roomId n
                            [EInit (blocks room2) (players_values (players room2))]
                            false false]))) as Hattach.
  { intros room2 ks1 H1 Hlen Hsub r rm c k. cbn [rooms conns].
    rewrite lookup_insert_Some. intros [[<- <-]|[Hne Hr]] Hc Hk Hopen.
    - simpl in Hc. apply clients_add_elem in Hc as [->|Hc].
      + rewrite lookup_app_r in Hk by lia. rewrite Hlen, Nat.sub_diag in Hk.
        injection Hk as <-. done.
      + destruct (the_room_clients roomId c (Hsub c Hc)) as (rm0 & Hr0 & Hrm0).
        destruct (attached_conn roomId rm0 c Hr0) as (k1 & Hk1 & _).
        { rewrite <-Hrm0. by apply Hsub. }
        rewrite lookup_app_l in Hk by (rewrite Hlen; by eapply lookup_lt_Some).
        apply (H1 roomId room2 c k); try done. cbn [rooms]. apply lookup_insert_eq.
    - destruct (attached_conn r rm c Hr Hc) as (k1 & Hk1 & _).
      rewrite lookup_app_l in Hk by (rewrite Hlen; by eapply lookup_lt_Some).
      apply (H1 r rm c k); try done. cbn [rooms]. by rewrite lookup_insert_ne. }
  destruct (players_has n (players room)) eqn:Hknown.
  - assert (blocks (heal (conns s) room) = blocks room) as _ by done.
    apply (Hattach room (conns s)); [|done|done].
    intros r rm c k. cbn [rooms conns]. rewrite lookup_insert_Some.
    intros [[<- <-]|[Hne Hr]] Hc Hk Hopen; [|by apply (Hrep r rm c k)].
    destruct (the_room_clients roomId c Hc) as (rm0 & Hr0 & Hrm0).
    fold room in Hrm0. rewrite Hrm0. apply (Hrep roomId rm0 c k); try done.
    by rewrite <-Hrm0.
  - rewrite players_set_fresh by done.
    set (room1 := set_players (players room ++ [(n, origin n)])%list room).
    apply (Hattach (heal (conns s) room1)
             (deliver (EPlayerJoined n (length (players room1))) (clients room1) (conns s))).
    + apply replica_broadcast; [done|].
      unfold view, replay_step, room1, players_values. simpl. by rewrite map_app.
    + apply deliver_length.
    + intros c Hc. simpl in Hc. by apply elem_of_List_filter in Hc as [Hc _].
Qed.

Lemma replica_step i : announced i = true → replica (step i s).
Proof.
  intros Hann. destruct i as [roomId name|roomId body|c|c]; simpl.
  - apply replica_GET.
  - by apply replica_POST.
  - apply replica_signal_abort.
  - apply replica_stream_close.
Qed.
End replica.

Lemma replica_run tr : ∀ s,
  reachable s → replica s → Forall (λ i, announced i = true) tr → replica (run tr s).
Proof.
  induction tr as [|i tr IH]; intros s Hreach Hrep Hann; [done|].
  apply Forall_cons in Hann as [Hi Hann].
  apply (IH (step i s)); [by apply reachable_step| |done].
  apply replica_step; [by apply reachable_inv|by apply reachable_inv2|done|done].
Qed.



(** The condition on [add] is needed: a block without printable
    coordinates is stored and never broadcast, so the stream of a
    subscriber no longer replays to the room. *)
Example unannounced_add_is_not_replayed :
  let tr := [In_GET "r" (Some "Alice");
             In_POST "r" (Some (JObj [("action", JStr "add"); ("block", JNull)]))] in
  blocks (the_room "r" (run tr init)) = [Some JNull] ∧
  (replay <$> (queue <$> conns (run tr init) !! 0)) = Some ([], [origin "Alice"]).
Proof. vm_compute. done. Qed.

(** ** The payloads of the client *)

Lemma printable_block_json b : printable_block (Some (block_json b)) = true.
Proof. by destruct b as [x y z [t|] [c|] i]. Qed.

Lemma logged_clear_action sender : logged (clear_action sender) = true.
Proof.
  unfold logged, clear_action, field, or_else. simpl.
  by destruct (negb (String.eqb sender "")).
Qed.

(** X20. The bodies [sendBlockUpdate] builds for a placed block, a removed
    block, a cleared build and a moved preview are all served: in a room
    whose stored blocks can be read, each is answered with success, and
    each is a submission whose effect on the blocks is broadcast.  A placed
    block is stored last and broadcast under the name of its sender. *)
Theorem client_submissions_are_served s roomId :
  Forall (λ b, readable b = true) (blocks (the_room roomId s)) →
  (∀ b sender,
     let o := POST roomId (Some (add_action b sender)) s in
     res o = Normal success ∧
     out o = [(roomId, EAdd (Some (block_json b)) (Some (JStr sender)))] ∧
     blocks (the_room roomId (st o))
     = (blocks (the_room roomId s) ++ [Some (block_json b)])%list ∧
     announced (In_POST roomId (Some (add_action b sender))) = true) ∧
  (∀ blockId sender,
     let o := POST roomId (Some (remove_action blockId sender)) s in
     res o = Normal success ∧
     out o = [(roomId, ERemove (Some (JStr blockId)) (Some (JStr sender)))] ∧
     announced (In_POST roomId (Some (remove_action blockId sender))) = true) ∧
  (∀ sender,
     let o := POST roomId (Some (clear_action sender)) s in
     res o = Normal success ∧ out o = [(roomId, EClear)] ∧
     announced (In_POST roomId (Some (clear_action sender))) = true) ∧
  (∀ x y z sender,
     let o := POST roomId (Some (update_position_action x y z sender)) s in
     res o = Normal success ∧
     announced (In_POST roomId (Some (update_position_action x y z sender))) = true).
Proof.
  intros Hread. split; [|split; [|split]].
  - intros b sender o. subst o.
    assert (announced (In_POST roomId (Some (add_action b sender))) = true) as Hann.
    { unfold announced. rewrite logged_add_action.
      change (field (Some (add_action b sender)) "block") with (Some (block_json b)).
      by rewrite printable_block_json. }
    rewrite POST_add_eq; [|apply logged_add_action|done|apply printable_block_json].
    cbn [res out st]. by rewrite the_room_insert.
  - intros blockId sender o. subst o.
    assert (announced (In_POST roomId (Some (remove_action blockId sender))) = true) as Hann.
    { unfold announced. by rewrite logged_remove_action. }
    rewrite (POST_remove_eq roomId _ s
               (List.filter (λ b, negb (has_id (Some (JStr blockId)) b))
                  (blocks (the_room roomId s))));
      [done|apply logged_remove_action|done| |done].
    by apply filter_blocks_readable.
  - intros sender o. subst o.
    assert (announced (In_POST roomId (Some (clear_action sender))) = true) as Hann.
    { unfold announced. by rewrite logged_clear_action. }
    rewrite POST_clear_eq; [done|apply logged_clear_action|done].
  - intros x y z sender o. subst o.
    assert (announced (In_POST roomId (Some (update_position_action x y z sender))) = true)
      as Hann.
    { unfold announced. by rewrite logged_update_position_action. }
    split; [|done].
    destruct (truthy (field (Some (update_position_action x y z sender)) "sender")
              && truthy (field (Some (update_position_action x y z sender)) "position")
              && players_has_value (field (Some (update_position_action x y z sender)) "sender")
                   (players (the_room roomId s))) eqn:Hknown.
    + apply andb_prop in Hknown as [Hknown Hhas]. apply andb_prop in Hknown as [Hs Hp].
      rewrite POST_update_position_known; try done. apply logged_update_position_action.
    + rewrite POST_update_position_noop; try done. apply logged_update_position_action.
Qed.

Lemma client_submissions_are_served_witness :
  let b1 := Block 0 0 0 None (Some "red") "b1" in
  let s := run [In_POST "r" (Some (add_action b1 "Alice"))] init in
  Forall (λ b, readable b = true) (blocks (the_room "r" s)) ∧
  res (POST "r" (Some (remove_action "b1" "Bob")) s) = Normal success.
Proof.
  intros b1 s.
  assert (Forall (λ b, readable b = true) (blocks (the_room "r" s))) as Hread.
  { vm_compute. repeat constructor. }
  split; [exact Hread|].
  destruct (client_submissions_are_served s "r" Hread) as (_ & Hrem & _).
  exact (proj1 (Hrem "b1" "Bob")).
Defined.

(** ** The two versions of [POST] *)

Lemma sim_ret {A} (a : A) : simulates eq (V1.ret a) (ret a).
Proof. by intros s. Qed.

Lemma sim_lift {A} (c : completion A) : simulates eq (V1.lift c) (lift c).
Proof. intros s. simpl. by destruct c. Qed.

Lemma sim_bind {A1 A2 B1 B2} (R : A1 → A2 → Prop) (Q : B1 → B2 → Prop)
    (m1 : V1.M A1) (m2 : M A2) (f1 : A1 → V1.M B1) (f2 : A2 → M B2) :
  simulates R m1 m2 → (∀ a1 a2, R a1 a2 → simulates Q (f1 a1) (f2 a2)) →
  simulates Q (V1.bind m1 f1) (bind m2 f2).
Proof.
  intros Hm Hf s. unfold V1.bind, bind. destruct (Hm s) as (Hst & Hout & Hres).
  destruct (m1 (forget s)) as [[a1|] s1 o1], (m2 s) as [[a2|] s2 o2]; simpl in *; try done.
  subst s1 o1. destruct (Hf a1 a2 Hres s2) as (Hst' & Hout' & Hres').
  destruct (f1 a1 (forget s2)) as [r1 s1' o1'], (f2 a2 s2) as [r2 s2' o2']; simpl in *.
  subst s1' o1'. split; [done|]. split; [|done]. unfold forget_out. by rewrite omap_app.
Qed.

Lemma sim_try_catch {A1 A2} (R : A1 → A2 → Prop) (m1 h1 : V1.M A1) (m2 h2 : M A2) :
  simulates R m1 m2 → simulates R h1 h2 →
  simulates R (V1.try_catch m1 h1) (try_catch m2 h2).
Proof.
  intros Hm Hh s. unfold V1.try_catch, try_catch. destruct (Hm s) as (Hst & Hout & Hres).
  destruct (m1 (forget s)) as [[a1|] s1 o1], (m2 s) as [[a2|] s2 o2]; simpl in *; try done.
  subst s1 o1. destruct (Hh s2) as (Hst' & Hout' & Hres').
  destruct (h1 (forget s2)) as [r1 s1' o1'], (h2 s2) as [r2 s2' o2']; simpl in *.
  subst s1' o1'. split; [done|]. split; [|done]. unfold forget_out. by rewrite omap_app.
Qed.

Lemma forget_the_room roomId s : V1.the_room roomId (forget s) = forget_room (the_room roomId s).
Proof.
  unfold V1.the_room, the_room, forget. simpl. rewrite lookup_fmap.
  by destruct (rooms s !! roomId).
Qed.

Lemma sim_read_room roomId :
  simulates (λ r1 r2, r1 = forget_room r2) (V1.read_room roomId) (read_room roomId).
Proof. intros s. simpl. split; [done|]. split; [done|]. apply forget_the_room. Qed.

Lemma sim_update_room roomId (f1 : V1.room → V1.room) (f2 : room → room) :
  (∀ r, forget_room (f2 r) = f1 (forget_room r)) →
  simulates eq (V1.update_room roomId f1) (update_room roomId f2).
Proof.
  intros Hf s. simpl. split; [|done]. unfold forget. simpl. f_equal.
  symmetry. apply fmap_alter. intros r _. apply Hf.
Qed.

Lemma sim_getOrCreateRoom roomId :
  simulates eq (V1.getOrCreateRoom roomId) (getOrCreateRoom roomId).
Proof.
  intros s. unfold V1.getOrCreateRoom, getOrCreateRoom. simpl. rewrite lookup_fmap.
  destruct (rooms s !! roomId); simpl; [done|]. split; [|done].
  unfold forget. simpl. by rewrite fmap_insert.
Qed.

Lemma sim_enqueue c e1 e2 :
  forget_event e2 = Some e1 → simulates eq (V1.enqueue c e1) (enqueue c e2).
Proof.
  intros He s. unfold V1.enqueue, enqueue. simpl. rewrite list_lookup_fmap.
  destruct (conns s !! c) as [k|]; simpl; [|done].
  destruct (closed k); simpl; [done|]. split; [|done].
  unfold forget. simpl. rewrite list_fmap_insert. f_equal. f_equal.
  unfold forget_conn. simpl. rewrite omap_app. simpl. by rewrite He.
Qed.

Lemma sim_emit roomId e1 e2 :
  forget_event e2 = Some e1 → simulates eq (V1.emit roomId e1) (emit roomId e2).
Proof. intros He s. simpl. by rewrite He. Qed.

Lemma sim_forEach roomId e1 e2 cs :
  forget_event e2 = Some e1 →
  simulates eq
    (V1.forEach cs (λ controller,
       V1.try_catch (V1.enqueue controller e1)
         (V1.update_room roomId
            (λ r, V1.set_clients (clients_delete controller (V1.clients r)) r))))
    (forEach cs (λ controller,
       try_catch (enqueue controller e2)
         (update_room roomId (λ r, set_clients (clients_delete controller (clients r)) r)))).
Proof.
  intros He. induction cs as [|c cs IH]; simpl; [apply sim_ret|].
  eapply sim_bind; [|intros ? ? _; apply IH].
  apply sim_try_catch; [by apply sim_enqueue|by apply sim_update_room].
Qed.

Lemma sim_broadcastToRoom roomId e1 e2 :
  forget_event e2 = Some e1 →
  simulates eq (V1.broadcastToRoom roomId e1) (broadcastToRoom roomId e2).
Proof.
  intros He s. unfold V1.broadcastToRoom, broadcastToRoom.
  change (V1.rooms (forget s)) with (forget_room <$> rooms s). rewrite lookup_fmap.
  destruct (rooms s !! roomId) as [room|]; simpl; [|done].
  apply (sim_bind eq eq); [by apply sim_emit|]. intros _ _ _.
  by apply sim_forEach.
Qed.

Ltac sim_prim :=
  first
    [ apply sim_ret
    | apply sim_lift
    | apply sim_getOrCreateRoom
    | apply sim_read_room
    | apply sim_broadcastToRoom; reflexivity
    | apply sim_update_room; intros ?; reflexivity ].

Ltac sim_step :=
  first
    [ sim_prim
    | eapply sim_bind; [sim_prim|intros ? ? ?; cbv beta in *; subst; simpl] ].

Lemma sim_case_add roomId data sender :
  simulates eq (V1.case_add roomId data sender) (case_add roomId data sender).
Proof. unfold V1.case_add, case_add. repeat sim_step. Qed.

Lemma sim_case_remove roomId data sender :
  simulates eq (V1.case_remove roomId data sender) (case_remove roomId data sender).
Proof. unfold V1.case_remove, case_remove. repeat sim_step. Qed.

Lemma sim_case_clear roomId :
  simulates eq (V1.case_clear roomId) (case_clear roomId).
Proof. unfold V1.case_clear, case_clear. repeat sim_step. Qed.

Lemma sim_POST_switch roomId data action sender :
  is_str action "update_position" = false →
  simulates eq (V1.POST_switch roomId data action sender)
    (POST_switch roomId data action sender).
Proof.
  intros Hupd. unfold V1.POST_switch, POST_switch. rewrite Hupd.
  destruct (is_str action "add"); [apply sim_case_add|].
  destruct (is_str action "remove"); [apply sim_case_remove|].
  destruct (is_str action "clear"); [apply sim_case_clear|apply sim_ret].
Qed.

Lemma sim_bind_Normal {A B1 B2} (Q : B1 → B2 → Prop) (a : A)
    (f1 : A → V1.M B1) (f2 : A → M B2) :
  simulates Q (f1 a) (f2 a) →
  simulates Q (V1.bind (V1.lift (Normal a)) f1) (bind (lift (Normal a)) f2).
Proof.
  intros Hf s. unfold V1.bind, bind, V1.lift, lift. specialize (Hf s).
  destruct (f1 a (forget s)) as [r1 s1 o1], (f2 a s) as [r2 s2 o2]. done.
Qed.

Lemma sim_POST_try roomId body :
  (∀ data, body = Some data →
           is_str (field (Some data) "action") "update_position" = false) →
  simulates eq (V1.POST_try roomId body) (POST_try roomId body).
Proof.
  intros Hupd. unfold V1.POST_try, POST_try.
  destruct body as [data|]; [|by intros s].
  specialize (Hupd data eq_refl).
  assert (data = JNull ∨ data ≠ JNull) as [->|Hnn] by (destruct data; auto).
  { by intros s. }
  cbn [req_json]. apply sim_bind_Normal. cbv zeta.
  rewrite !(get_field data) by done. apply sim_bind_Normal.
  eapply sim_bind; [sim_prim|intros ? ? ?; subst].
  apply sim_bind_Normal.
  do 2 (eapply sim_bind; [sim_prim|intros ? ? ?; subst]).
  by apply sim_POST_switch.
Qed.

(** X21. The player-tracking version of [POST] extends the block-only one: on
    every body whose action is not [update_position] the two versions give
    the same answer, and the block-only version does to the blocks, the
    clients and the streams exactly what the player-tracking version does
    to them (the players and the player frames aside), broadcasting the
    same events. *)
Theorem POST_versions_agree s roomId body :
  (∀ data, body = Some data →
           is_str (field (Some data) "action") "update_position" = false) →
  V1.res (V1.POST roomId body (forget s)) = res (POST roomId body s) ∧
  V1.st (V1.POST roomId body (forget s)) = forget (st (POST roomId body s)) ∧
  V1.out (V1.POST roomId body (forget s)) = forget_out (out (POST roomId body s)).
Proof.
  intros Hupd.
  destruct (sim_try_catch eq _ _ _ _ (sim_POST_try roomId body Hupd) (sim_ret internal_error) s)
    as (Hst & Hout & Hres).
  fold (V1.POST roomId body) in *. fold (POST roomId body) in *.
  split; [|by split].
  destruct (V1.res _) as [a1|], (res _) as [a2|]; try done. by subst.
Qed.

Lemma POST_versions_agree_witness :
  let b1 := Block 0 0 0 None (Some "red") "b1" in
  let s := run [In_GET "r" (Some "Alice")] init in
  let body := Some (add_action b1 "Alice") in
  (∀ data, body = Some data →
           is_str (field (Some data) "action") "update_position" = false) ∧
  V1.res (V1.POST "r" body (forget s)) = Normal success ∧
  V1.conns (V1.st (V1.POST "r" body (forget s)))
  = [V1.Connection "r" [V1.EInit []; V1.EAdd (Some (block_json b1)) (Some (JStr "Alice"))]
       false false].
Proof.
  intros b1 s body.
  assert (∀ data, body = Some data →
                  is_str (field (Some data) "action") "update_position" = false) as Hupd.
  { intros data [= <-]. reflexivity. }
  split; [exact Hupd|].
  destruct (POST_versions_agree s "r" body Hupd) as (Hres & Hst & _).
  split.
  - rewrite Hres. vm_compute. reflexivity.
  - rewrite Hst. vm_compute. reflexivity.
Defined.

(** X22. The block-only version has no [update_position]: a logged submission
    with that action is answered with the invalid-action error, after the
    room has been created, and changes nothing else. *)
Theorem V1_rejects_update_position s1 roomId data :
  logged data = true →
  is_str (field (Some data) "action") "update_position" = true →
  V1.res (V1.POST roomId (Some data) s1) = Normal invalid_action ∧
  V1.out (V1.POST roomId (Some data) s1) = [] ∧
  V1.conns (V1.st (V1.POST roomId (Some data) s1)) = V1.conns s1 ∧
  ∀ r, V1.the_room r (V1.st (V1.POST roomId (Some data) s1)) = V1.the_room r s1.
Proof.
  intros Hlog Hact. pose proof (logged_not_null data Hlog) as Hnn.
  unfold V1.POST, V1.POST_try, V1.try_catch, V1.bind, V1.lift. cbn [req_json].
  rewrite !(get_field data) by done.
  rewrite (logged_action data Hlog), (logged_sender data Hlog).
  apply is_str_eq in Hact. rewrite Hact. unfold V1.POST_switch. cbn [is_str strict_eq].
  simpl. unfold V1.getOrCreateRoom.
  destruct (V1.rooms s1 !! roomId) as [rm|] eqn:Hr; simpl.
  - done.
  - split; [done|]. split; [done|]. split; [done|]. intros r.
    unfold V1.the_room. simpl. destruct (decide (roomId = r)) as [<-|Hne].
    + by rewrite lookup_insert_eq, Hr.
    + by rewrite lookup_insert_ne.
Qed.

Lemma V1_rejects_update_position_witness :
  let data := update_position_action 1 2 3 "Alice" in
  logged data = true ∧
  is_str (field (Some data) "action") "update_position" = true ∧
  V1.res (V1.POST "r" (Some data) (V1.World ∅ [])) = Normal invalid_action.
Proof.
  intros data. split; [reflexivity|]. split; [reflexivity|].
  exact (proj1 (V1_rejects_update_position (V1.World ∅ []) "r" data eq_refl eq_refl)).
Defined.

(** *** Subscribing and leaving in the two versions *)

Lemma V1_GET_eq roomId s1 :
  let room := V1.the_room roomId s1 in
  let c := length (V1.conns s1) in
  V1.GET roomId s1
  = V1.Outcome (Normal c)
      (V1.World (<[roomId := V1.set_clients (clients_add c (V1.clients room)) room]>
                   (V1.rooms s1))
                (V1.conns s1 ++ [V1.Connection roomId [V1.EInit (V1.blocks room)] false false]))
      [].
Proof.
  intros room c. unfold V1.GET, V1.bind, V1.getOrCreateRoom, V1.new_controller,
    V1.read_room, V1.enqueue, V1.update_room.
  assert (∀ m : gmap string V1.room,
            m !! roomId = Some room →
            alter (λ r, V1.set_clients (clients_add c (V1.clients r)) r) roomId m
            = <[roomId := V1.set_clients (clients_add c (V1.clients room)) room]> m) as Halter.
  { intros m Hm. rewrite <-(insert_id m roomId room Hm) at 1. by rewrite alter_insert_eq. }
  destruct (V1.rooms s1 !! roomId) as [rm|] eqn:Hr; simpl.
  - rewrite lookup_app_r by lia. rewrite Nat.sub_diag. simpl.
    rewrite insert_app_r_alt by lia. rewrite Nat.sub_diag. simpl.
    unfold V1.the_room. simpl. rewrite Hr. simpl.
    assert (room = rm) as Hrm by (unfold room, V1.the_room; by rewrite Hr).
    rewrite Halter by (by rewrite Hrm). by rewrite <-Hrm.
  - rewrite lookup_app_r by lia. rewrite Nat.sub_diag. simpl.
    rewrite insert_app_r_alt by lia. rewrite Nat.sub_diag. simpl.
    unfold V1.the_room. simpl. rewrite lookup_insert_eq. simpl.
    assert (room = V1.empty_room) as Hrm by (unfold room, V1.the_room; by rewrite Hr).
    rewrite Halter by (rewrite Hrm; apply lookup_insert_eq).
    rewrite insert_insert_eq. by rewrite Hrm.
Qed.

Lemma forget_deliver_hidden ev cs ks :
  forget_event ev = None → forget_conn <$> deliver ev cs ks = forget_conn <$> ks.
Proof.
  intros Hev. revert ks. induction cs as [|c cs IH]; intros ks; [done|].
  rewrite deliver_cons, IH. unfold deliver_one.
  destruct (ks !! c) as [k|] eqn:Hk; [|done]. destruct (closed k); [done|].
  rewrite list_fmap_insert. apply list_insert_id. rewrite list_lookup_fmap, Hk. simpl.
  f_equal. unfold forget_conn, push_frame. simpl. rewrite omap_app. simpl.
  by rewrite Hev, app_nil_r.
Qed.

Lemma heal_all_open ks r :
  Forall (λ c, writable ks c = true) (clients r) → heal ks r = r.
Proof.
  intros Hopen. destruct r as [bs cs ps]. unfold heal, set_clients. simpl in *. f_equal.
  apply filter_all. intros c Hc. rewrite Forall_forall in Hopen.
  by apply Hopen, list_elem_of_In.
Qed.

(** X23. Opening a stream does to the blocks, the clients and the streams what
    the block-only [GET] does, whenever the name is already a player of the
    room or no attached stream of the room is closed: registering the
    player and announcing it are invisible to a block-only observer, unless
    the announcement drops a closed stream. *)
Theorem GET_versions_agree s roomId name :
  players_has (playerName name) (players (the_room roomId s)) = true ∨ all_open roomId s →
  V1.res (V1.GET roomId (forget s)) = res (GET roomId name s) ∧
  V1.st (V1.GET roomId (forget s)) = forget (st (GET roomId name s)).
Proof.
  intros Hcase. rewrite V1_GET_eq, GET_eq. cbv zeta. cbn [V1.res V1.st res st].
  rewrite forget_the_room. unfold forget at 1 2 3. cbn [V1.conns V1.rooms].
  rewrite length_fmap. split; [done|].
  unfold room_at_subscription.
  destruct (players_has (playerName name) (players (the_room roomId s))) eqn:Hknown.
  - unfold forget. cbn [rooms conns]. rewrite fmap_insert, fmap_app. done.
  - destruct Hcase as [?|Hopen]; [done|].
    rewrite heal_all_open by done.
    unfold forget. cbn [rooms conns]. rewrite fmap_insert, fmap_app.
    by rewrite forget_deliver_hidden.
Qed.

Lemma GET_versions_agree_witness :
  let s := run [In_GET "r" (Some "Alice")] init in
  (players_has (playerName (Some "Bob")) (players (the_room "r" s)) = true ∨ all_open "r" s) ∧
  V1.res (V1.GET "r" (forget s)) = Normal 1.
Proof.
  intros s.
  assert (players_has (playerName (Some "Bob")) (players (the_room "r" s)) = true
          ∨ all_open "r" s) as Hcase.
  { right. unfold all_open. vm_compute. repeat constructor. }
  split; [exact Hcase|].
  destruct (GET_versions_agree s "r" (Some "Bob") Hcase) as [Hres _].
  rewrite Hres. vm_compute. reflexivity.
Defined.

(** X24. Aborting a request does to the blocks, the clients and the streams
    what the block-only listener does (it detaches the controller),
    whenever no attached stream of the room is closed: removing the player
    and announcing it are invisible to a block-only observer, unless the
    announcement drops a closed stream. *)
Theorem abort_versions_agree s c :
  reachable s →
  (∀ k, conns s !! c = Some k → all_open (conn_room k) s) →
  V1.st (V1.signal_abort c (forget s)) = forget (st (signal_abort c s)).
Proof.
  intros Hreach Hopen. unfold V1.signal_abort.
  change (V1.conns (forget s)) with (forget_conn <$> conns s). rewrite list_lookup_fmap.
  destruct (conns s !! c) as [k|] eqn:Hk; simpl.
  2:{ unfold signal_abort. by rewrite Hk. }
  destruct (aborted k) eqn:Hab.
  { unfold signal_abort. by rewrite Hk, Hab. }
  destruct (reachable_conn_room s c k Hreach Hk) as [room Hroom].
  rewrite (signal_abort_eq s c k room) by done. cbn [st].
  specialize (Hopen k eq_refl). unfold all_open in Hopen.
  rewrite (the_room_Some _ _ _ Hroom) in Hopen.
  set (k' := Connection (conn_room k) (conn_name k) (queue k) (closed k) true).
  rewrite heal_all_open.
  2:{ simpl. apply Forall_forall. intros c' Hc'.
      apply elem_of_List_filter in Hc' as [Hc' _].
      rewrite (writable_insert _ _ k) by done.
      rewrite Forall_forall in Hopen. by apply Hopen. }
  unfold V1.on_abort, V1.update_room, forget.
  cbn [V1.st V1.rooms V1.conns V1.conn_room forget_conn rooms conns]. f_equal.
  - rewrite fmap_insert.
    rewrite <-(insert_id (rooms s) (conn_room k) room Hroom) at 1.
    by rewrite fmap_insert, alter_insert_eq.
  - rewrite forget_deliver_hidden by done. by rewrite list_fmap_insert.
Qed.

Lemma abort_versions_agree_witness :
  let s := run [In_GET "r" (Some "Alice"); In_GET "r" (Some "Bob")] init in
  reachable s ∧
  (∀ k, conns s !! 0 = Some k → all_open (conn_room k) s) ∧
  V1.clients (V1.the_room "r" (V1.st (V1.signal_abort 0 (forget s)))) = [1].
Proof.
  intros s.
  assert (reachable s) as Hreach by apply reachable_run, reachable_init.
  assert (∀ k, conns s !! 0 = Some k → all_open (conn_room k) s) as Hopen.
  { intros k Hk. vm_compute in Hk. injection Hk as <-. unfold all_open.
    vm_compute. repeat constructor. }
  split; [exact Hreach|]. split; [exact Hopen|].
  rewrite (abort_versions_agree s 0 Hreach Hopen). vm_compute. reflexivity.
Defined.

(** ** All subscribers of a room see the same frames *)

Lemma deliver_open data cs ks c k k' :
  NoDup cs → c ∈ cs → ks !! c = Some k → deliver data cs ks !! c = Some k' →
  closed k' = false → queue k' = (queue k ++ [data])%list.
Proof.
  intros Hnd Hc Hk Hk' Hopen. rewrite deliver_lookup in Hk' by done.
  unfold writable in Hk'. rewrite Hk in Hk'.
  destruct (closed k) eqn:Hcl; simpl in Hk'; injection Hk' as <-; [congruence|done].
Qed.

(** The frames one input appends to the open streams attached to a room:
    they depend on the input and the room, not on the subscriber. *)
Lemma step_frames i s :
  reachable s →
  ∃ (evs : list event) (r0 : string),
    ∀ r rm' c k k',
      rooms (step i s) !! r = Some rm' → c ∈ clients rm' →
      conns s !! c = Some k → conns (step i s) !! c = Some k' → closed k' = false →
      (∃ rm, rooms s !! r = Some rm ∧ c ∈ clients rm) ∧
      queue k' = (queue k ++ (if decide (r = r0) then evs else []))%list.
Proof.
  intros Hreach.
  pose proof (reachable_inv s Hreach) as Hinv.
  pose proof (reachable_inv2 s Hreach) as Hinv2.
  destruct i as [roomId name|roomId body|c0|c0]; simpl.
  - (* GET *)
    rewrite GET_eq. cbv zeta. cbn [st]. unfold room_at_subscription.
    set (n := playerName name). set (room := the_room roomId s).
    destruct (players_has n (players room)) eqn:Hknown.
    + exists [], roomId. intros r rm' c k k'. cbn [rooms conns].
      rewrite lookup_insert_Some. intros [[<- <-]|[Hne Hr]] Hc Hk Hk' Hopen.
      * simpl in Hc. apply clients_add_elem in Hc as [->|Hc].
        { apply lookup_lt_Some in Hk. lia. }
        destruct (the_room_clients s roomId c Hc) as (rm & Hrm & Hthe).
        rewrite lookup_app_l in Hk' by (by eapply lookup_lt_Some).
        split; [exists rm; split; [done|by rewrite <-Hthe]|].
        rewrite decide_True by done. rewrite app_nil_r. congruence.
      * rewrite lookup_app_l in Hk' by (by eapply lookup_lt_Some).
        split; [by exists rm'|]. rewrite decide_False by done. rewrite app_nil_r. congruence.
    + set (room1 := set_players (players_set n (origin n) (players room)) room).
      exists [EPlayerJoined n (length (players room1))], roomId.
      intros r rm' c k k'. cbn [rooms conns].
      rewrite lookup_insert_Some. intros [[<- <-]|[Hne Hr]] Hc Hk Hk' Hopen.
      * simpl in Hc. apply clients_add_elem in Hc as [->|Hc].
        { apply lookup_lt_Some in Hk. lia. }
        apply elem_of_List_filter in Hc as [Hc _].
        destruct (the_room_clients s roomId c Hc) as (rm & Hrm & Hthe).
        rewrite lookup_app_l in Hk'
          by (rewrite deliver_length; by eapply lookup_lt_Some).
        split; [exists rm; split; [done|by rewrite <-Hthe]|].
        rewrite decide_True by done.
        eapply deliver_open; try done. apply (NoDup_the_room s Hinv roomId).
      * destruct (attached_conn s Hinv2 r rm' c Hr Hc) as (k1 & Hk1 & Hroom & _).
        rewrite lookup_app_l in Hk'
          by (rewrite deliver_length; by eapply lookup_lt_Some).
        rewrite deliver_not_in in Hk'.
        -- split; [by exists rm'|]. rewrite decide_False by done.
           rewrite app_nil_r. congruence.
        -- intros Hin. cbn [clients room1 set_players] in Hin.
           destruct (the_room_clients s roomId c Hin) as (rm & Hrm & Hthe).
           destruct (attached_conn s Hinv2 roomId rm c Hrm) as (k2 & Hk2 & Hroom2 & _).
           { by rewrite <-Hthe. }
           congruence.
  - (* POST *)
    exists (snd <$> out (POST roomId body s)), roomId.
    intros r rm' c k k' Hr Hc Hk Hk' Hopen.
    destruct (decide (r = roomId)) as [->|Hne].
    + destruct (POST_room_frame s roomId body roomId) as (_ & Hsub & _).
      assert (c ∈ clients (the_room roomId s)) as Hc0.
      { apply Hsub. by rewrite (the_room_Some _ _ _ Hr). }
      destruct (the_room_clients s roomId c Hc0) as (rm & Hrm & Hthe).
      split; [exists rm; split; [done|by rewrite <-Hthe]|].
      destruct (speaks_POST roomId body s) as [[Ho Hcs]|(ev & Ho & Hcs)].
      * rewrite Ho. simpl. rewrite app_nil_r. congruence.
      * rewrite Ho. simpl. rewrite Hcs in Hk'.
        eapply deliver_open; try done. apply (NoDup_the_room s Hinv roomId).
    + rewrite app_nil_r.
      rewrite POST_other_rooms in Hr by done.
      split; [by exists rm'|].
      destruct (attached_conn s Hinv2 r rm' c Hr Hc) as (k1 & Hk1 & Hroom & _).
      assert (c ∉ clients (the_room roomId s)) as Hnot.
      { intros Hin. destruct (the_room_clients s roomId c Hin) as (rm & Hrm & Hthe).
        destruct (attached_conn s Hinv2 roomId rm c Hrm) as (k2 & Hk2 & Hroom2 & _).
        { by rewrite <-Hthe. }
        congruence. }
      destruct (speaks_POST roomId body s) as [[Ho Hcs]|(ev & Ho & Hcs)].
      * congruence.
      * rewrite Hcs, deliver_not_in in Hk' by done. congruence.
  - (* abort *)
    destruct (conns s !! c0) as [k0|] eqn:Hk0.
    2:{ exists [], "". unfold signal_abort. rewrite Hk0. simpl.
        intros r rm' c k k' Hr Hc Hk Hk' Hopen. split; [by exists rm'|].
        destruct (decide _); rewrite app_nil_r; congruence. }
    destruct (aborted k0) eqn:Hab.
    { exists [], "". unfold signal_abort. rewrite Hk0, Hab. simpl.
      intros r rm' c k k' Hr Hc Hk Hk' Hopen. split; [by exists rm'|].
      destruct (decide _); rewrite app_nil_r; congruence. }
    assert (is_Some (rooms s !! conn_room k0)) as [room Hroom].
    { destruct Hinv as [_ Hconns]. apply elem_of_dom.
      by eapply (Forall_lookup_1 _ _ _ _ Hconns). }
    rewrite (signal_abort_eq s c0 k0 room) by done. cbn [st].
    exists [EPlayerLeft (conn_name k0)
              (length (players_delete (conn_name k0) (players room)))], (conn_room k0).
    intros r rm' c k k'. cbn [rooms conns].
    rewrite lookup_insert_Some. intros [[<- <-]|[Hne Hr]] Hc Hk Hk' Hopen.
    + simpl in Hc. apply elem_of_List_filter in Hc as [Hc _].
      pose proof Hc as Hc'. apply elem_of_List_filter in Hc' as [Hin Hcc].
      split; [by exists room|]. rewrite decide_True by done.
      eapply deliver_open; [| |
        |exact Hk'|done].
      * simpl. apply NoDup_List_filter.
        rewrite <-(the_room_Some _ _ _ Hroom). apply (NoDup_the_room s Hinv).
      * exact Hc.
      * rewrite list_lookup_insert_ne; [done|]. intros ->.
        by rewrite Nat.eqb_refl in Hcc.
    + destruct (attached_conn s Hinv2 r rm' c Hr Hc) as (k1 & Hk1 & Hroom1 & _).
      assert (c0 ≠ c) as Hcc by (intros ->; congruence).
      rewrite deliver_not_in in Hk'.
      * rewrite list_lookup_insert_ne in Hk' by done.
        split; [by exists rm'|]. rewrite decide_False by done.
        rewrite app_nil_r. congruence.
      * simpl. intros Hin. apply elem_of_List_filter in Hin as [Hin _].
        destruct (attached_conn s Hinv2 (conn_room k0) room c Hroom Hin)
          as (k2 & Hk2 & Hroom2 & _).
        congruence.
  - (* close *)
    exists [], "". unfold stream_close.
    destruct (conns s !! c0) as [k0|] eqn:Hk0; simpl.
    + intros r rm' c k k' Hr Hc Hk Hk' Hopen. split; [by exists rm'|].
      assert (c0 ≠ c) as Hcc.
      { intros ->. rewrite list_lookup_insert_eq in Hk' by (by eapply lookup_lt_Some).
        injection Hk' as <-. done. }
      rewrite list_lookup_insert_ne in Hk' by done.
      destruct (decide _); rewrite app_nil_r; congruence.
    + intros r rm' c k k' Hr Hc Hk Hk' Hopen. split; [by exists rm'|].
      destruct (decide _); rewrite app_nil_r; congruence.
Qed.

Lemma run_frames tr : ∀ s,
  reachable s →
  ∀ r rm' c1 c2 k1 k2 k1' k2',
    rooms (run tr s) !! r = Some rm' → c1 ∈ clients rm' → c2 ∈ clients rm' →
    conns s !! c1 = Some k1 → conns s !! c2 = Some k2 →
    conns (run tr s) !! c1 = Some k1' → conns (run tr s) !! c2 = Some k2' →
    closed k1' = false → closed k2' = false →
    (∃ rm, rooms s !! r = Some rm ∧ c1 ∈ clients rm ∧ c2 ∈ clients rm) ∧
    ∃ evs, queue k1' = (queue k1 ++ evs)%list ∧ queue k2' = (queue k2 ++ evs)%list.
Proof.
  induction tr as [|i tr IH]; intros s Hreach r rm' c1 c2 k1 k2 k1' k2'
    Hr Hc1 Hc2 Hk1 Hk2 Hk1' Hk2' Ho1 Ho2.
  - simpl in *. split; [by exists rm'|]. exists []. rewrite !app_nil_r.
    split; congruence.
  - change (run (i :: tr) s) with (run tr (step i s)) in *.
    destruct (history_step i s c1 k1 Hk1) as (m1 & Hm1 & _).
    destruct (history_step i s c2 k2 Hk2) as (m2 & Hm2 & _).
    destruct (IH (step i s) (reachable_step i s Hreach) r rm' c1 c2 m1 m2 k1' k2')
      as [(rm1 & Hrm1 & Hc1m & Hc2m) (evs' & Hq1 & Hq2)]; try done.
    assert (closed m1 = false ∧ closed m2 = false) as [Hom1 Hom2].
    { destruct (history_run tr (step i s) c1 m1 Hm1) as (x1 & Hx1 & _ & _ & _ & Hcl1 & _).
      destruct (history_run tr (step i s) c2 m2 Hm2) as (x2 & Hx2 & _ & _ & _ & Hcl2 & _).
      assert (x1 = k1') as -> by congruence. assert (x2 = k2') as -> by congruence.
      split.
      - destruct (closed m1); [|done]. rewrite Hcl1 in Ho1; done.
      - destruct (closed m2); [|done]. rewrite Hcl2 in Ho2; done. }
    destruct (step_frames i s Hreach) as (evs & r0 & Hstep).
    destruct (Hstep r rm1 c1 k1 m1 Hrm1 Hc1m Hk1 Hm1 Hom1) as [(rm & Hrm & Hin1) He1].
    destruct (Hstep r rm1 c2 k2 m2 Hrm1 Hc2m Hk2 Hm2 Hom2) as [(rm0 & Hrm0 & Hin2) He2].
    assert (rm0 = rm) as -> by congruence.
    split; [by exists rm|].
    exists ((if decide (r = r0) then evs else []) ++ evs')%list.
    rewrite Hq1, Hq2, He1, He2, <-!app_assoc. done.
Qed.



(** ** Edits of different blocks commute *)

Lemma blocks_after_remove s roomId blockId sender :
  Forall (λ v, readable v = true) (blocks (the_room roomId s)) →
  blocks (the_room roomId (st (POST roomId (Some (remove_action blockId sender)) s)))
  = List.filter (λ v, negb (has_id (Some (JStr blockId)) v)) (blocks (the_room roomId s)).
Proof.
  intros Hread. rewrite POST_remove_blocks; [|apply logged_remove_action|done].
  change (field (Some (remove_action blockId sender)) "blockId") with (Some (JStr blockId)).
  by rewrite filter_blocks_readable.
Qed.

Lemma blocks_after_add s roomId b sender :
  blocks (the_room roomId (st (POST roomId (Some (add_action b sender)) s)))
  = (blocks (the_room roomId s) ++ [Some (block_json b)])%list.
Proof. rewrite POST_add_blocks; [done|apply logged_add_action|done]. Qed.

(** X26. Edits of different blocks can be applied in either order.  In a room
    whose blocks can be read, two removals leave the same blocks whichever
    comes first, and so do the placing of a block and the removal of
    another id: two clients editing different blocks at the same time
    cannot make the room depend on whose request the server handles
    first. *)
Theorem edits_of_different_blocks_commute s roomId :
  Forall (λ v, readable v = true) (blocks (the_room roomId s)) →
  (∀ x y sx sy,
     let rx := In_POST roomId (Some (remove_action x sx)) in
     let ry := In_POST roomId (Some (remove_action y sy)) in
     blocks (the_room roomId (run [rx; ry] s)) = blocks (the_room roomId (run [ry; rx] s))) ∧
  (∀ b x sb sx,
     b_id b ≠ x →
     let ab := In_POST roomId (Some (add_action b sb)) in
     let rx := In_POST roomId (Some (remove_action x sx)) in
     blocks (the_room roomId (run [ab; rx] s)) = blocks (the_room roomId (run [rx; ab] s))).
Proof.
  intros Hread. split.
  - intros x y sx sy rx ry. subst rx ry. cbn [run foldl step].
    rewrite !blocks_after_remove; try done;
      try (rewrite blocks_after_remove by done; by apply Forall_List_filter).
    rewrite !filter_filter. apply filter_ext. intros v. apply andb_comm.
  - intros b x sb sx Hne ab rx. subst ab rx. cbn [run foldl step].
    rewrite blocks_after_remove.
    2:{ rewrite blocks_after_add. apply Forall_app. split; [done|]. by repeat constructor. }
    rewrite !blocks_after_add, blocks_after_remove by done.
    rewrite List.filter_app. simpl. unfold has_id at 2. rewrite block_json_id. simpl.
    by destruct (String.eqb_spec (b_id b) x).
Qed.

Lemma edits_of_different_blocks_commute_witness :
  let b1 := Block 0 0 0 None (Some "red") "b1" in
  let b2 := Block 1 0 0 None (Some "red") "b2" in
  let s := run [In_POST "r" (Some (add_action b1 "Alice"))] init in
  Forall (λ v, readable v = true) (blocks (the_room "r" s)) ∧
  blocks (the_room "r" (run [In_POST "r" (Some (add_action b2 "Bob"));
                             In_POST "r" (Some (remove_action "b1" "Alice"))] s))
  = [Some (block_json b2)].
Proof.
  intros b1 b2 s.
  assert (Forall (λ v, readable v = true) (blocks (the_room "r" s))) as Hread.
  { vm_compute. repeat constructor. }
  split; [exact Hread|].
  destruct (edits_of_different_blocks_commute s "r" Hread) as [_ H].
  rewrite (H b2 "b1" "Bob" "Alice"); [|discriminate]. vm_compute. reflexivity.
Defined.
